(** * Form submission pipeline of assets/js/validate.js

    A shallow embedding of the two submit handlers of [validate.js]
    (the newsletter form and the contact form), of the helpers they
    call ([isEmailValid], [toggleAlert], [showSpinner]) and of the part
    of the page they read and write.

    - JavaScript strings are lists of UTF-16 code units.
    - The regular expression of [isEmailValid] is kept as data and run
      by a derivative matcher.
    - DOM access is a state monad over the elements the script looks
      up; a lookup that returns [null] is [None].  An exception leaves
      the DOM as it was when it was thrown, so the monad carries the
      state through both completions.
    - An [async] handler runs up to its first [await] and then hands a
      continuation to the page; the page keeps the operations in flight
      and resumes them when they settle.

    The last part of the definitions embeds what [main.js] computes
    or keeps state for: the purchase links, the back-to-top button,
    the same-page anchors and the current page in the navigation. *)

From Stdlib Require Import List NArith ZArith Bool Lia String Ascii.
From Stdlib Require QArith.
Import ListNotations.

Set Implicit Arguments.

(** ** Strings *)

Module Js.

Definition code_unit := N.
Definition jsstring := list code_unit.

(** An ASCII literal of the script as a list of code units. *)
Definition lit (s : string) : jsstring :=
  map N_of_ascii (list_ascii_of_string s).

(** U+2014, the dash of the feedback messages. *)
Definition emdash : code_unit := 8212%N.

(** An empty string is falsy, every other string is truthy. *)
Definition truthy (s : jsstring) : bool :=
  match s with [] => false | _ :: _ => true end.

(** White space and line terminators of ECMAScript: the code units that
    [String.prototype.trim] strips and that [\s] matches. *)
Definition is_space (c : code_unit) : bool :=
  ((9 <=? c) && (c <=? 13) || (c =? 32) || (c =? 160) || (c =? 5760)
   || (8192 <=? c) && (c <=? 8202) || (c =? 8232) || (c =? 8233)
   || (c =? 8239) || (c =? 8287) || (c =? 12288) || (c =? 65279))%N.

Fixpoint trimStart (s : jsstring) : jsstring :=
  match s with
  | [] => []
  | c :: r => if is_space c then trimStart r else s
  end.

Definition trimEnd (s : jsstring) : jsstring := rev (trimStart (rev s)).

Definition trim (s : jsstring) : jsstring := trimEnd (trimStart s).

(** [String.prototype.toLowerCase] on the letters of Basic Latin; the
    other code units are left as they are.  The pattern of
    [isEmailValid] tells apart white space, the at sign and the full
    stop only, and no case mapping makes or unmakes one of them:
    [isEmailValid_any_lower] shows that every lower-casing that keeps
    the shape of a string gives the same answers as this one. *)
Definition lower_unit (c : code_unit) : code_unit :=
  if ((65 <=? c) && (c <=? 90))%N then (c + 32)%N else c.

Definition toLowerCase (s : jsstring) : jsstring := map lower_unit s.

End Js.
Import Js.

(** ** Regular expressions *)

Module Regex.

(** Members of a character class. *)
Inductive class_item :=
| ClsSpace                       (* \s *)
| ClsUnit (c : code_unit).

Definition item_has (i : class_item) (c : code_unit) : bool :=
  match i with
  | ClsSpace => is_space c
  | ClsUnit c' => (c =? c')%N
  end.

Definition class_has (cls : list class_item) (c : code_unit) : bool :=
  existsb (fun i => item_has i c) cls.

Inductive regex :=
| RNone                                   (* matches nothing *)
| REps                                    (* the empty string *)
| RUnit (c : code_unit)                   (* a literal, as in \. or @ *)
| RNotIn (cls : list class_item)          (* [^...] *)
| RCat (r1 r2 : regex)
| RAlt (r1 r2 : regex)
| RStar (r : regex)
| RPlus (r : regex).

Fixpoint nullable (r : regex) : bool :=
  match r with
  | RNone => false
  | REps => true
  | RUnit _ => false
  | RNotIn _ => false
  | RCat r1 r2 => nullable r1 && nullable r2
  | RAlt r1 r2 => nullable r1 || nullable r2
  | RStar _ => true
  | RPlus r1 => nullable r1
  end.

Fixpoint deriv (c : code_unit) (r : regex) : regex :=
  match r with
  | RNone => RNone
  | REps => RNone
  | RUnit c' => if (c =? c')%N then REps else RNone
  | RNotIn cls => if class_has cls c then RNone else REps
  | RCat r1 r2 =>
      RAlt (RCat (deriv c r1) r2) (if nullable r1 then deriv c r2 else RNone)
  | RAlt r1 r2 => RAlt (deriv c r1) (deriv c r2)
  | RStar r1 => RCat (deriv c r1) (RStar r1)
  | RPlus r1 => RCat (deriv c r1) (RStar r1)
  end.

(** [/^r$/.test(s)]: the whole of [s] matches [r]. *)
Definition test (r : regex) (s : jsstring) : bool :=
  nullable (fold_left (fun r' c => deriv c r') s r).

(** The language of a pattern, for reasoning. *)
Inductive matches : regex -> jsstring -> Prop :=
| MEps : matches REps []
| MUnit c : matches (RUnit c) [c]
| MNotIn cls c : class_has cls c = false -> matches (RNotIn cls) [c]
| MCat r1 r2 s1 s2 :
    matches r1 s1 -> matches r2 s2 -> matches (RCat r1 r2) (s1 ++ s2)
| MAltL r1 r2 s : matches r1 s -> matches (RAlt r1 r2) s
| MAltR r1 r2 s : matches r2 s -> matches (RAlt r1 r2) s
| MStarNil r : matches (RStar r) []
| MStarApp r s1 s2 :
    matches r s1 -> matches (RStar r) s2 -> matches (RStar r) (s1 ++ s2)
| MPlus r s1 s2 :
    matches r s1 -> matches (RStar r) s2 -> matches (RPlus r) (s1 ++ s2).

End Regex.
Import Regex.

(** ** isEmailValid *)

Definition at_sign : code_unit := 64%N.
Definition full_stop : code_unit := 46%N.

(** [[^\s@]] *)
Definition atom_class : list class_item := [ClsSpace; ClsUnit at_sign].

(** The pattern between [^] and [$]: [[^\s@]+@[^\s@]+\.[^\s@]+]. *)
Definition email_pattern : regex :=
  RCat (RPlus (RNotIn atom_class))
    (RCat (RUnit at_sign)
       (RCat (RPlus (RNotIn atom_class))
          (RCat (RUnit full_stop) (RPlus (RNotIn atom_class))))).

Definition isEmailValid (email : jsstring) : bool :=
  test email_pattern (toLowerCase email).

(** A code unit [[^\s@]] accepts, and a non-empty run of them. *)
Definition is_atom (c : code_unit) : bool :=
  negb (is_space c) && negb (c =? at_sign)%N.

Definition atoms (s : jsstring) : bool := truthy s && forallb is_atom s.

(** *** The wording of the specification *)

Definition no_space (s : jsstring) : bool :=
  forallb (fun c => negb (is_space c)) s.

Definition count_at (s : jsstring) : nat := count_occ N.eq_dec s at_sign.

(** What stands before the first at sign, and what stands after it. *)
Fixpoint local_part (s : jsstring) : jsstring :=
  match s with
  | [] => []
  | c :: r => if (c =? at_sign)%N then [] else c :: local_part r
  end.

Fixpoint domain_part (s : jsstring) : jsstring :=
  match s with
  | [] => []
  | c :: r => if (c =? at_sign)%N then r else domain_part r
  end.

(** "contains a "." followed by a non-whitespace character run" *)
Fixpoint dot_then_run (d : jsstring) : bool :=
  match d with
  | [] => false
  | c :: r =>
      (c =? full_stop)%N
        && match r with [] => false | c' :: _ => negb (is_space c') end
      || dot_then_run r
  end.

(** The sentence of the specification, read word for word: no white
    space, one at sign with something before it, and a domain with a
    full stop that something follows. *)
Definition isEmailValid_as_specified (s : jsstring) : bool :=
  no_space s && (count_at s =? 1)%nat && truthy (local_part s)
    && dot_then_run (domain_part s).

(** A full stop with something after it, in a string that starts
    before it. *)
Fixpoint dot_inside_from (r : jsstring) : bool :=
  match r with
  | [] => false
  | c :: r' => (c =? full_stop)%N && truthy r' || dot_inside_from r'
  end.

Definition dot_inside (d : jsstring) : bool :=
  match d with
  | [] => false
  | _ :: r => dot_inside_from r
  end.

(** The same sentence with the full stop of the domain required to have
    something on both sides. *)
Definition isEmailValid_amended (s : jsstring) : bool :=
  no_space s && (count_at s =? 1)%nat && truthy (local_part s)
    && dot_inside (domain_part s).

(** *** What the pattern can tell apart *)

(** The pattern sees four kinds of code unit. *)
Inductive Kind := KSpace | KAt | KDot | KOther.

Definition kind_of (c : code_unit) : Kind :=
  if is_space c then KSpace
  else if (c =? at_sign)%N then KAt
  else if (c =? full_stop)%N then KDot
  else KOther.

(** The kinds of a string in order, a run of other code units counted
    once.  A case mapping that lengthens or shortens such a run, as
    the full Unicode mapping of [toLowerCase] can, leaves the shape as
    it is. *)
Fixpoint shape (s : jsstring) : list Kind :=
  match s with
  | [] => []
  | c :: r =>
      match kind_of c, shape r with
      | KOther, KOther :: t => KOther :: t
      | k, sh => k :: sh
      end
  end.

Definition is_kspace (k : Kind) : bool :=
  match k with KSpace => true | _ => false end.
Definition is_kat (k : Kind) : bool :=
  match k with KAt => true | _ => false end.
Definition is_kdot (k : Kind) : bool :=
  match k with KDot => true | _ => false end.

Fixpoint kdomain (sh : list Kind) : list Kind :=
  match sh with
  | [] => []
  | k :: t => if is_kat k then t else kdomain t
  end.

Fixpoint kdot_from (sh : list Kind) : bool :=
  match sh with
  | [] => false
  | k :: t => is_kdot k && negb (Nat.eqb (List.length t) 0) || kdot_from t
  end.

(** [isEmailValid_amended], read off the shape. *)
Definition valid_shape (sh : list Kind) : bool :=
  forallb (fun k => negb (is_kspace k)) sh
    && (List.length (filter is_kat sh) =? 1)%nat
    && match sh with [] => false | k :: _ => negb (is_kat k) end
    && match kdomain sh with [] => false | _ :: t => kdot_from t end.

(** ** The elements the script looks up *)

(** A form control: its current value, the value [form.reset()] gives
    it back, and whether its class list holds [is-invalid]. *)
Record Input := {
  value : jsstring;
  defaultValue : jsstring;
  is_invalid : bool
}.

Definition mark (inv : bool) (i : Input) : Input :=
  {| value := value i; defaultValue := defaultValue i; is_invalid := inv |}.

Definition reset_input (i : Input) : Input :=
  {| value := defaultValue i; defaultValue := defaultValue i;
     is_invalid := is_invalid i |}.

Definition type_into (text : jsstring) (i : Input) : Input :=
  {| value := text; defaultValue := defaultValue i;
     is_invalid := is_invalid i |}.

(** What an alert holds: plain text, or a [<strong>] label with the
    node that follows it, when one does. *)
Inductive AlertBody :=
| Plain (text : jsstring)
| Labelled (label : jsstring) (nextSibling : option jsstring).

(** [#contact-success] and [#contact-error]: whether the class list
    holds [d-none], the [aria-hidden] attribute, and the content. *)
Record Alert := {
  d_none : bool;
  aria_hidden : option jsstring;
  body : AlertBody
}.

(** [#newsletter-feedback]. *)
Record Feedback := {
  visually_hidden : bool;
  textContent : jsstring;
  role : option jsstring
}.

Inductive Field := Name | Email | Phone | Company | Subject | Message | Ref.

Inductive AlertId := ContactSuccess | ContactError.

Record Dom := {
  newsletter_email : option Input;          (* #newsletter-email *)
  newsletter_feedback : option Feedback;    (* #newsletter-feedback *)
  newsletter_email_focused : bool;
  el_name : option Input;                   (* #name *)
  el_email : option Input;                  (* #email *)
  el_phone : option Input;                  (* #phone *)
  el_company : option Input;                (* #company *)
  el_subject : option Input;                (* #subject *)
  el_message : option Input;                (* #message *)
  el_ref : option Input;                    (* #ref *)
  contact_success : option Alert;           (* #contact-success *)
  contact_error : option Alert;             (* #contact-error *)
  submitBtn_disabled : option bool;         (* #contact-submit *)
  submitSpinner_d_none : option bool        (* #contact-submit-spinner *)
}.

Definition querySelector (f : Field) (d : Dom) : option Input :=
  match f with
  | Name => el_name d
  | Email => el_email d
  | Phone => el_phone d
  | Company => el_company d
  | Subject => el_subject d
  | Message => el_message d
  | Ref => el_ref d
  end.

Definition getAlert (id : AlertId) (d : Dom) : option Alert :=
  match id with
  | ContactSuccess => contact_success d
  | ContactError => contact_error d
  end.

Definition with_newsletter (e : option Input) (fb : option Feedback)
    (foc : bool) (d : Dom) : Dom :=
  {| newsletter_email := e; newsletter_feedback := fb;
     newsletter_email_focused := foc;
     el_name := el_name d; el_email := el_email d; el_phone := el_phone d;
     el_company := el_company d; el_subject := el_subject d;
     el_message := el_message d; el_ref := el_ref d;
     contact_success := contact_success d; contact_error := contact_error d;
     submitBtn_disabled := submitBtn_disabled d;
     submitSpinner_d_none := submitSpinner_d_none d |}.

Definition with_fields (n e p c s m r : option Input) (d : Dom) : Dom :=
  {| newsletter_email := newsletter_email d;
     newsletter_feedback := newsletter_feedback d;
     newsletter_email_focused := newsletter_email_focused d;
     el_name := n; el_email := e; el_phone := p; el_company := c;
     el_subject := s; el_message := m; el_ref := r;
     contact_success := contact_success d; contact_error := contact_error d;
     submitBtn_disabled := submitBtn_disabled d;
     submitSpinner_d_none := submitSpinner_d_none d |}.

Definition with_alerts (ok err : option Alert) (d : Dom) : Dom :=
  {| newsletter_email := newsletter_email d;
     newsletter_feedback := newsletter_feedback d;
     newsletter_email_focused := newsletter_email_focused d;
     el_name := el_name d; el_email := el_email d; el_phone := el_phone d;
     el_company := el_company d; el_subject := el_subject d;
     el_message := el_message d; el_ref := el_ref d;
     contact_success := ok; contact_error := err;
     submitBtn_disabled := submitBtn_disabled d;
     submitSpinner_d_none := submitSpinner_d_none d |}.

Definition with_busy (btn spin : option bool) (d : Dom) : Dom :=
  {| newsletter_email := newsletter_email d;
     newsletter_feedback := newsletter_feedback d;
     newsletter_email_focused := newsletter_email_focused d;
     el_name := el_name d; el_email := el_email d; el_phone := el_phone d;
     el_company := el_company d; el_subject := el_subject d;
     el_message := el_message d; el_ref := el_ref d;
     contact_success := contact_success d; contact_error := contact_error d;
     submitBtn_disabled := btn; submitSpinner_d_none := spin |}.

Definition set_input (f : Field) (i : option Input) (d : Dom) : Dom :=
  match f with
  | Name => with_fields i (el_email d) (el_phone d) (el_company d)
              (el_subject d) (el_message d) (el_ref d) d
  | Email => with_fields (el_name d) i (el_phone d) (el_company d)
               (el_subject d) (el_message d) (el_ref d) d
  | Phone => with_fields (el_name d) (el_email d) i (el_company d)
               (el_subject d) (el_message d) (el_ref d) d
  | Company => with_fields (el_name d) (el_email d) (el_phone d) i
                 (el_subject d) (el_message d) (el_ref d) d
  | Subject => with_fields (el_name d) (el_email d) (el_phone d)
                 (el_company d) i (el_message d) (el_ref d) d
  | Message => with_fields (el_name d) (el_email d) (el_phone d)
                 (el_company d) (el_subject d) i (el_ref d) d
  | Ref => with_fields (el_name d) (el_email d) (el_phone d)
             (el_company d) (el_subject d) (el_message d) i d
  end.

Definition set_alert (id : AlertId) (a : option Alert) (d : Dom) : Dom :=
  match id with
  | ContactSuccess => with_alerts a (contact_error d) d
  | ContactError => with_alerts (contact_success d) a d
  end.

(** ** Effects *)

Inductive Exn :=
| TypeError                        (* a property of [null] was written *)
| Rejection (reason : jsstring).   (* what a rejected promise carries *)

(** How a piece of script ends: normally with a value, or by throwing;
    either way the DOM is what the script made of it so far. *)
Inductive Completion (A : Type) :=
| Normal (a : A) (d : Dom)
| Throw (e : Exn) (d : Dom).

Arguments Throw {A} e d.

Definition Act (A : Type) := Dom -> Completion A.

Definition ret {A} (a : A) : Act A := fun d => Normal a d.

Definition bind {A B} (m : Act A) (k : A -> Act B) : Act B :=
  fun d => match m d with
           | Normal a d' => k a d'
           | Throw e d' => Throw e d'
           end.

Definition throw {A} (e : Exn) : Act A := fun d => Throw e d.

Definition get : Act Dom := fun d => Normal d d.

Definition modify (f : Dom -> Dom) : Act unit := fun d => Normal tt (f d).

(** [try { m } catch (err) { h err }] *)
Definition try_catch {A} (m : Act A) (h : Exn -> Act A) : Act A :=
  fun d => match m d with
           | Normal a d' => Normal a d'
           | Throw e d' => h e d'
           end.

(** [try { m } finally { f }]: [f] runs after either completion of [m]
    and, unless it throws itself, leaves that completion standing. *)
Definition try_finally {A} (m : Act A) (f : Act unit) : Act A :=
  fun d => match m d with
           | Normal a d' =>
               match f d' with
               | Normal _ d'' => Normal a d''
               | Throw e d'' => Throw e d''
               end
           | Throw e d' =>
               match f d' with
               | Normal _ d'' => Throw e d''
               | Throw e' d'' => Throw e' d''
               end
           end.

Declare Scope act_scope.
Delimit Scope act_scope with act.
Notation "x <- m ;; k" := (bind m (fun x => k))
  (at level 61, m at next level, right associativity) : act_scope.
Notation "m ;; k" := (bind m (fun _ => k))
  (at level 61, right associativity) : act_scope.
Local Open Scope act_scope.

Definition dom_of {A} (c : Completion A) : Dom :=
  match c with
  | Normal _ d => d
  | Throw _ d => d
  end.

Definition is_normal {A} (c : Completion A) : bool :=
  match c with
  | Normal _ _ => true
  | Throw _ _ => false
  end.

(** ** Configuration and helpers *)

(** The four constants at the top of the script. *)
Record Config := {
  EMAILJS_SERVICE_ID : jsstring;
  EMAILJS_TEMPLATE_ID : jsstring;
  EMAILJS_PUBLIC_KEY : jsstring;
  FORMSPREE_ENDPOINT : jsstring
}.

(** The values the repository ships. *)
Definition shipped_config : Config :=
  {| EMAILJS_SERVICE_ID := []; EMAILJS_TEMPLATE_ID := [];
     EMAILJS_PUBLIC_KEY := []; FORMSPREE_ENDPOINT := [] |}.

(** [toggleAlert(id, show, message)].  Showing with a message writes
    to the node after the [<strong>] of the alert; when there is a
    [<strong>] and nothing after it, that write throws, after the class
    was removed and before [aria-hidden] is set. *)
Definition toggleAlert (id : AlertId) (show : bool) (message : jsstring)
  : Act unit :=
  d <- get ;;
  match getAlert id d with
  | None => ret tt
  | Some el =>
      if show then
        modify (set_alert id
                  (Some {| d_none := false; aria_hidden := aria_hidden el;
                           body := body el |})) ;;
        content <- (if truthy message then
                      match body el with
                      | Plain t => ret (Plain t)
                      | Labelled l (Some _) =>
                          ret (Labelled l (Some (lit " " ++ message)))
                      | Labelled _ None => throw TypeError
                      end
                    else ret (body el)) ;;
        modify (set_alert id
                  (Some {| d_none := false; aria_hidden := Some (lit "false");
                           body := content |}))
      else
        modify (set_alert id
                  (Some {| d_none := true; aria_hidden := Some (lit "true");
                           body := body el |}))
  end.

(** [showSpinner(show)] of the contact form. *)
Definition showSpinner (show : bool) : Act unit :=
  modify (fun d =>
            with_busy (option_map (fun _ => show) (submitBtn_disabled d))
                      (option_map (fun _ => negb show) (submitSpinner_d_none d))
                      d).

(** [form.reset()] of the contact form. *)
Definition form_reset : Act unit :=
  modify (fun d =>
            with_fields (option_map reset_input (el_name d))
                        (option_map reset_input (el_email d))
                        (option_map reset_input (el_phone d))
                        (option_map reset_input (el_company d))
                        (option_map reset_input (el_subject d))
                        (option_map reset_input (el_message d))
                        (option_map reset_input (el_ref d)) d).

(** [newsletter.reset()]. *)
Definition newsletter_reset : Act unit :=
  modify (fun d =>
            with_newsletter (option_map reset_input (newsletter_email d))
                            (newsletter_feedback d)
                            (newsletter_email_focused d) d).

(** The guarded writes to [#newsletter-feedback]. *)
Definition say (message : jsstring) (alert_role : bool) : Act unit :=
  modify (fun d =>
            match newsletter_feedback d with
            | None => d
            | Some fb =>
                with_newsletter (newsletter_email d)
                  (Some {| visually_hidden := false; textContent := message;
                           role := if alert_role then Some (lit "alert")
                                   else role fb |})
                  (newsletter_email_focused d) d
            end).

Definition focus_newsletter_email : Act unit :=
  modify (fun d =>
            with_newsletter (newsletter_email d) (newsletter_feedback d)
                            true d).

(** *** Messages *)

Definition msg_newsletter_invalid : jsstring :=
  lit "Please enter a valid email address.".
Definition msg_newsletter_demo : jsstring :=
  lit "Subscribed " ++ emdash :: lit " thanks! (Demo mode)".
Definition msg_newsletter_ok : jsstring :=
  lit "Thanks " ++ emdash :: lit " you are subscribed.".
Definition msg_newsletter_failed_later : jsstring :=
  lit "Subscription failed " ++ emdash :: lit " please try again later.".
Definition msg_newsletter_network : jsstring :=
  lit "Network error " ++ emdash :: lit " please try again later.".
Definition msg_newsletter_failed : jsstring :=
  lit "Subscription failed " ++ emdash :: lit " please try again.".
Definition msg_contact_required : jsstring :=
  lit "Please complete the required fields.".
Definition msg_contact_emailjs : jsstring :=
  lit "Please try again or email hello@asababusinesscommunity.com".
Definition msg_contact_failed : jsstring :=
  lit "Submission failed " ++ emdash :: lit " please try again later.".
Definition msg_contact_network : jsstring :=
  lit "Network error " ++ emdash :: lit " try again later.".

(** ** What the handlers send *)

Module Payload.
Record t := {
  name : jsstring;
  email : jsstring;
  phone : jsstring;
  company : jsstring;
  subject : jsstring;
  message : jsstring;
  ref : jsstring
}.
End Payload.

Inductive Params :=
| NewsletterParams (email : jsstring)       (* { email } *)
| ContactParams (payload : Payload.t).

(** The second argument of [fetch]; [body_json] is the object handed
    to [JSON.stringify]. *)
Record FetchInit := {
  method : jsstring;
  headers : list (jsstring * jsstring);
  body_json : Params
}.

Inductive SendResult :=
| SendResolves
| SendRejects (reason : jsstring).

Inductive FetchResult :=
| Responds (status : Z)
| FetchThrows (reason : jsstring).

(** [Response.ok] *)
Definition ok (status : Z) : bool := ((200 <=? status) && (status <=? 299))%Z.

Definition await_send (r : SendResult) : Act unit :=
  match r with
  | SendResolves => ret tt
  | SendRejects reason => throw (Rejection reason)
  end.

Definition await_fetch (r : FetchResult) : Act Z :=
  match r with
  | Responds status => ret status
  | FetchThrows reason => throw (Rejection reason)
  end.

(** How the synchronous part of a handler ends: it is over, or it
    waits for [emailjs.send], for [fetch] or for a timer, with the rest
    of the function as the continuation. *)
Inductive Suspension :=
| Finished
| AwaitSend (serviceId templateId : jsstring) (params : Params)
            (publicKey : jsstring) (k : SendResult -> Act unit)
| AwaitFetch (url : jsstring) (init : FetchInit) (k : FetchResult -> Act unit)
| SetTimeout (delay : N) (k : Act unit).

(** ** The newsletter form *)

(** What runs when the [fetch] of the newsletter handler settles: the
    body of its [try] from the [await] on, and its [catch]. *)
Definition newsletter_formspree_settled (r : FetchResult) : Act unit :=
  try_catch
    (status <- await_fetch r ;;
     if ok status then
       (say msg_newsletter_ok false ;; newsletter_reset)
     else
       say msg_newsletter_failed_later false)
    (fun _ => say msg_newsletter_network false).

(** The same for [window.emailjs.send]. *)
Definition newsletter_emailjs_settled (r : SendResult) : Act unit :=
  try_catch
    (await_send r ;; say msg_newsletter_ok false ;; newsletter_reset)
    (fun _ => say msg_newsletter_failed false).

(** The submit listener of [#newsletter-form]; [emailjs] tells whether
    [window.emailjs] is there. *)
Definition newsletter_onsubmit (cfg : Config) (emailjs : bool)
  : Act Suspension :=
  d <- get ;;
  match newsletter_email d with
  | None => ret Finished
  | Some emailInput =>
      let email := trim (value emailInput) in
      if negb (isEmailValid email) then
        (say msg_newsletter_invalid true ;;
         focus_newsletter_email ;;
         ret Finished)
      else if negb (truthy (EMAILJS_SERVICE_ID cfg))
              && negb (truthy (FORMSPREE_ENDPOINT cfg)) then
        (say msg_newsletter_demo false ;;
         newsletter_reset ;;
         ret Finished)
      else if truthy (FORMSPREE_ENDPOINT cfg) then
        ret (AwaitFetch (FORMSPREE_ENDPOINT cfg)
               {| method := lit "POST";
                  headers := [(lit "Accept", lit "application/json")];
                  body_json := NewsletterParams email |}
               newsletter_formspree_settled)
      else if truthy (EMAILJS_SERVICE_ID cfg) && emailjs then
        ret (AwaitSend (EMAILJS_SERVICE_ID cfg) (EMAILJS_TEMPLATE_ID cfg)
               (NewsletterParams email) (EMAILJS_PUBLIC_KEY cfg)
               newsletter_emailjs_settled)
      else ret Finished
  end.

(** ** The contact form *)

(** One of the four checks: an element that is missing, or whose
    trimmed value is not [good], makes the form invalid; the element,
    when there is one, gets or loses [is-invalid]. *)
Definition check (f : Field) (good : jsstring -> bool) : Act bool :=
  d <- get ;;
  match querySelector f d with
  | None => ret false
  | Some el =>
      if good (trim (value el)) then
        (modify (set_input f (Some (mark false el))) ;; ret true)
      else
        (modify (set_input f (Some (mark true el))) ;; ret false)
  end.

(** The "Basic validation" block; the result is the final [valid]. *)
Definition contact_validate : Act bool :=
  name_ok <- check Name truthy ;;
  email_ok <- check Email isEmailValid ;;
  subject_ok <- check Subject truthy ;;
  message_ok <- check Message truthy ;;
  ret (name_ok && email_ok && subject_ok && message_ok).

(** The [if (!valid)] block. *)
Definition announce_required : Act unit :=
  modify (fun d =>
            match contact_error d with
            | None => d
            | Some el =>
                set_alert ContactError
                  (Some {| d_none := false; aria_hidden := aria_hidden el;
                           body := Plain msg_contact_required |}) d
            end).

(** [el.value.trim()] of an element the handler takes to be there. *)
Definition trimmed_value (f : Field) : Act jsstring :=
  d <- get ;;
  match querySelector f d with
  | None => throw TypeError
  | Some el => ret (trim (value el))
  end.

(** [(el && el.value.trim()) || ''] *)
Definition trimmed_value_or_empty (f : Field) : Act jsstring :=
  d <- get ;;
  match querySelector f d with
  | None => ret []
  | Some el => ret (trim (value el))
  end.

(** [(el && el.value) || ''] *)
Definition value_or_empty (f : Field) : Act jsstring :=
  d <- get ;;
  match querySelector f d with
  | None => ret []
  | Some el => ret (value el)
  end.

(** The object literal [payload]. *)
Definition contact_payload : Act Payload.t :=
  name <- trimmed_value Name ;;
  email <- trimmed_value Email ;;
  phone <- trimmed_value_or_empty Phone ;;
  company <- trimmed_value_or_empty Company ;;
  subject <- trimmed_value Subject ;;
  message <- trimmed_value Message ;;
  ref <- value_or_empty Ref ;;
  ret {| Payload.name := name; Payload.email := email;
         Payload.phone := phone; Payload.company := company;
         Payload.subject := subject; Payload.message := message;
         Payload.ref := ref |}.

(** What runs when [window.emailjs.send] settles: [try], [catch] and
    [finally] of the first strategy. *)
Definition contact_emailjs_settled (r : SendResult) : Act unit :=
  try_finally
    (try_catch
       (await_send r ;;
        toggleAlert ContactSuccess true [] ;;
        form_reset)
       (fun _ => toggleAlert ContactError true msg_contact_emailjs))
    (showSpinner false).

(** The same for the [fetch] of the second strategy. *)
Definition contact_formspree_settled (r : FetchResult) : Act unit :=
  try_finally
    (try_catch
       (status <- await_fetch r ;;
        if ok status then
          (toggleAlert ContactSuccess true [] ;; form_reset)
        else
          toggleAlert ContactError true msg_contact_failed)
       (fun _ => toggleAlert ContactError true msg_contact_network))
    (showSpinner false).

(** The callback handed to [setTimeout]. *)
Definition contact_demo_fired : Act unit :=
  toggleAlert ContactSuccess true [] ;;
  form_reset ;;
  showSpinner false.

(** The submit listener of [#contact-form]. *)
Definition contact_onsubmit (cfg : Config) (emailjs : bool)
  : Act Suspension :=
  toggleAlert ContactSuccess false [] ;;
  toggleAlert ContactError false [] ;;
  valid <- contact_validate ;;
  if negb valid then
    (announce_required ;; ret Finished)
  else
    payload <- contact_payload ;;
    showSpinner true ;;
    if truthy (EMAILJS_SERVICE_ID cfg) && emailjs then
      ret (AwaitSend (EMAILJS_SERVICE_ID cfg) (EMAILJS_TEMPLATE_ID cfg)
             (ContactParams payload) (EMAILJS_PUBLIC_KEY cfg)
             contact_emailjs_settled)
    else if truthy (FORMSPREE_ENDPOINT cfg) then
      ret (AwaitFetch (FORMSPREE_ENDPOINT cfg)
             {| method := lit "POST";
                headers := [(lit "Accept", lit "application/json");
                            (lit "Content-Type", lit "application/json")];
                body_json := ContactParams payload |}
             contact_formspree_settled)
    else
      ret (SetTimeout 800 contact_demo_fired).

(** ** The page as an event loop *)

Inductive FormId := NewsletterForm | ContactForm.

Definition onsubmit (form : FormId) : Config -> bool -> Act Suspension :=
  match form with
  | NewsletterForm => newsletter_onsubmit
  | ContactForm => contact_onsubmit
  end.

(** An operation that was started and has not settled, with the
    continuation that waits for it. *)
Inductive InFlight :=
| PendingSend (form : FormId) (k : SendResult -> Act unit)
| PendingFetch (form : FormId) (k : FetchResult -> Act unit)
| PendingTimer (form : FormId) (due : N) (k : Act unit).

Definition form_of (x : InFlight) : FormId :=
  match x with
  | PendingSend f _ => f
  | PendingFetch f _ => f
  | PendingTimer f _ _ => f
  end.

(** A call that left the page. *)
Inductive Call :=
| SendCall (form : FormId) (serviceId templateId : jsstring)
           (params : Params) (publicKey : jsstring)
| FetchCall (form : FormId) (url : jsstring) (init : FetchInit).

Record Page := {
  dom : Dom;
  in_flight : list InFlight;
  calls : list Call;            (* every send and fetch issued so far *)
  clock : N;                    (* milliseconds *)
  unhandled : list Exn          (* what escaped a handler *)
}.

Inductive Target := NewsletterEmail | ContactField (f : Field).

Inductive Event :=
| Submit (form : FormId)
| SendSettles (i : nat) (r : SendResult)
| FetchSettles (i : nat) (r : FetchResult)
| TimerFires (i : nat)
| Tick (ms : N)
| Types (target : Target) (text : jsstring).

Definition remove_at {A} (i : nat) (l : list A) : list A :=
  firstn i l ++ skipn (S i) l.

(** Run a continuation on the page and drop it from the operations in
    flight. *)
Definition resume (k : Act unit) (i : nat) (p : Page) : Page :=
  match k (dom p) with
  | Normal _ d =>
      {| dom := d; in_flight := remove_at i (in_flight p); calls := calls p;
         clock := clock p; unhandled := unhandled p |}
  | Throw e d =>
      {| dom := d; in_flight := remove_at i (in_flight p); calls := calls p;
         clock := clock p; unhandled := unhandled p ++ [e] |}
  end.

Definition dispatch_submit (cfg : Config) (emailjs : bool) (form : FormId)
    (p : Page) : Page :=
  match onsubmit form cfg emailjs (dom p) with
  | Throw e d =>
      {| dom := d; in_flight := in_flight p; calls := calls p;
         clock := clock p; unhandled := unhandled p ++ [e] |}
  | Normal Finished d =>
      {| dom := d; in_flight := in_flight p; calls := calls p;
         clock := clock p; unhandled := unhandled p |}
  | Normal (AwaitSend sid tid params pk k) d =>
      {| dom := d; in_flight := in_flight p ++ [PendingSend form k];
         calls := calls p ++ [SendCall form sid tid params pk];
         clock := clock p; unhandled := unhandled p |}
  | Normal (AwaitFetch url init k) d =>
      {| dom := d; in_flight := in_flight p ++ [PendingFetch form k];
         calls := calls p ++ [FetchCall form url init];
         clock := clock p; unhandled := unhandled p |}
  | Normal (SetTimeout delay k) d =>
      {| dom := d;
         in_flight := in_flight p ++ [PendingTimer form (clock p + delay) k];
         calls := calls p; clock := clock p; unhandled := unhandled p |}
  end.

Definition type_text (target : Target) (text : jsstring) (d : Dom) : Dom :=
  match target with
  | NewsletterEmail =>
      with_newsletter (option_map (type_into text) (newsletter_email d))
                      (newsletter_feedback d) (newsletter_email_focused d) d
  | ContactField f =>
      set_input f (option_map (type_into text) (querySelector f d)) d
  end.

(** One turn of the event loop.  An event that names no operation in
    flight, or a timer that is not due, changes nothing. *)
Definition step (cfg : Config) (emailjs : bool) (ev : Event) (p : Page)
  : Page :=
  match ev with
  | Submit form => dispatch_submit cfg emailjs form p
  | SendSettles i r =>
      match nth_error (in_flight p) i with
      | Some (PendingSend _ k) => resume (k r) i p
      | _ => p
      end
  | FetchSettles i r =>
      match nth_error (in_flight p) i with
      | Some (PendingFetch _ k) => resume (k r) i p
      | _ => p
      end
  | TimerFires i =>
      match nth_error (in_flight p) i with
      | Some (PendingTimer _ due k) =>
          if (due <=? clock p)%N then resume k i p else p
      | _ => p
      end
  | Tick ms =>
      {| dom := dom p; in_flight := in_flight p; calls := calls p;
         clock := (clock p + ms)%N; unhandled := unhandled p |}
  | Types target text =>
      {| dom := type_text target text (dom p); in_flight := in_flight p;
         calls := calls p; clock := clock p; unhandled := unhandled p |}
  end.

Definition run (cfg : Config) (emailjs : bool) (evs : list Event) (p : Page)
  : Page :=
  fold_left (fun q ev => step cfg emailjs ev q) evs p.

(** ** The vocabulary of the specification *)

Inductive Strategy := MailRelayStrategy | FormRelayStrategy | DemoStrategy.

(** "A sub-config is "configured" iff all its string fields are
    non-empty." *)
Definition mailRelay_configured (cfg : Config) : bool :=
  truthy (EMAILJS_SERVICE_ID cfg) && truthy (EMAILJS_TEMPLATE_ID cfg)
    && truthy (EMAILJS_PUBLIC_KEY cfg).

(** [select(config, capabilities)] as the specification words it. *)
Definition select_as_specified (cfg : Config) (mailClientAvailable : bool)
  : Strategy :=
  if mailRelay_configured cfg && mailClientAvailable then MailRelayStrategy
  else if truthy (FORMSPREE_ENDPOINT cfg) then FormRelayStrategy
  else DemoStrategy.

(** The same precedence with the service id alone standing for the
    mail-relay configuration. *)
Definition select_by_service_id (cfg : Config) (mailClientAvailable : bool)
  : Strategy :=
  if truthy (EMAILJS_SERVICE_ID cfg) && mailClientAvailable
  then MailRelayStrategy
  else if truthy (FORMSPREE_ENDPOINT cfg) then FormRelayStrategy
  else DemoStrategy.

(** How the contact form starts each strategy. *)
Definition contact_send (cfg : Config) (s : Strategy) (payload : Payload.t)
  : Suspension :=
  match s with
  | MailRelayStrategy =>
      AwaitSend (EMAILJS_SERVICE_ID cfg) (EMAILJS_TEMPLATE_ID cfg)
        (ContactParams payload) (EMAILJS_PUBLIC_KEY cfg)
        contact_emailjs_settled
  | FormRelayStrategy =>
      AwaitFetch (FORMSPREE_ENDPOINT cfg)
        {| method := lit "POST";
           headers := [(lit "Accept", lit "application/json");
                       (lit "Content-Type", lit "application/json")];
           body_json := ContactParams payload |}
        contact_formspree_settled
  | DemoStrategy => SetTimeout 800 contact_demo_fired
  end.

(** The contact controller of the specification, for a strategy chosen
    beforehand: validate, build the payload, set busy, send. *)
Definition contact_controller (cfg : Config) (selected : Strategy)
  : Act Suspension :=
  toggleAlert ContactSuccess false [] ;;
  toggleAlert ContactError false [] ;;
  valid <- contact_validate ;;
  if negb valid then
    (announce_required ;; ret Finished)
  else
    payload <- contact_payload ;;
    showSpinner true ;;
    ret (contact_send cfg selected payload).

(** How the newsletter form starts each strategy. *)
Definition newsletter_send (cfg : Config) (s : Strategy) (email : jsstring)
  : Act Suspension :=
  match s with
  | MailRelayStrategy =>
      ret (AwaitSend (EMAILJS_SERVICE_ID cfg) (EMAILJS_TEMPLATE_ID cfg)
             (NewsletterParams email) (EMAILJS_PUBLIC_KEY cfg)
             newsletter_emailjs_settled)
  | FormRelayStrategy =>
      ret (AwaitFetch (FORMSPREE_ENDPOINT cfg)
             {| method := lit "POST";
                headers := [(lit "Accept", lit "application/json")];
                body_json := NewsletterParams email |}
             newsletter_formspree_settled)
  | DemoStrategy =>
      say msg_newsletter_demo false ;; newsletter_reset ;; ret Finished
  end.

Definition newsletter_controller (cfg : Config) (selected : Strategy)
  : Act Suspension :=
  d <- get ;;
  match newsletter_email d with
  | None => ret Finished
  | Some emailInput =>
      let email := trim (value emailInput) in
      if negb (isEmailValid email) then
        (say msg_newsletter_invalid true ;;
         focus_newsletter_email ;;
         ret Finished)
      else newsletter_send cfg selected email
  end.

(** The configurations in which the newsletter handler leaves the
    precedence of the contact handler: a service id is set, and the
    mail client and the endpoint are both there or both missing. *)
Definition newsletter_departs (cfg : Config) (emailjs : bool) : bool :=
  truthy (EMAILJS_SERVICE_ID cfg)
    && Bool.eqb emailjs (truthy (FORMSPREE_ENDPOINT cfg)).

(** *** Validation *)

Definition all_fields : list Field :=
  [Name; Email; Phone; Company; Subject; Message; Ref].

Definition required (f : Field) : bool :=
  match f with
  | Name | Email | Subject | Message => true
  | Phone | Company | Ref => false
  end.

Definition is_email_field (f : Field) : bool :=
  match f with Email => true | _ => false end.

(** "one of the required fields ... with an empty trimmed value, or
    ... the email field failing isEmailValid" *)
Definition field_invalid (f : Field) (v : jsstring) : bool :=
  required f && negb (truthy (trim v))
  || is_email_field f && negb (isEmailValid (trim v)).

Definition marked (f : Field) (d : Dom) : bool :=
  match querySelector f d with
  | Some el => is_invalid el
  | None => false
  end.

Definition invalidFields (d : Dom) : list Field :=
  filter (fun f => marked f d) all_fields.

(** *** Banners and the busy state *)

Definition visible (a : option Alert) : bool :=
  match a with
  | Some el => negb (d_none el)
  | None => false
  end.

Definition both_hidden (d : Dom) : bool :=
  negb (visible (contact_success d)) && negb (visible (contact_error d)).


(** An alert whose message can be rewritten without a throw. *)
Definition writable (el : Alert) : bool :=
  match body el with
  | Labelled _ None => false
  | _ => true
  end.

Definition with_message (message : jsstring) (b : AlertBody) : AlertBody :=
  match b with
  | Labelled l (Some _) => Labelled l (Some (lit " " ++ message))
  | _ => b
  end.

(** An alert after it was shown with a message. *)
Definition shown (message : jsstring) (el : Alert) : Alert :=
  {| d_none := false; aria_hidden := Some (lit "false");
     body := with_message message (body el) |}.

(** An alert after it was shown without one. *)
Definition shown_plain (el : Alert) : Alert :=
  {| d_none := false; aria_hidden := Some (lit "false"); body := body el |}.

Definition idle (d : Dom) : Dom :=
  with_busy (option_map (fun _ => false) (submitBtn_disabled d))
            (option_map (fun _ => true) (submitSpinner_d_none d)) d.

Definition inputs (d : Dom) : list (option Input) :=
  map (fun f => querySelector f d) all_fields.

(** Two parts of the page a helper may leave alone. *)
Definition busy_of (d : Dom) : option bool * option bool :=
  (submitBtn_disabled d, submitSpinner_d_none d).

Definition alerts_of (d : Dom) : option Alert * option Alert :=
  (contact_success d, contact_error d).

(** [m] leaves the part [part] of the page as it found it, however it
    completes. *)
Definition keeps {X A : Type} (part : Dom -> X) (m : Act A) : Prop :=
  forall d, part (dom_of (m d)) = part d.

(** *** The contact handler, stage by stage *)

Definition hide (a : option Alert) : option Alert :=
  option_map (fun el => {| d_none := true; aria_hidden := Some (lit "true");
                           body := body el |}) a.

(** The page once both alerts were hidden. *)
Definition hidden (d : Dom) : Dom :=
  with_alerts (hide (contact_success d)) (hide (contact_error d)) d.

Definition passes (good : jsstring -> bool) (i : option Input) : bool :=
  match i with
  | Some el => good (trim (value el))
  | None => false
  end.

Definition checked (good : jsstring -> bool) (i : option Input)
  : option Input :=
  option_map (fun el => mark (negb (good (trim (value el)))) el) i.

Definition valid_of (d : Dom) : bool :=
  passes truthy (el_name d) && passes isEmailValid (el_email d)
    && passes truthy (el_subject d) && passes truthy (el_message d).

(** The page once the four checks marked their fields. *)
Definition validated (d : Dom) : Dom :=
  with_fields (checked truthy (el_name d)) (checked isEmailValid (el_email d))
              (el_phone d) (el_company d)
              (checked truthy (el_subject d)) (checked truthy (el_message d))
              (el_ref d) d.

(** The page once the error alert asks for the required fields. *)
Definition announced (d : Dom) : Dom :=
  with_alerts (contact_success d)
    (option_map (fun el => {| d_none := false; aria_hidden := aria_hidden el;
                              body := Plain msg_contact_required |})
                (contact_error d)) d.

(** The page once the spinner is on. *)
Definition busied (d : Dom) : Dom :=
  with_busy (option_map (fun _ => true) (submitBtn_disabled d))
            (option_map (fun _ => false) (submitSpinner_d_none d)) d.

Definition value_of (trimmed : bool) (i : option Input) : jsstring :=
  match i with
  | Some el => if trimmed then trim (value el) else value el
  | None => []
  end.

Definition payload_of (d : Dom) : Payload.t :=
  {| Payload.name := value_of true (el_name d);
     Payload.email := value_of true (el_email d);
     Payload.phone := value_of true (el_phone d);
     Payload.company := value_of true (el_company d);
     Payload.subject := value_of true (el_subject d);
     Payload.message := value_of true (el_message d);
     Payload.ref := value_of false (el_ref d) |}.

(** *** The contact handler when its send settles *)

Definition reset_fields (d : Dom) : Dom :=
  with_fields (option_map reset_input (el_name d))
              (option_map reset_input (el_email d))
              (option_map reset_input (el_phone d))
              (option_map reset_input (el_company d))
              (option_map reset_input (el_subject d))
              (option_map reset_input (el_message d))
              (option_map reset_input (el_ref d)) d.

(** An alert that lost [d-none] and nothing else. *)
Definition unhidden (el : Alert) : Alert :=
  {| d_none := false; aria_hidden := aria_hidden el; body := body el |}.

(** The success path: show the success alert, reset the form, stop the
    spinner. *)
Definition succeed (d : Dom) : Completion unit :=
  Normal tt
    (idle (reset_fields
             (set_alert ContactSuccess
                (option_map shown_plain (contact_success d)) d))).

(** A failure path: show the error alert with a message, stop the
    spinner.  An alert that cannot take the message is left unhidden
    and the [TypeError] of the write leaves the handler. *)
Definition fail_with (message : jsstring) (d : Dom) : Completion unit :=
  match contact_error d with
  | None => Normal tt (idle d)
  | Some el =>
      if writable el then
        Normal tt (idle (set_alert ContactError (Some (shown message el)) d))
      else
        Throw TypeError
          (idle (set_alert ContactError (Some (unhidden el)) d))
  end.

(** *** The newsletter handler, stage by stage *)

Definition said (message : jsstring) (alert_role : bool) (d : Dom) : Dom :=
  match newsletter_feedback d with
  | None => d
  | Some fb =>
      with_newsletter (newsletter_email d)
        (Some {| visually_hidden := false; textContent := message;
                 role := if alert_role then Some (lit "alert") else role fb |})
        (newsletter_email_focused d) d
  end.

Definition reset_newsletter (d : Dom) : Dom :=
  with_newsletter (option_map reset_input (newsletter_email d))
                  (newsletter_feedback d) (newsletter_email_focused d) d.

Definition focused (d : Dom) : Dom :=
  with_newsletter (newsletter_email d) (newsletter_feedback d) true d.

(** *** Outcomes *)

Inductive SubmissionOutcome :=
| Success
| ServiceFailure (message : jsstring)
| NetworkFailure (message : jsstring).

(** What the form-relay strategy makes of the way its [fetch] settles,
    with the message each form has for it. *)
Definition formRelay_outcome (form : FormId) (r : FetchResult)
  : SubmissionOutcome :=
  match r with
  | Responds status =>
      if ok status then Success
      else ServiceFailure match form with
                          | NewsletterForm => msg_newsletter_failed_later
                          | ContactForm => msg_contact_failed
                          end
  | FetchThrows _ =>
      NetworkFailure match form with
                     | NewsletterForm => msg_newsletter_network
                     | ContactForm => msg_contact_network
                     end
  end.

(** The same for the mail-relay strategy. *)
Definition mailRelay_outcome (form : FormId) (r : SendResult)
  : SubmissionOutcome :=
  match r with
  | SendResolves => Success
  | SendRejects _ =>
      ServiceFailure match form with
                     | NewsletterForm => msg_newsletter_failed
                     | ContactForm => msg_contact_emailjs
                     end
  end.

(** The feedback region of the newsletter form shows an outcome. *)
Definition newsletter_shows (o : SubmissionOutcome) (before after : Dom)
  : Prop :=
  newsletter_feedback after
  = option_map
      (fun fb => {| visually_hidden := false;
                    textContent := match o with
                                   | Success => msg_newsletter_ok
                                   | ServiceFailure m => m
                                   | NetworkFailure m => m
                                   end;
                    role := role fb |})
      (newsletter_feedback before).

(** The alerts of the contact form show an outcome: success shows the
    success alert and leaves the error alert as it is; a failure leaves
    the success alert as it is, takes [d-none] off the error alert and,
    when the alert has a [<strong>] label with a node after it, writes
    the message of the outcome into that node. *)
Definition contact_shows (o : SubmissionOutcome) (before after : Dom)
  : Prop :=
  match o with
  | Success =>
      contact_success after = option_map shown_plain (contact_success before)
      /\ contact_error after = contact_error before
  | ServiceFailure m | NetworkFailure m =>
      contact_success after = contact_success before
      /\ option_map d_none (contact_error after)
         = option_map (fun _ => false) (contact_error before)
      /\ forall el label text,
           contact_error before = Some el ->
           body el = Labelled label (Some text) ->
           contact_error after
           = Some {| d_none := false; aria_hidden := Some (lit "false");
                     body := Labelled label (Some (lit " " ++ m)) |}
  end.

Definition shows (form : FormId) : SubmissionOutcome -> Dom -> Dom -> Prop :=
  match form with
  | NewsletterForm => newsletter_shows
  | ContactForm => contact_shows
  end.

(** The continuation each handler hands to [fetch] and to
    [emailjs.send]. *)
Definition formspree_settled (form : FormId) : FetchResult -> Act unit :=
  match form with
  | NewsletterForm => newsletter_formspree_settled
  | ContactForm => contact_formspree_settled
  end.

Definition emailjs_settled (form : FormId) : SendResult -> Act unit :=
  match form with
  | NewsletterForm => newsletter_emailjs_settled
  | ContactForm => contact_emailjs_settled
  end.

(** The fields of a form after an outcome: back at their default
    values after a success, untouched after a failure. *)
Definition fields_settled (form : FormId) (o : SubmissionOutcome)
    (before after : Dom) : Prop :=
  match form, o with
  | ContactForm, Success =>
      inputs after = map (option_map reset_input) (inputs before)
  | ContactForm, _ => inputs after = inputs before
  | NewsletterForm, Success =>
      newsletter_email after = option_map reset_input (newsletter_email before)
  | NewsletterForm, _ => newsletter_email after = newsletter_email before
  end.

(** The busy state after an outcome: cleared for the contact form; the
    newsletter form has none and leaves that of the contact form. *)
Definition busy_settled (form : FormId) (before after : Dom) : Prop :=
  match form with
  | ContactForm => busy_of after = busy_of (idle before)
  | NewsletterForm => busy_of after = busy_of before
  end.

(** All field values empty: the form cleared. *)
Definition cleared (d : Dom) : bool :=
  forallb (fun i => match i with
                    | Some el => negb (truthy (value el))
                    | None => true
                    end) (inputs d).

(** *** Runs of the page *)

Definition fresh_page (d : Dom) : Page :=
  {| dom := d; in_flight := []; calls := []; clock := 0; unhandled := [] |}.

Definition is_contact (x : InFlight) : bool :=
  match form_of x with ContactForm => true | NewsletterForm => false end.

Definition contact_in_flight (p : Page) : nat :=
  List.length (filter is_contact (in_flight p)).

(** The browser hands a submit to the contact form only through a
    submit control that is there and enabled. *)
Definition deliverable (ev : Event) (p : Page) : bool :=
  match ev with
  | Submit ContactForm =>
      match submitBtn_disabled (dom p) with
      | Some false => true
      | _ => false
      end
  | _ => true
  end.

Fixpoint guarded (cfg : Config) (emailjs : bool) (evs : list Event)
    (p : Page) : bool :=
  match evs with
  | [] => true
  | ev :: rest =>
      deliverable ev p && guarded cfg emailjs rest (step cfg emailjs ev p)
  end.

(** Events in which only time passes and timers are tried. *)
Definition only_time (evs : list Event) : bool :=
  forallb (fun ev => match ev with
                     | Tick _ | TimerFires _ => true
                     | _ => false
                     end) evs.

Definition elapsed (evs : list Event) : N :=
  fold_right (fun ev acc => match ev with
                            | Tick ms => (ms + acc)%N
                            | _ => acc
                            end) 0%N evs.

(** A page on which the clock alone has moved. *)
Definition later (ms : N) (p : Page) : Page :=
  {| dom := dom p; in_flight := in_flight p; calls := calls p;
     clock := (clock p + ms)%N; unhandled := unhandled p |}.

(** What the busy guard asks of a continuation in flight: one of the
    contact form ends with the spinner off, one of the newsletter form
    leaves the spinner and the submit control alone. *)
Definition releases (x : InFlight) : Prop :=
  match x with
  | PendingSend ContactForm k =>
      forall r d, busy_of (dom_of (k r d)) = busy_of (idle d)
  | PendingFetch ContactForm k =>
      forall r d, busy_of (dom_of (k r d)) = busy_of (idle d)
  | PendingTimer ContactForm _ k =>
      forall d, busy_of (dom_of (k d)) = busy_of (idle d)
  | PendingSend NewsletterForm k => forall r, keeps busy_of (k r)
  | PendingFetch NewsletterForm k => forall r, keeps busy_of (k r)
  | PendingTimer NewsletterForm _ k => keeps busy_of k
  end.

(** The submit control is disabled with one contact submission in
    flight and enabled with none, and every continuation in flight
    keeps it so. *)
Definition busy_inv (p : Page) : Prop :=
  Forall releases (in_flight p)
  /\ ((contact_in_flight p = 0 /\ submitBtn_disabled (dom p) = Some false)
      \/ (contact_in_flight p = 1 /\ submitBtn_disabled (dom p) = Some true)).



(** A continuation in flight from which nothing but a [TypeError] of
    its own writes can escape. *)
Definition tame (x : InFlight) : Prop :=
  match x with
  | PendingSend _ k => forall r d e d', k r d = Throw e d' -> e = TypeError
  | PendingFetch _ k => forall r d e d', k r d = Throw e d' -> e = TypeError
  | PendingTimer _ _ k => forall d e d', k d = Throw e d' -> e = TypeError
  end.

(** Nothing that a rejected promise carried is among the exceptions
    that escaped, and nothing in flight can add one. *)
Definition no_rejection (p : Page) : Prop :=
  Forall tame (in_flight p)
  /\ Forall (fun e => e = TypeError) (unhandled p).

(** ** Sample pages and configurations *)

Definition filled (v : string) : option Input :=
  Some {| value := lit v; defaultValue := []; is_invalid := false |}.

Definition hidden_alert (label text : string) : option Alert :=
  Some {| d_none := true; aria_hidden := Some (lit "true");
          body := Labelled (lit label) (Some (lit text)) |}.

(** A page with both forms filled in by a visitor. *)
Definition sample_dom : Dom :=
  {| newsletter_email := filled " a@b.co ";
     newsletter_feedback :=
       Some {| visually_hidden := true; textContent := []; role := None |};
     newsletter_email_focused := false;
     el_name := filled "A";
     el_email := filled "a@b.co";
     el_phone := None;
     el_company := filled " ACME ";
     el_subject := filled "S";
     el_message := filled "M";
     el_ref := Some {| value := lit " web "; defaultValue := lit " web ";
                       is_invalid := false |};
     contact_success := hidden_alert "Thank you!" " Message sent.";
     contact_error := hidden_alert "Error:" " Something went wrong.";
     submitBtn_disabled := Some false;
     submitSpinner_d_none := Some true |}.

(** The same page before anything was typed into the contact form. *)
Definition empty_contact_dom : Dom :=
  with_fields (filled "") (filled "  ") (filled "") (filled "")
              (filled "") (filled " ") (filled "") sample_dom.

(** Only the service id was filled in. *)
Definition cfg_service_only : Config :=
  {| EMAILJS_SERVICE_ID := lit "service_x"; EMAILJS_TEMPLATE_ID := [];
     EMAILJS_PUBLIC_KEY := []; FORMSPREE_ENDPOINT := [] |}.

Definition cfg_endpoint : Config :=
  {| EMAILJS_SERVICE_ID := []; EMAILJS_TEMPLATE_ID := [];
     EMAILJS_PUBLIC_KEY := [];
     FORMSPREE_ENDPOINT := lit "https://formspree.io/f/yourid" |}.

Definition cfg_emailjs : Config :=
  {| EMAILJS_SERVICE_ID := lit "service_x";
     EMAILJS_TEMPLATE_ID := lit "template_x";
     EMAILJS_PUBLIC_KEY := lit "user_x"; FORMSPREE_ENDPOINT := [] |}.

Definition cfg_both : Config :=
  {| EMAILJS_SERVICE_ID := lit "service_x";
     EMAILJS_TEMPLATE_ID := lit "template_x";
     EMAILJS_PUBLIC_KEY := lit "user_x";
     FORMSPREE_ENDPOINT := lit "https://formspree.io/f/yourid" |}.

(** ** More vocabulary: the page over whole runs *)

(** The continuations the two handlers ever leave in flight. *)
Definition known (x : InFlight) : Prop :=
  match x with
  | PendingSend form k => k = emailjs_settled form
  | PendingFetch form k => k = formspree_settled form
  | PendingTimer form _ k => form = ContactForm /\ k = contact_demo_fired
  end.

(** What belongs to the contact form, and what to the newsletter. *)
Definition contact_part (d : Dom)
  : list (option Input) * (option Alert * option Alert)
    * (option bool * option bool) :=
  (inputs d, alerts_of d, busy_of d).

Definition newsletter_part (d : Dom)
  : option Input * option Feedback * bool :=
  (newsletter_email d, newsletter_feedback d, newsletter_email_focused d).

(** The error alert can take a message, or is not there. *)
Definition error_writable (d : Dom) : bool :=
  match contact_error d with
  | Some el => writable el
  | None => true
  end.

(** [aria-hidden] says what the class list says. *)
Definition aria_agrees (a : Alert) : bool :=
  match aria_hidden a with
  | Some v =>
      if d_none a then
        if list_eq_dec N.eq_dec v (lit "true") then true else false
      else
        if list_eq_dec N.eq_dec v (lit "false") then true else false
  | None => false
  end.

(** An alert that is visible and still says [aria-hidden="true"]. *)
Definition shown_as_hidden (a : Alert) : Prop :=
  d_none a = false /\ aria_hidden a = Some (lit "true").

(** The spinner is visible exactly when the submit control is
    disabled, where both are there. *)
Definition spinner_follows (d : Dom) : Prop :=
  forall b s, submitBtn_disabled d = Some b ->
              submitSpinner_d_none d = Some s -> s = negb b.

(** What a call carries was validated. *)
Definition sound_params (form : FormId) (params : Params) : Prop :=
  match form, params with
  | NewsletterForm, NewsletterParams email => isEmailValid email = true
  | ContactForm, ContactParams payload =>
      truthy (Payload.name payload) = true
      /\ isEmailValid (Payload.email payload) = true
      /\ truthy (Payload.subject payload) = true
      /\ truthy (Payload.message payload) = true
  | _, _ => False
  end.

Definition sound_call (cfg : Config) (emailjs : bool) (c : Call) : Prop :=
  match c with
  | SendCall form sid tid params pk =>
      emailjs = true
      /\ truthy sid = true
      /\ sid = EMAILJS_SERVICE_ID cfg
      /\ tid = EMAILJS_TEMPLATE_ID cfg
      /\ pk = EMAILJS_PUBLIC_KEY cfg
      /\ sound_params form params
  | FetchCall form url init =>
      truthy url = true
      /\ url = FORMSPREE_ENDPOINT cfg
      /\ method init = lit "POST"
      /\ sound_params form (body_json init)
  end.

Definition values (d : Dom) : list (option (jsstring * jsstring)) :=
  map (option_map (fun el => (value el, defaultValue el))) (inputs d).

(** The call of the contact form for a page, by strategy. *)
Definition contact_fetch_call (cfg : Config) (d : Dom) : Call :=
  FetchCall ContactForm (FORMSPREE_ENDPOINT cfg)
    {| method := lit "POST";
       headers := [(lit "Accept", lit "application/json");
                   (lit "Content-Type", lit "application/json")];
       body_json := ContactParams (payload_of d) |}.

Definition contact_send_call (cfg : Config) (d : Dom) : Call :=
  SendCall ContactForm (EMAILJS_SERVICE_ID cfg) (EMAILJS_TEMPLATE_ID cfg)
    (ContactParams (payload_of d)) (EMAILJS_PUBLIC_KEY cfg).

(** The error alert holds the text of a failed validation and no
    label. *)
Definition asks_required (d : Dom) : Prop :=
  option_map body (contact_error d) = Some (Plain msg_contact_required).

(** The feedback line of the newsletter is visible; it is announced
    as an alert. *)
Definition feedback_visible (d : Dom) : Prop :=
  option_map visually_hidden (newsletter_feedback d) = Some false.

Definition feedback_alerts (d : Dom) : Prop :=
  option_map role (newsletter_feedback d) = Some (Some (lit "alert")).

(** The calls a submit of [form] puts on the wire from the page [d]. *)
Definition issued (cfg : Config) (emailjs : bool) (form : FormId) (d : Dom)
  : list Call :=
  match onsubmit form cfg emailjs d with
  | Normal (AwaitSend sid tid params pk _) _ =>
      [SendCall form sid tid params pk]
  | Normal (AwaitFetch url init _) _ => [FetchCall form url init]
  | _ => []
  end.

(** A page whose alert has a label and nothing after it. *)
Definition bare_label_dom : Dom :=
  with_alerts (contact_success sample_dom)
    (Some {| d_none := true; aria_hidden := Some (lit "true");
             body := Labelled (lit "Error") None |}) sample_dom.

(** * main.js: the decorations of the page

    The parts of [main.js] that keep state of their own or compute
    something: the purchase links, the back-to-top button, the
    same-page anchors and the highlighting of the current page in the
    navigation.  What the script hands to AOS, GLightbox, GSAP,
    ScrollSpy and simpleParallax is left to those libraries. *)

Definition str_eqb (a b : jsstring) : bool :=
  if list_eq_dec N.eq_dec a b then true else false.

(** [a || b] where [a] is a string, [null] or [undefined]. *)
Definition or_else (a : option jsstring) (b : jsstring) : jsstring :=
  match a with
  | Some (c :: r) => c :: r
  | _ => b
  end.

(** ** The purchase links *)

Module Purchase.

Definition PURCHASE_URL : jsstring := lit "https://selar.co/s127n8".

(** A [.js-purchase-btn]: its tag name, its [href] and [role]
    attributes, and where the click listeners this script gave it
    send the window, in the order they were added. *)
Record Element := {
  tagName : jsstring;
  href : option jsstring;
  role : option jsstring;
  redirects : list jsstring
}.

Definition is_anchor (el : Element) : bool :=
  str_eqb (toLowerCase (tagName el)) (lit "a").

Definition apply_one (el : Element) : Element :=
  if is_anchor el then
    {| tagName := tagName el; href := Some PURCHASE_URL;
       role := Some (or_else (role el) (lit "button"));
       redirects := redirects el |}
  else
    {| tagName := tagName el; href := href el; role := role el;
       redirects := redirects el ++ [PURCHASE_URL] |}.

Definition applyPurchaseUrl (els : list Element) : list Element :=
  map apply_one els.

(** [window.location.href] once the listeners of the script ran on a
    click. *)
Definition click (el : Element) (location : jsstring) : jsstring :=
  fold_left (fun _ url => url) (redirects el) location.

End Purchase.

(** ** The back-to-top button *)

Module BackToTop.

Import QArith_base.

(** The inline style of [#backToTop]. *)
Record Style := {
  display : jsstring;
  opacity : jsstring
}.

(** [window.scrollY] is a number of CSS pixels, whole or not. *)
Record State := {
  scrollY : Q;
  style : Style;
  timers : list N;              (* when each pending timeout is due *)
  clock : N                     (* milliseconds *)
}.

Definition threshold : Q := inject_Z 300.

(** [a > b] and [a <= b] on numbers. *)
Definition gt (a b : Q) : bool :=
  match Qcompare a b with Gt => true | _ => false end.

Definition le (a b : Q) : bool :=
  match Qcompare a b with Gt => false | _ => true end.

Definition showBackButton (s : State) : State :=
  if gt (scrollY s) threshold then
    {| scrollY := scrollY s;
       style := {| display := lit "block"; opacity := lit "1" |};
       timers := timers s; clock := clock s |}
  else
    {| scrollY := scrollY s;
       style := {| display := display (style s); opacity := lit "0" |};
       timers := timers s ++ [(clock s + 220)%N]; clock := clock s |}.

(** The callback of the timeout. *)
Definition hide_if_still_up (s : State) : State :=
  if le (scrollY s) threshold then
    {| scrollY := scrollY s;
       style := {| display := lit "none"; opacity := opacity (style s) |};
       timers := timers s; clock := clock s |}
  else s.

Inductive Event :=
| ScrollTo (y : Q)              (* the page moved *)
| ScrollEvent                   (* the [scroll] listener runs *)
| TimerFires (i : nat)
| Tick (ms : N).

Definition drop_timer (i : nat) (s : State) : State :=
  {| scrollY := scrollY s; style := style s;
     timers := remove_at i (timers s); clock := clock s |}.

Definition step (ev : Event) (s : State) : State :=
  match ev with
  | ScrollTo y =>
      {| scrollY := y; style := style s; timers := timers s;
         clock := clock s |}
  | ScrollEvent => showBackButton s
  | TimerFires i =>
      match nth_error (timers s) i with
      | Some due =>
          if (due <=? clock s)%N then hide_if_still_up (drop_timer i s)
          else s
      | None => s
      end
  | Tick ms =>
      {| scrollY := scrollY s; style := style s; timers := timers s;
         clock := (clock s + ms)%N |}
  end.

Definition run (evs : list Event) (s : State) : State :=
  fold_left (fun q ev => step ev q) evs s.

(** The page as the script finds it, after the call of
    [showBackButton] that ends the set-up. *)
Definition loaded (y : Q) (st : Style) : State :=
  showBackButton {| scrollY := y; style := st; timers := []; clock := 0 |}.

Definition stays (ev : Event) : bool :=
  match ev with ScrollTo _ => false | _ => true end.

Definition visible (s : State) : Prop :=
  display (style s) = lit "block" /\ opacity (style s) = lit "1".

Definition gone (s : State) : Prop :=
  display (style s) = lit "none" /\ opacity (style s) = lit "0".

(** What holds of the button once the listener ran for the position
    the page is at. *)
Definition settled (s : State) : Prop :=
  if gt (scrollY s) threshold then visible s
  else opacity (style s) = lit "0"
       /\ (display (style s) = lit "none" \/ timers s <> []).

(** No timeout is due later than 220 ms from now. *)
Definition timely (s : State) : Prop :=
  Forall (fun due => (due <= clock s + 220)%N) (timers s).

End BackToTop.

(** ** Same-page anchors *)

Module Anchor.

(** What [document.querySelector] makes of a selector: an element, no
    element, or a [SyntaxError] for a string that is no selector. *)
Inductive Lookup := Found (id : nat) | NotFound | InvalidSelector.

Record State := {
  tabindex : nat -> option jsstring;   (* the attribute, by element *)
  focus : option nat;
  timers : list (N * nat);             (* due time and element *)
  clock : N
}.

(** How a click ends: the browser follows the link, the handler took
    over, or the handler threw before it could. *)
Inductive Outcome := Default | Prevented | Threw.

Definition set_attr (id : nat) (v : option jsstring)
    (f : nat -> option jsstring) : nat -> option jsstring :=
  fun j => if Nat.eqb j id then v else f j.

Inductive Event :=
| Click (href : option jsstring)
| TimerFires (i : nat)
| Tick (ms : N).

Section Handler.

Variable querySelector : jsstring -> Lookup.

Definition onclick (href : option jsstring) (s : State) : Outcome * State :=
  match href with
  | None => (Default, s)
  | Some h =>
      if negb (truthy h) || str_eqb h (lit "#") then (Default, s)
      else
        match querySelector h with
        | InvalidSelector => (Threw, s)
        | NotFound => (Default, s)
        | Found id =>
            (Prevented,
             {| tabindex := set_attr id (Some (lit "-1")) (tabindex s);
                focus := Some id;
                timers := timers s ++ [((clock s + 1000)%N, id)];
                clock := clock s |})
        end
  end.

Definition step (ev : Event) (s : State) : State :=
  match ev with
  | Click href => snd (onclick href s)
  | TimerFires i =>
      match nth_error (timers s) i with
      | Some (due, id) =>
          if (due <=? clock s)%N then
            {| tabindex := set_attr id None (tabindex s); focus := focus s;
               timers := remove_at i (timers s); clock := clock s |}
          else s
      | None => s
      end
  | Tick ms =>
      {| tabindex := tabindex s; focus := focus s; timers := timers s;
         clock := (clock s + ms)%N |}
  end.

Definition run (evs : list Event) (s : State) : State :=
  fold_left (fun q ev => step ev q) evs s.

(** The element a click scrolls to, when it does. *)
Definition target (href : option jsstring) : option nat :=
  match href with
  | None => None
  | Some h =>
      if negb (truthy h) || str_eqb h (lit "#") then None
      else match querySelector h with
           | Found id => Some id
           | _ => None
           end
  end.

Definition targets (evs : list Event) : list nat :=
  flat_map (fun ev => match ev with
                      | Click href =>
                          match target href with
                          | Some id => [id]
                          | None => []
                          end
                      | _ => []
                      end) evs.

(** Since the page [s0]: every pending timeout is for an element a
    click scrolled to; such an element has no [tabindex], or has -1
    and a timeout pending; every other element has the [tabindex] it
    had. *)
Definition tracked (s0 : State) (seen : list nat) (s : State) : Prop :=
  (forall due id, In (due, id) (timers s) -> In id seen)
  /\ forall id,
       (In id seen
        /\ (tabindex s id = None
            \/ (tabindex s id = Some (lit "-1")
                /\ exists due, In (due, id) (timers s))))
       \/ (~ In id seen /\ tabindex s id = tabindex s0 id).

End Handler.

End Anchor.

(** ** The current page in the navigation *)

Module Nav.

(** A [nav a.nav-link]: its [href] attribute, whether its class list
    holds [active], and its [aria-current] attribute. *)
Record Link := {
  href : option jsstring;
  active : bool;
  aria_current : option jsstring
}.

Definition slash : code_unit := 47%N.

(** [String.prototype.split] with a separator of one code unit. *)
Fixpoint split (sep : code_unit) (s : jsstring) : list jsstring :=
  match s with
  | [] => [[]]
  | c :: r =>
      if (c =? sep)%N then [] :: split sep r
      else match split sep r with
           | seg :: segs => (c :: seg) :: segs
           | [] => [[c]]
           end
  end.

(** What [Array.prototype.pop] returns: the last element, [undefined]
    for an empty array. *)
Fixpoint pop (l : list jsstring) : option jsstring :=
  match l with
  | [] => None
  | [x] => Some x
  | _ :: r => pop r
  end.

Definition current_path (pathname : jsstring) : jsstring :=
  or_else (pop (split slash pathname)) (lit "index.html").

Fixpoint endsWith (s suffix : jsstring) : bool :=
  str_eqb s suffix
  || match s with
     | [] => false
     | _ :: r => endsWith r suffix
     end.

Definition is_current (path href : jsstring) : bool :=
  endsWith href path
  || str_eqb path (lit "index.html")
     && (str_eqb href (lit "/") || str_eqb href (lit "/index.html")
         || str_eqb href (lit "#home")).

Definition mark_link (path : jsstring) (a : Link) : Link :=
  match href a with
  | Some (c :: r) =>
      if is_current path (c :: r) then
        {| href := href a; active := true;
           aria_current := Some (lit "page") |}
      else
        {| href := href a; active := false; aria_current := None |}
  | _ => a
  end.

Definition highlightCurrentNav (pathname : jsstring) (navLinks : list Link)
  : list Link :=
  match navLinks with
  | [] => []
  | _ :: _ => map (mark_link (current_path pathname)) navLinks
  end.

(** The class and the attribute of a link say the same. *)
Definition coherent (a : Link) : Prop :=
  (active a = true /\ aria_current a = Some (lit "page"))
  \/ (active a = false /\ aria_current a = None).

Definition has_href (a : Link) : bool :=
  match href a with
  | Some (_ :: _) => true
  | _ => false
  end.

End Nav.

(** * Proofs *)

(** ** The matcher decides the language of a pattern *)

Section MatcherCorrect.

Lemma nullable_sound r : nullable r = true -> matches r [].
Proof.
  induction r; simpl; intros H; try discriminate.
  - constructor.
  - apply andb_true_iff in H as [H1 H2].
    change (@nil code_unit) with (@nil code_unit ++ []). constructor; auto.
  - apply orb_true_iff in H as [H | H]; [apply MAltL | apply MAltR]; auto.
  - constructor.
  - change (@nil code_unit) with (@nil code_unit ++ []).
    apply MPlus; [auto | constructor].
Qed.

Lemma nullable_complete r s : matches r s -> s = [] -> nullable r = true.
Proof.
  induction 1; simpl; intros E; try discriminate; auto.
  - apply app_eq_nil in E as [E1 E2]. rewrite IHmatches1, IHmatches2; auto.
  - rewrite IHmatches; auto.
  - rewrite IHmatches, orb_true_r; auto.
  - apply app_eq_nil in E as [E1 E2]. auto.
Qed.

Lemma deriv_sound c r : forall s, matches (deriv c r) s -> matches r (c :: s).
Proof.
  induction r; simpl; intros s H.
  - inversion H.
  - inversion H.
  - destruct (N.eqb_spec c c0); inversion H; subst. constructor.
  - destruct (class_has cls c) eqn:E; inversion H; subst. constructor; auto.
  - inversion H as [ | | | | ? ? ? HL | ? ? ? HR | | | ]; subst.
    + inversion HL; subst.
      change (c :: s1 ++ s2) with ((c :: s1) ++ s2). constructor; auto.
    + destruct (nullable r1) eqn:E; [ | inversion HR].
      change (c :: s) with ([] ++ c :: s).
      constructor; auto using nullable_sound.
  - inversion H; subst; [apply MAltL | apply MAltR]; auto.
  - inversion H; subst.
    change (c :: s1 ++ s2) with ((c :: s1) ++ s2). apply MStarApp; auto.
  - inversion H; subst.
    change (c :: s1 ++ s2) with ((c :: s1) ++ s2). apply MPlus; auto.
Qed.

Lemma deriv_complete c r w :
  matches r w -> forall u, w = c :: u -> matches (deriv c r) u.
Proof.
  induction 1; intros u E; simpl; try discriminate.
  - injection E as -> <-. rewrite N.eqb_refl. constructor.
  - injection E as -> <-. rewrite H. constructor.
  - destruct s1 as [ | c1 s1]; simpl in E.
    + rewrite (nullable_complete H eq_refl). apply MAltR; auto.
    + injection E as -> <-. apply MAltL. constructor; auto.
  - apply MAltL; auto.
  - apply MAltR; auto.
  - destruct s1 as [ | c1 s1]; simpl in E.
    + apply (IHmatches2 u E).
    + injection E as -> <-. constructor; auto.
  - destruct s1 as [ | c1 s1]; simpl in E.
    + apply (IHmatches2 u E).
    + injection E as -> <-. constructor; auto.
Qed.

Lemma test_matches s : forall r, test r s = true <-> matches r s.
Proof.
  unfold test. induction s as [ | c s IH]; intros r; simpl.
  - split; [apply nullable_sound | ].
    intros H. apply (nullable_complete H eq_refl).
  - rewrite IH. split; [apply deriv_sound | ].
    intros H. apply (deriv_complete H eq_refl).
Qed.

End MatcherCorrect.

(** ** The language of the e-mail pattern *)

Section EmailPattern.

Lemma atom_class_spec c : class_has atom_class c = negb (is_atom c).
Proof.
  unfold class_has, atom_class, is_atom; simpl.
  destruct (is_space c), (c =? at_sign)%N; reflexivity.
Qed.

Lemma star_atoms_sound r s :
  matches r s -> r = RStar (RNotIn atom_class) -> forallb is_atom s = true.
Proof.
  induction 1; intros E; try discriminate; auto.
  injection E as ->. inversion H as [ | | ? ? Hc | | | | | | ]; subst. simpl.
  rewrite atom_class_spec in Hc. apply negb_false_iff in Hc.
  rewrite Hc. auto.
Qed.

Lemma star_atoms_complete s :
  forallb is_atom s = true -> matches (RStar (RNotIn atom_class)) s.
Proof.
  induction s as [ | c s IH]; simpl; intros H.
  - constructor.
  - apply andb_true_iff in H as [Hc Hs].
    change (c :: s) with ([c] ++ s). apply MStarApp; auto.
    constructor. rewrite atom_class_spec, Hc. reflexivity.
Qed.

Lemma plus_atoms s :
  matches (RPlus (RNotIn atom_class)) s <-> atoms s = true.
Proof.
  unfold atoms. split.
  - intros H. inversion H as [ | | | | | | | | ? ? ? H1 H2]; subst.
    inversion H1 as [ | | ? ? Hc | | | | | | ]; subst. simpl.
    rewrite atom_class_spec in Hc. apply negb_false_iff in Hc. rewrite Hc.
    apply (star_atoms_sound H2 eq_refl).
  - destruct s as [ | c s]; simpl; [discriminate | ].
    intros H. apply andb_true_iff in H as [Hc Hs].
    change (c :: s) with ([c] ++ s). constructor.
    + constructor. rewrite atom_class_spec, Hc. reflexivity.
    + apply star_atoms_complete; auto.
Qed.

(** A string matches the pattern exactly when it is a run, an at sign,
    a run, a full stop and a run. *)
Lemma email_pattern_shape s :
  matches email_pattern s <->
  exists l m t, s = l ++ at_sign :: m ++ full_stop :: t
                /\ atoms l = true /\ atoms m = true /\ atoms t = true.
Proof.
  unfold email_pattern. split.
  - intros H.
    inversion H as [ | | | ? ? l r1 Hl H1 | | | | | ]; subst.
    inversion H1 as [ | | | ? ? a r2 Ha H2 | | | | | ]; subst.
    inversion H2 as [ | | | ? ? m r3 Hm H3 | | | | | ]; subst.
    inversion H3 as [ | | | ? ? b t Hb Ht | | | | | ]; subst.
    inversion Ha; subst. inversion Hb; subst.
    exists l, m, t. rewrite <- !plus_atoms. auto.
  - intros (l & m & t & -> & Hl & Hm & Ht).
    apply plus_atoms in Hl, Hm, Ht.
    constructor; auto.
    change (at_sign :: m ++ full_stop :: t)
      with ([at_sign] ++ m ++ [full_stop] ++ t).
    repeat constructor; auto.
Qed.

End EmailPattern.

(** ** The pattern against the wording *)

Section EmailWording.

Lemma no_space_app a b : no_space (a ++ b) = no_space a && no_space b.
Proof. apply forallb_app. Qed.

Lemma atoms_no_space s : forallb is_atom s = true -> no_space s = true.
Proof.
  induction s as [ | c s IH]; simpl; auto.
  unfold is_atom at 1. intros H.
  apply andb_true_iff in H as [Hc Hs]. apply andb_true_iff in Hc as [Hc _].
  rewrite Hc. auto.
Qed.

Lemma atoms_no_at s : forallb is_atom s = true -> count_at s = 0.
Proof.
  unfold count_at. induction s as [ | c s IH]; simpl; auto.
  unfold is_atom at 1. intros H.
  apply andb_true_iff in H as [Hc Hs]. apply andb_true_iff in Hc as [_ Hc].
  apply negb_true_iff, N.eqb_neq in Hc.
  destruct (N.eq_dec c at_sign); [contradiction | auto].
Qed.

Lemma clean_atoms s :
  no_space s = true -> count_at s = 0 -> forallb is_atom s = true.
Proof.
  unfold count_at. induction s as [ | c s IH]; simpl; auto.
  intros H. apply andb_true_iff in H as [Hc Hs].
  destruct (N.eq_dec c at_sign) as [E | E]; [discriminate | ].
  intros Hn. unfold is_atom at 1. rewrite Hc.
  apply N.eqb_neq in E. rewrite E. simpl. auto.
Qed.

Lemma local_part_app l r :
  count_at l = 0 -> local_part (l ++ at_sign :: r) = l.
Proof.
  unfold count_at. induction l as [ | c l IH]; simpl.
  - reflexivity.
  - destruct (N.eq_dec c at_sign) as [E | E]; [discriminate | ].
    apply N.eqb_neq in E. rewrite E. intros H. rewrite IH; auto.
Qed.

Lemma domain_part_app l r :
  count_at l = 0 -> domain_part (l ++ at_sign :: r) = r.
Proof.
  unfold count_at. induction l as [ | c l IH]; simpl.
  - reflexivity.
  - destruct (N.eq_dec c at_sign) as [E | E]; [discriminate | ].
    apply N.eqb_neq in E. rewrite E. auto.
Qed.

Lemma count_at_app a b : count_at (a ++ b) = count_at a + count_at b.
Proof. apply count_occ_app. Qed.

Lemma count_at_local s : count_at (local_part s) = 0.
Proof.
  unfold count_at. induction s as [ | c s IH]; simpl; auto.
  destruct (N.eqb_spec c at_sign) as [E | E]; simpl; auto.
  destruct (N.eq_dec c at_sign); [contradiction | auto].
Qed.

Lemma split_at s :
  count_at s <> 0 -> s = local_part s ++ at_sign :: domain_part s.
Proof.
  unfold count_at. induction s as [ | c s IH]; simpl.
  - intros H. contradiction.
  - destruct (N.eq_dec c at_sign) as [E | E].
    + subst c. rewrite N.eqb_refl. reflexivity.
    + intros H. apply N.eqb_neq in E. rewrite E. simpl. f_equal. auto.
Qed.

Lemma dot_inside_from_app a t :
  truthy t = true -> dot_inside_from (a ++ full_stop :: t) = true.
Proof.
  intros Ht. induction a as [ | c a IH]; simpl.
  - rewrite Ht. reflexivity.
  - rewrite IH. apply orb_true_r.
Qed.

Lemma dot_inside_from_split r :
  dot_inside_from r = true ->
  exists a t, r = a ++ full_stop :: t /\ truthy t = true.
Proof.
  induction r as [ | c r IH]; simpl; [discriminate | ].
  intros H. apply orb_true_iff in H as [H | H].
  - apply andb_true_iff in H as [Hc Ht]. apply N.eqb_eq in Hc. subst c.
    exists [], r. auto.
  - destruct (IH H) as (a & t & -> & Ht). exists (c :: a), t. auto.
Qed.

Lemma shape_amended s :
  (exists l m t, s = l ++ at_sign :: m ++ full_stop :: t
                 /\ atoms l = true /\ atoms m = true /\ atoms t = true)
  <-> isEmailValid_amended s = true.
Proof.
  unfold isEmailValid_amended, atoms. split.
  - intros (l & m & t & -> & Hl & Hm & Ht).
    apply andb_true_iff in Hl as [Hl1 Hl2].
    apply andb_true_iff in Hm as [Hm1 Hm2].
    apply andb_true_iff in Ht as [Ht1 Ht2].
    assert (Hd : count_at (m ++ full_stop :: t) = 0).
    { rewrite count_at_app. rewrite (atoms_no_at _ Hm2).
      change (full_stop :: t) with ([full_stop] ++ t).
      rewrite count_at_app, (atoms_no_at _ Ht2). reflexivity. }
    rewrite local_part_app, domain_part_app by (apply atoms_no_at; auto).
    rewrite Hl1.
    assert (Hsp : no_space (l ++ at_sign :: m ++ full_stop :: t) = true).
    { change (at_sign :: m ++ full_stop :: t)
        with ([at_sign] ++ m ++ [full_stop] ++ t).
      rewrite !no_space_app.
      rewrite (atoms_no_space _ Hl2), (atoms_no_space _ Hm2),
        (atoms_no_space _ Ht2).
      reflexivity. }
    assert (Hc : count_at (l ++ at_sign :: m ++ full_stop :: t) = 1).
    { rewrite count_at_app, (atoms_no_at _ Hl2).
      change (at_sign :: m ++ full_stop :: t)
        with ([at_sign] ++ (m ++ full_stop :: t)).
      rewrite count_at_app, Hd. reflexivity. }
    rewrite Hsp, Hc. simpl.
    destruct m as [ | c m]; [discriminate | ]. simpl.
    apply dot_inside_from_app; auto.
  - intros H. apply andb_true_iff in H as [H Hdot].
    apply andb_true_iff in H as [H Hloc].
    apply andb_true_iff in H as [Hsp Hcnt].
    apply Nat.eqb_eq in Hcnt.
    assert (Hs : s = local_part s ++ at_sign :: domain_part s).
    { apply split_at. rewrite Hcnt. discriminate. }
    assert (Hd : count_at (domain_part s) = 0).
    { rewrite Hs in Hcnt at 1.
      change (at_sign :: domain_part s) with ([at_sign] ++ domain_part s)
        in Hcnt.
      rewrite !count_at_app, count_at_local in Hcnt. simpl in Hcnt.
      unfold count_at in Hcnt |- *. simpl in Hcnt. lia. }
    rewrite Hs in Hsp.
    change (at_sign :: domain_part s) with ([at_sign] ++ domain_part s) in Hsp.
    rewrite !no_space_app in Hsp.
    apply andb_true_iff in Hsp as [Hsl Hsd].
    apply andb_true_iff in Hsd as [_ Hsd].
    destruct (domain_part s) as [ | c r] eqn:Ed; [discriminate | ].
    simpl in Hdot. destruct (dot_inside_from_split _ Hdot) as (a & t & -> & Ht).
    change (c :: a ++ full_stop :: t) with ((c :: a) ++ [full_stop] ++ t)
      in Hd, Hsd.
    rewrite !count_at_app in Hd. rewrite !no_space_app in Hsd.
    apply andb_true_iff in Hsd as [Hsm Hst].
    apply andb_true_iff in Hst as [_ Hst].
    exists (local_part s), (c :: a), t. repeat split.
    + exact Hs.
    + rewrite Hloc. apply clean_atoms; auto using count_at_local.
    + apply clean_atoms; auto. lia.
    + rewrite Ht. apply clean_atoms; auto. lia.
Qed.

Lemma test_amended s : test email_pattern s = isEmailValid_amended s.
Proof.
  apply eq_true_iff_eq.
  rewrite test_matches, email_pattern_shape. apply shape_amended.
Qed.

End EmailWording.

(** ** Letter case does not matter to the pattern *)

Section LowerCase.

Ltac decide_cmp :=
  repeat match goal with
         | |- context [(?a <=? ?b)%N] =>
             first [ replace (a <=? b)%N with true
                       by (symmetry; apply N.leb_le; lia)
                   | replace (a <=? b)%N with false
                       by (symmetry; apply N.leb_gt; lia) ]
         | |- context [(?a =? ?b)%N] =>
             first [ replace (a =? b)%N with true
                       by (symmetry; apply N.eqb_eq; lia)
                   | replace (a =? b)%N with false
                       by (symmetry; apply N.eqb_neq; lia) ]
         end.

Lemma lower_unit_cases c :
  lower_unit c = c
  \/ ((65 <= c <= 90)%N /\ lower_unit c = (c + 32)%N).
Proof.
  unfold lower_unit.
  destruct (N.leb_spec 65 c); destruct (N.leb_spec c 90); simpl; auto.
Qed.

Lemma is_space_lower c : is_space (lower_unit c) = is_space c.
Proof.
  destruct (lower_unit_cases c) as [-> | [Hc ->]]; [reflexivity | ].
  unfold is_space. decide_cmp. reflexivity.
Qed.

Lemma at_sign_lower c : (lower_unit c =? at_sign)%N = (c =? at_sign)%N.
Proof.
  destruct (lower_unit_cases c) as [-> | [Hc ->]]; [reflexivity | ].
  unfold at_sign. decide_cmp. reflexivity.
Qed.

Lemma full_stop_lower c : (lower_unit c =? full_stop)%N = (c =? full_stop)%N.
Proof.
  destruct (lower_unit_cases c) as [-> | [Hc ->]]; [reflexivity | ].
  unfold full_stop. decide_cmp. reflexivity.
Qed.

Lemma no_space_lower s : no_space (toLowerCase s) = no_space s.
Proof.
  unfold no_space, toLowerCase.
  induction s as [ | c s IH]; simpl; auto.
  rewrite is_space_lower, IH. reflexivity.
Qed.

Lemma count_at_lower s : count_at (toLowerCase s) = count_at s.
Proof.
  unfold count_at, toLowerCase.
  induction s as [ | c s IH]; simpl; auto.
  pose proof (at_sign_lower c) as E.
  destruct (N.eq_dec (lower_unit c) at_sign) as [E1 | E1];
    destruct (N.eq_dec c at_sign) as [E2 | E2]; auto.
  - apply N.eqb_eq in E1. apply N.eqb_neq in E2. congruence.
  - apply N.eqb_neq in E1. apply N.eqb_eq in E2. congruence.
Qed.

Lemma local_part_lower s :
  local_part (toLowerCase s) = toLowerCase (local_part s).
Proof.
  unfold toLowerCase. induction s as [ | c s IH]; simpl; auto.
  rewrite at_sign_lower. destruct (c =? at_sign)%N; simpl; congruence.
Qed.

Lemma domain_part_lower s :
  domain_part (toLowerCase s) = toLowerCase (domain_part s).
Proof.
  unfold toLowerCase. induction s as [ | c s IH]; simpl; auto.
  rewrite at_sign_lower. destruct (c =? at_sign)%N; simpl; congruence.
Qed.

Lemma truthy_lower s : truthy (toLowerCase s) = truthy s.
Proof. destruct s; reflexivity. Qed.

Lemma dot_inside_lower s : dot_inside (toLowerCase s) = dot_inside s.
Proof.
  destruct s as [ | c0 s]; simpl; auto.
  induction s as [ | c s IH]; simpl; auto.
  rewrite full_stop_lower. fold (toLowerCase s).
  rewrite truthy_lower. f_equal. exact IH.
Qed.

Lemma amended_lower s :
  isEmailValid_amended (toLowerCase s) = isEmailValid_amended s.
Proof.
  unfold isEmailValid_amended.
  rewrite no_space_lower, count_at_lower, local_part_lower,
    domain_part_lower, truthy_lower, dot_inside_lower.
  reflexivity.
Qed.

End LowerCase.

(** ** Validity is a matter of shape *)

Section Shape.

Lemma kind_of_cases c :
  (is_space c = true /\ (c =? at_sign)%N = false
   /\ (c =? full_stop)%N = false /\ kind_of c = KSpace)
  \/ (is_space c = false /\ (c =? at_sign)%N = true
      /\ (c =? full_stop)%N = false /\ kind_of c = KAt)
  \/ (is_space c = false /\ (c =? at_sign)%N = false
      /\ (c =? full_stop)%N = true /\ kind_of c = KDot)
  \/ (is_space c = false /\ (c =? at_sign)%N = false
      /\ (c =? full_stop)%N = false /\ kind_of c = KOther).
Proof.
  unfold kind_of.
  destruct (N.eqb_spec c at_sign) as [-> | Ha].
  - right. left. repeat split.
  - destruct (N.eqb_spec c full_stop) as [-> | Hd].
    + right. right. left. repeat split.
    + destruct (is_space c); [left | right; right; right]; repeat split.
Qed.

Ltac by_kind c :=
  destruct (kind_of_cases c)
    as [(Hs & Ha & Hd & Hk) | [(Hs & Ha & Hd & Hk) | [(Hs & Ha & Hd & Hk)
       | (Hs & Ha & Hd & Hk)]]];
  rewrite ?Hs, ?Ha, ?Hd, ?Hk.

Lemma shape_cons c r :
  shape (c :: r) = kind_of c :: shape r
  \/ (kind_of c = KOther /\ shape (c :: r) = shape r
      /\ exists t, shape r = KOther :: t).
Proof.
  simpl. destruct (kind_of c); auto.
  destruct (shape r) as [ | [ | | | ] t]; auto.
  right. repeat split. exists t. reflexivity.
Qed.

Lemma shape_truthy s :
  negb (Nat.eqb (List.length (shape s)) 0) = truthy s.
Proof.
  destruct s as [ | c r]; [reflexivity | ].
  destruct (shape_cons c r) as [-> | (_ & -> & t & ->)]; reflexivity.
Qed.

Lemma shape_no_space s :
  no_space s = forallb (fun k => negb (is_kspace k)) (shape s).
Proof.
  induction s as [ | c r IH]; [reflexivity | ].
  change (no_space (c :: r)) with (negb (is_space c) && no_space r).
  destruct (shape_cons c r) as [-> | (Hk' & -> & _)].
  - simpl. rewrite IH. by_kind c; reflexivity.
  - rewrite IH. by_kind c; try congruence; reflexivity.
Qed.

Lemma shape_count_at s :
  count_at s = List.length (filter is_kat (shape s)).
Proof.
  unfold count_at. induction s as [ | c r IH]; [reflexivity | ].
  assert (E : count_occ N.eq_dec (c :: r) at_sign
              = (if (c =? at_sign)%N then 1 else 0)
                + count_occ N.eq_dec r at_sign).
  { simpl. destruct (N.eq_dec c at_sign) as [-> | Hn].
    - reflexivity.
    - apply N.eqb_neq in Hn. rewrite Hn. reflexivity. }
  rewrite E, IH.
  destruct (shape_cons c r) as [-> | (Hk' & -> & _)].
  - simpl. by_kind c; reflexivity.
  - by_kind c; try congruence; reflexivity.
Qed.

Lemma shape_local s :
  truthy (local_part s)
  = match shape s with [] => false | k :: _ => negb (is_kat k) end.
Proof.
  destruct s as [ | c r]; [reflexivity | ]. simpl local_part.
  destruct (shape_cons c r) as [-> | (Hk' & -> & t & ->)].
  - by_kind c; reflexivity.
  - by_kind c; try congruence; reflexivity.
Qed.

Lemma shape_domain s : shape (domain_part s) = kdomain (shape s).
Proof.
  induction s as [ | c r IH]; [reflexivity | ]. simpl domain_part.
  destruct (shape_cons c r) as [-> | (Hk' & -> & t & E)].
  - simpl. by_kind c; simpl; auto.
  - by_kind c; try congruence; exact IH.
Qed.

Lemma shape_dot_from r : dot_inside_from r = kdot_from (shape r).
Proof.
  induction r as [ | c r IH]; [reflexivity | ].
  change (dot_inside_from (c :: r))
    with ((c =? full_stop)%N && truthy r || dot_inside_from r).
  destruct (shape_cons c r) as [-> | (Hk' & -> & _)].
  - simpl. rewrite shape_truthy, IH. by_kind c; reflexivity.
  - rewrite IH. by_kind c; try congruence; reflexivity.
Qed.

Lemma shape_dot_inside d :
  dot_inside d = match shape d with [] => false | _ :: t => kdot_from t end.
Proof.
  destruct d as [ | c r]; [reflexivity | ]. simpl dot_inside.
  rewrite shape_dot_from.
  destruct (shape_cons c r) as [-> | (_ & -> & t & ->)]; reflexivity.
Qed.

Lemma amended_shape s : isEmailValid_amended s = valid_shape (shape s).
Proof.
  unfold isEmailValid_amended, valid_shape.
  rewrite shape_no_space, shape_count_at, shape_local, shape_dot_inside,
    shape_domain.
  reflexivity.
Qed.

Lemma isEmailValid_is_amended s : isEmailValid s = isEmailValid_amended s.
Proof. unfold isEmailValid. rewrite test_amended. apply amended_lower. Qed.

(** Any lower-casing that keeps the shape of a string can stand in
    for [toLowerCase]: the answer of [isEmailValid] is the same. *)
Lemma isEmailValid_any_lower (lower : jsstring -> jsstring) :
  (forall s, shape (lower s) = shape s) ->
  forall s, test email_pattern (lower s) = isEmailValid s.
Proof.
  intros H s.
  rewrite test_amended, isEmailValid_is_amended, !amended_shape, H.
  reflexivity.
Qed.

Lemma shape_toLowerCase s : shape (toLowerCase s) = shape s.
Proof.
  assert (K : forall c, kind_of (lower_unit c) = kind_of c).
  { intros c. unfold kind_of.
    rewrite is_space_lower, at_sign_lower, full_stop_lower. reflexivity. }
  unfold toLowerCase. induction s as [ | c r IH]; [reflexivity | ].
  simpl. rewrite K, IH. reflexivity.
Qed.

End Shape.

(** ** C5: isEmailValid *)

(** C5, as the code has it.  For every string, [isEmailValid] holds
    exactly when the string has no white space, has exactly one at
    sign with a non-empty local part before it, and its domain part
    has a full stop with at least one character before it and at least
    one after it; letter case plays no part.  In particular "a@b.co"
    is valid and "foo", "foo@", "foo@bar" and "a b@c.com" are not. *)
Theorem isEmailValid_characterised :
  (forall s, isEmailValid s = isEmailValid_amended s)
  /\ (forall s, isEmailValid (toLowerCase s) = isEmailValid s)
  /\ isEmailValid (lit "a@b.co") = true
  /\ isEmailValid (lit "foo") = false
  /\ isEmailValid (lit "foo@") = false
  /\ isEmailValid (lit "foo@bar") = false
  /\ isEmailValid (lit "a b@c.com") = false.
Proof.
  pose proof isEmailValid_is_amended as H.
  split; [exact H | ].
  split; [intros s; rewrite !H; apply amended_lower | ].
  repeat split; reflexivity.
Qed.

(** C5 as worded fails at "a@.co": one at sign, a local part, no white
    space and a full stop followed by "co", yet the pattern wants a
    character between the at sign and the full stop. *)
Lemma isEmailValid_wording_counterexample :
  isEmailValid_as_specified (lit "a@.co") = true
  /\ isEmailValid (lit "a@.co") = false.
Proof. split; reflexivity. Qed.

(** ** C1: which strategy a handler starts *)

Section Selection.

Variable cfg : Config.
Variable emailjs : bool.

Lemma contact_branches payload :
  (if truthy (EMAILJS_SERVICE_ID cfg) && emailjs then
     ret (AwaitSend (EMAILJS_SERVICE_ID cfg) (EMAILJS_TEMPLATE_ID cfg)
            (ContactParams payload) (EMAILJS_PUBLIC_KEY cfg)
            contact_emailjs_settled)
   else if truthy (FORMSPREE_ENDPOINT cfg) then
     ret (AwaitFetch (FORMSPREE_ENDPOINT cfg)
            {| method := lit "POST";
               headers := [(lit "Accept", lit "application/json");
                           (lit "Content-Type", lit "application/json")];
               body_json := ContactParams payload |}
            contact_formspree_settled)
   else ret (SetTimeout 800 contact_demo_fired))
  = ret (contact_send cfg (select_by_service_id cfg emailjs) payload).
Proof.
  unfold select_by_service_id, contact_send.
  destruct (truthy (EMAILJS_SERVICE_ID cfg) && emailjs);
    [ | destruct (truthy (FORMSPREE_ENDPOINT cfg))]; reflexivity.
Qed.

Lemma contact_onsubmit_selects d :
  contact_onsubmit cfg emailjs d
  = contact_controller cfg (select_by_service_id cfg emailjs) d.
Proof.
  unfold contact_onsubmit, contact_controller, bind.
  destruct (toggleAlert ContactSuccess false [] d) as [[] d1 | ]; auto.
  destruct (toggleAlert ContactError false [] d1) as [[] d2 | ]; auto.
  destruct (contact_validate d2) as [[ | ] d3 | ]; simpl; auto.
  destruct (contact_payload d3) as [payload d4 | ]; auto.
  rewrite contact_branches. reflexivity.
Qed.

Lemma newsletter_onsubmit_selects d :
  newsletter_departs cfg emailjs = false ->
  newsletter_onsubmit cfg emailjs d
  = newsletter_controller cfg (select_by_service_id cfg emailjs) d.
Proof.
  unfold newsletter_departs, newsletter_onsubmit, newsletter_controller, bind.
  intros H. simpl.
  destruct (newsletter_email d) as [el | ]; auto.
  destruct (isEmailValid (trim (value el))); simpl; auto.
  unfold select_by_service_id, newsletter_send.
  destruct (truthy (EMAILJS_SERVICE_ID cfg)), emailjs,
    (truthy (FORMSPREE_ENDPOINT cfg)); simpl in *;
    try discriminate; reflexivity.
Qed.

End Selection.

(** C1, as the code has it.  On every submit of the contact form the
    handler is the controller run with the strategy chosen by this
    precedence: MailRelayStrategy if the service id is non-empty and
    the mail client is present, otherwise FormRelayStrategy if the
    endpoint is non-empty, otherwise DemoStrategy; the choice is a
    total function, so exactly one strategy is started for a valid
    payload.  The newsletter handler is the newsletter controller run
    with the same choice in every configuration but those with a
    service id in which the mail client and the endpoint are both
    present or both absent. *)
Theorem strategy_selection (cfg : Config) (emailjs : bool) (d : Dom) :
  contact_onsubmit cfg emailjs d
  = contact_controller cfg (select_by_service_id cfg emailjs) d
  /\ (newsletter_departs cfg emailjs = false ->
      newsletter_onsubmit cfg emailjs d
      = newsletter_controller cfg (select_by_service_id cfg emailjs) d).
Proof.
  split.
  - apply contact_onsubmit_selects.
  - apply newsletter_onsubmit_selects.
Qed.

Lemma strategy_selection_witness :
  newsletter_departs cfg_endpoint false = false
  /\ newsletter_onsubmit cfg_endpoint false sample_dom
     = newsletter_controller cfg_endpoint
         (select_by_service_id cfg_endpoint false) sample_dom.
Proof.
  split.
  - reflexivity.
  - apply (proj2 (strategy_selection cfg_endpoint false sample_dom)).
    reflexivity.
Defined.

(** C1 as worded fails.  With a service id but no template id and no
    public key the mail relay is not configured in the words of the
    specification, which then selects the demo strategy; the contact
    handler calls the mail client.  With a service id and no mail
    client the newsletter handler starts nothing at all, and with both
    back ends present it posts to the endpoint. *)
Lemma strategy_selection_counterexample :
  select_as_specified cfg_service_only true = DemoStrategy
  /\ contact_onsubmit cfg_service_only true sample_dom
     = contact_controller cfg_service_only MailRelayStrategy sample_dom
  /\ contact_onsubmit cfg_service_only true sample_dom
     <> contact_controller cfg_service_only
          (select_as_specified cfg_service_only true) sample_dom
  /\ newsletter_onsubmit cfg_service_only false sample_dom
     = Normal Finished sample_dom
  /\ select_as_specified cfg_both true = MailRelayStrategy
  /\ newsletter_onsubmit cfg_both true sample_dom
     = newsletter_controller cfg_both FormRelayStrategy sample_dom.
Proof.
  repeat split; try reflexivity.
  intros H. vm_compute in H. discriminate H.
Qed.

(** ** Frames: what the helpers leave alone *)

Section Frames.

Context {X : Type} (part : Dom -> X).

Lemma keeps_ret A (a : A) : keeps part (ret a).
Proof. intros d. reflexivity. Qed.

Lemma keeps_throw A e : keeps part (@throw A e).
Proof. intros d. reflexivity. Qed.

Lemma keeps_get : keeps part get.
Proof. intros d. reflexivity. Qed.

Lemma keeps_modify f :
  (forall d, part (f d) = part d) -> keeps part (modify f).
Proof. intros H d. apply H. Qed.

Lemma keeps_bind A B (m : Act A) (k : A -> Act B) :
  keeps part m -> (forall a, keeps part (k a)) -> keeps part (bind m k).
Proof.
  intros Hm Hk d. unfold bind. specialize (Hm d).
  destruct (m d) as [a d1 | e d1]; simpl in *.
  - rewrite Hk. exact Hm.
  - exact Hm.
Qed.

Lemma keeps_try_catch A (m : Act A) h :
  keeps part m -> (forall e, keeps part (h e)) -> keeps part (try_catch m h).
Proof.
  intros Hm Hh d. unfold try_catch. specialize (Hm d).
  destruct (m d) as [a d1 | e d1]; simpl in *.
  - exact Hm.
  - rewrite Hh. exact Hm.
Qed.

Lemma keeps_try_finally A (m : Act A) f :
  keeps part m -> keeps part f -> keeps part (try_finally m f).
Proof.
  intros Hm Hf d. unfold try_finally. specialize (Hm d).
  destruct (m d) as [a d1 | e d1]; simpl in *;
    specialize (Hf d1); destruct (f d1); simpl in *; congruence.
Qed.

Lemma keeps_if A (b : bool) (m1 m2 : Act A) :
  keeps part m1 -> keeps part m2 -> keeps part (if b then m1 else m2).
Proof. destruct b; auto. Qed.

End Frames.

Create HintDb frames.

#[export] Hint Resolve keeps_ret keeps_throw keeps_get keeps_bind
  keeps_try_catch keeps_try_finally keeps_if : frames.

Ltac frame_modify :=
  apply keeps_modify; intros d;
  repeat match goal with
         | |- context [match ?x with _ => _ end] => destruct x
         end;
  reflexivity.

Section HelperFrames.

Lemma newsletter_reset_busy : keeps busy_of newsletter_reset.
Proof. unfold newsletter_reset. frame_modify. Qed.

Lemma newsletter_reset_alerts : keeps alerts_of newsletter_reset.
Proof. unfold newsletter_reset. frame_modify. Qed.

Lemma say_busy message r : keeps busy_of (say message r).
Proof. unfold say. frame_modify. Qed.

Lemma say_alerts message r : keeps alerts_of (say message r).
Proof. unfold say. frame_modify. Qed.

Lemma await_send_keeps X (part : Dom -> X) r : keeps part (await_send r).
Proof. destruct r; intros d; reflexivity. Qed.

Lemma await_fetch_keeps X (part : Dom -> X) r : keeps part (await_fetch r).
Proof. destruct r; intros d; reflexivity. Qed.

End HelperFrames.

#[export] Hint Resolve newsletter_reset_busy newsletter_reset_alerts
  say_busy say_alerts await_send_keeps await_fetch_keeps : frames.

(** ** The synchronous part of the contact handler, evaluated *)

Section ContactEval.

Lemma toggleAlert_hide id message d :
  toggleAlert id false message d
  = Normal tt (set_alert id (hide (getAlert id d)) d).
Proof.
  unfold toggleAlert, bind, get, modify.
  destruct d, id; simpl; match goal with
                         | |- context [match ?a with _ => _ end] => destruct a
                         end; reflexivity.
Qed.

Lemma check_eval f good d :
  check f good d
  = Normal (passes good (querySelector f d))
           (set_input f (checked good (querySelector f d)) d).
Proof.
  unfold check, bind, get, modify, ret, passes, checked.
  destruct (querySelector f d) as [el | ] eqn:E; simpl.
  - destruct (good (trim (value el))); reflexivity.
  - destruct d, f; simpl in *; rewrite E; reflexivity.
Qed.

Lemma contact_validate_eval d :
  contact_validate d = Normal (valid_of d) (validated d).
Proof.
  unfold contact_validate, bind. rewrite !check_eval.
  destruct d; reflexivity.
Qed.

Lemma announce_required_eval d :
  announce_required d = Normal tt (announced d).
Proof.
  unfold announce_required, modify, announced.
  destruct d as [? ? ? ? ? ? ? ? ? ? ? [el | ] ? ?]; reflexivity.
Qed.

Lemma contact_payload_eval d :
  valid_of d = true ->
  contact_payload (validated d) = Normal (payload_of d) (validated d).
Proof.
  unfold valid_of, passes. intros H.
  apply andb_true_iff in H as [H Hm]. apply andb_true_iff in H as [H Hs].
  apply andb_true_iff in H as [Hn He].
  destruct d as [? ? ? [n | ] [e | ] p c [s | ] [m | ] r ? ? ? ?];
    simpl in *; try discriminate.
  destruct p, c, r; reflexivity.
Qed.

Variable cfg : Config.
Variable emailjs : bool.

Lemma contact_controller_eval s d :
  contact_controller cfg s d
  = if valid_of d then
      Normal (contact_send cfg s (payload_of d)) (busied (validated (hidden d)))
    else Normal Finished (announced (validated (hidden d))).
Proof.
  unfold contact_controller, bind.
  rewrite toggleAlert_hide. cbv beta iota.
  rewrite toggleAlert_hide. cbv beta iota.
  set (d1 := set_alert ContactSuccess (hide (getAlert ContactSuccess d)) d).
  replace (set_alert ContactError (hide (getAlert ContactError d1)) d1)
    with (hidden d) by (destruct d; reflexivity).
  clear d1.
  rewrite contact_validate_eval. cbv beta iota.
  replace (valid_of (hidden d)) with (valid_of d) by (destruct d; reflexivity).
  destruct (valid_of d) eqn:V; unfold negb; cbv beta iota.
  - rewrite contact_payload_eval by (destruct d; exact V).
    cbv beta iota.
    replace (payload_of (hidden d)) with (payload_of d)
      by (destruct d; reflexivity).
    reflexivity.
  - rewrite announce_required_eval. reflexivity.
Qed.

Lemma contact_onsubmit_eval d :
  contact_onsubmit cfg emailjs d
  = if valid_of d then
      Normal (contact_send cfg (select_by_service_id cfg emailjs)
                (payload_of d))
             (busied (validated (hidden d)))
    else Normal Finished (announced (validated (hidden d))).
Proof.
  rewrite contact_onsubmit_selects. apply contact_controller_eval.
Qed.

End ContactEval.

(** ** The continuations of the contact handler, evaluated *)

Section ContactSettled.

Lemma toggleAlert_show_plain id d :
  toggleAlert id true [] d
  = Normal tt (set_alert id (option_map shown_plain (getAlert id d)) d).
Proof.
  unfold toggleAlert, bind, get, modify, ret. simpl.
  destruct (getAlert id d) as [el | ] eqn:E; simpl.
  - destruct d, id; reflexivity.
  - destruct d, id; simpl in *; rewrite E; reflexivity.
Qed.

Lemma toggleAlert_show_message id message d :
  truthy message = true ->
  toggleAlert id true message d
  = match getAlert id d with
    | None => Normal tt d
    | Some el =>
        if writable el then
          Normal tt (set_alert id (Some (shown message el)) d)
        else Throw TypeError (set_alert id (Some (unhidden el)) d)
    end.
Proof.
  intros T.
  unfold toggleAlert, bind, get, modify, ret, throw, writable, shown,
    unhidden. rewrite T. cbv beta iota.
  destruct (getAlert id d) as [el | ] eqn:E; [ | reflexivity].
  destruct (body el) as [t | l [n | ]] eqn:B; simpl;
    destruct d, id; simpl; rewrite ?B; reflexivity.
Qed.

Lemma succeed_eval d :
  (toggleAlert ContactSuccess true [] ;; form_reset ;; showSpinner false) d
  = succeed d.
Proof.
  unfold bind. rewrite toggleAlert_show_plain. reflexivity.
Qed.

Lemma contact_demo_fired_eval d : contact_demo_fired d = succeed d.
Proof. apply succeed_eval. Qed.

Lemma show_error_eval message d :
  truthy message = true ->
  try_finally (toggleAlert ContactError true message) (showSpinner false) d
  = fail_with message d.
Proof.
  intros T. unfold try_finally, fail_with.
  rewrite toggleAlert_show_message by exact T. simpl.
  destruct (contact_error d) as [el | ]; [ | reflexivity].
  destruct (writable el); reflexivity.
Qed.

Lemma contact_emailjs_settled_eval r d :
  contact_emailjs_settled r d
  = match r with
    | SendResolves => succeed d
    | SendRejects _ => fail_with msg_contact_emailjs d
    end.
Proof.
  unfold contact_emailjs_settled. destruct r as [ | reason].
  - unfold try_finally, try_catch, await_send, bind, ret.
    rewrite toggleAlert_show_plain. reflexivity.
  - rewrite <- show_error_eval by reflexivity.
    unfold try_finally, try_catch, await_send, bind, throw. reflexivity.
Qed.

Lemma show_error_twice m1 m2 d :
  truthy m1 = true -> truthy m2 = true ->
  try_finally
    (try_catch (toggleAlert ContactError true m1)
               (fun _ => toggleAlert ContactError true m2))
    (showSpinner false) d
  = fail_with m1 d.
Proof.
  intros T1 T2. unfold try_finally, try_catch, fail_with.
  rewrite toggleAlert_show_message by exact T1. simpl.
  destruct (contact_error d) as [el | ] eqn:E; [ | reflexivity].
  destruct (writable el) eqn:W; [reflexivity | ].
  rewrite toggleAlert_show_message by exact T2.
  destruct d; simpl in *. unfold unhidden, writable in *. simpl.
  rewrite W. reflexivity.
Qed.

Lemma contact_formspree_settled_eval r d :
  contact_formspree_settled r d
  = match r with
    | Responds status =>
        if ok status then succeed d else fail_with msg_contact_failed d
    | FetchThrows _ => fail_with msg_contact_network d
    end.
Proof.
  unfold contact_formspree_settled. destruct r as [status | reason].
  - destruct (ok status) eqn:O.
    + unfold try_finally, try_catch, await_fetch, bind, ret. rewrite O.
      rewrite toggleAlert_show_plain. reflexivity.
    + rewrite <- (@show_error_twice msg_contact_failed msg_contact_network d)
        by reflexivity.
      unfold try_finally, try_catch, await_fetch, bind, ret. rewrite O.
      reflexivity.
  - rewrite <- show_error_eval by reflexivity.
    unfold try_finally, try_catch, await_fetch, bind, throw. reflexivity.
Qed.

End ContactSettled.

(** ** The newsletter handler, evaluated *)

Section NewsletterEval.

Lemma newsletter_formspree_settled_eval r d :
  newsletter_formspree_settled r d
  = Normal tt
      match r with
      | Responds status =>
          if ok status then reset_newsletter (said msg_newsletter_ok false d)
          else said msg_newsletter_failed_later false d
      | FetchThrows _ => said msg_newsletter_network false d
      end.
Proof.
  unfold newsletter_formspree_settled, try_catch, bind.
  destruct r as [status | reason]; simpl; [ | reflexivity].
  destruct (ok status); reflexivity.
Qed.

Lemma newsletter_emailjs_settled_eval r d :
  newsletter_emailjs_settled r d
  = Normal tt
      match r with
      | SendResolves => reset_newsletter (said msg_newsletter_ok false d)
      | SendRejects _ => said msg_newsletter_failed false d
      end.
Proof.
  unfold newsletter_emailjs_settled, try_catch, bind.
  destruct r as [ | reason]; reflexivity.
Qed.

Variable cfg : Config.
Variable emailjs : bool.

Lemma newsletter_onsubmit_eval d :
  newsletter_onsubmit cfg emailjs d
  = match newsletter_email d with
    | None => Normal Finished d
    | Some el =>
        if isEmailValid (trim (value el)) then
          if negb (truthy (EMAILJS_SERVICE_ID cfg))
             && negb (truthy (FORMSPREE_ENDPOINT cfg)) then
            Normal Finished
              (reset_newsletter (said msg_newsletter_demo false d))
          else if truthy (FORMSPREE_ENDPOINT cfg) then
            Normal (AwaitFetch (FORMSPREE_ENDPOINT cfg)
                      {| method := lit "POST";
                         headers := [(lit "Accept", lit "application/json")];
                         body_json := NewsletterParams (trim (value el)) |}
                      newsletter_formspree_settled) d
          else if truthy (EMAILJS_SERVICE_ID cfg) && emailjs then
            Normal (AwaitSend (EMAILJS_SERVICE_ID cfg)
                      (EMAILJS_TEMPLATE_ID cfg)
                      (NewsletterParams (trim (value el)))
                      (EMAILJS_PUBLIC_KEY cfg) newsletter_emailjs_settled) d
          else Normal Finished d
        else Normal Finished (focused (said msg_newsletter_invalid true d))
    end.
Proof.
  unfold newsletter_onsubmit, bind, get.
  destruct (newsletter_email d) as [el | ]; [ | reflexivity].
  destruct (isEmailValid (trim (value el))); [ | reflexivity].
  unfold negb at 1. cbv beta iota.
  destruct (negb (truthy (EMAILJS_SERVICE_ID cfg))
            && negb (truthy (FORMSPREE_ENDPOINT cfg))); [reflexivity | ].
  destruct (truthy (FORMSPREE_ENDPOINT cfg)); [reflexivity | ].
  destruct (truthy (EMAILJS_SERVICE_ID cfg) && emailjs); reflexivity.
Qed.

End NewsletterEval.

(** ** C2: the busy guard *)

Section BusyGuard.

Lemma remove_at_split A (l : list A) i x :
  nth_error l i = Some x ->
  exists l1 l2, l = l1 ++ x :: l2 /\ remove_at i l = l1 ++ l2.
Proof.
  revert i. induction l as [ | a l IH]; intros [ | i] H; simpl in H;
    try discriminate.
  - injection H as ->. exists [], l. auto.
  - destruct (IH i H) as (l1 & l2 & -> & E).
    exists (a :: l1), l2. split; [reflexivity | ].
    change (remove_at (S i) (a :: l1 ++ x :: l2))
      with (a :: remove_at i (l1 ++ x :: l2)).
    rewrite E. reflexivity.
Qed.

Lemma contact_count_app l1 l2 :
  List.length (filter is_contact (l1 ++ l2))
  = List.length (filter is_contact l1) + List.length (filter is_contact l2).
Proof. rewrite filter_app, length_app. reflexivity. Qed.

Lemma succeed_busy d : busy_of (dom_of (succeed d)) = busy_of (idle d).
Proof. destruct d. reflexivity. Qed.

Lemma fail_with_busy message d :
  busy_of (dom_of (fail_with message d)) = busy_of (idle d).
Proof.
  unfold fail_with. destruct (contact_error d) as [el | ] eqn:E.
  - destruct (writable el); destruct d; reflexivity.
  - reflexivity.
Qed.

Lemma contact_emailjs_releases r d :
  busy_of (dom_of (contact_emailjs_settled r d)) = busy_of (idle d).
Proof.
  rewrite contact_emailjs_settled_eval.
  destruct r; auto using succeed_busy, fail_with_busy.
Qed.

Lemma contact_formspree_releases r d :
  busy_of (dom_of (contact_formspree_settled r d)) = busy_of (idle d).
Proof.
  rewrite contact_formspree_settled_eval.
  destruct r as [status | ]; [destruct (ok status) | ];
    auto using succeed_busy, fail_with_busy.
Qed.

Lemma contact_demo_releases d :
  busy_of (dom_of (contact_demo_fired d)) = busy_of (idle d).
Proof. rewrite contact_demo_fired_eval. apply succeed_busy. Qed.

Lemma newsletter_formspree_keeps_busy r :
  keeps busy_of (newsletter_formspree_settled r).
Proof.
  unfold newsletter_formspree_settled.
  apply keeps_try_catch; [ | auto with frames].
  apply keeps_bind; [auto with frames | ].
  intros status. destruct (ok status); auto 6 with frames.
Qed.

Lemma newsletter_emailjs_keeps_busy r :
  keeps busy_of (newsletter_emailjs_settled r).
Proof. unfold newsletter_emailjs_settled. auto 8 with frames. Qed.

Variable cfg : Config.
Variable emailjs : bool.

Lemma contact_submit_keeps_inv p :
  busy_inv p ->
  submitBtn_disabled (dom p) = Some false ->
  busy_inv (dispatch_submit cfg emailjs ContactForm p).
Proof.
  intros [Hall Hst] Hbtn.
  destruct Hst as [[Hn _] | [_ Hb]]; [ | congruence].
  unfold busy_inv, dispatch_submit, onsubmit, contact_in_flight in *.
  rewrite contact_onsubmit_eval.
  destruct (valid_of (dom p)).
  - assert (Hb : submitBtn_disabled (busied (validated (hidden (dom p))))
                 = Some true)
      by (destruct (dom p); simpl in *; rewrite Hbtn; reflexivity).
    unfold contact_send.
    destruct (select_by_service_id cfg emailjs); simpl;
      (split;
       [ apply Forall_app; split; [exact Hall | ];
         constructor; [ | constructor]; simpl;
         auto using contact_emailjs_releases, contact_formspree_releases,
           contact_demo_releases
       | right; split; [ | exact Hb];
         rewrite contact_count_app, Hn; reflexivity ]).
  - simpl. split; [exact Hall | ].
    left. split; [exact Hn | ].
    destruct (dom p); simpl in *; exact Hbtn.
Qed.

Lemma newsletter_submit_keeps_inv p :
  busy_inv p -> busy_inv (dispatch_submit cfg emailjs NewsletterForm p).
Proof.
  intros [Hall Hst].
  unfold busy_inv, dispatch_submit, onsubmit, contact_in_flight in *.
  rewrite newsletter_onsubmit_eval.
  assert (Hsaid : forall m r,
             submitBtn_disabled (reset_newsletter (said m r (dom p)))
             = submitBtn_disabled (dom p)).
  { intros m r. unfold said.
    destruct (newsletter_feedback (dom p)); reflexivity. }
  assert (Hfoc : forall m r,
             submitBtn_disabled (focused (said m r (dom p)))
             = submitBtn_disabled (dom p)).
  { intros m r. unfold said.
    destruct (newsletter_feedback (dom p)); reflexivity. }
  destruct (newsletter_email (dom p)) as [el | ];
    cbv beta iota; cbn [dom in_flight]; [ | auto].
  destruct (isEmailValid (trim (value el)));
    cbv beta iota; cbn [dom in_flight]; [ | rewrite Hfoc; auto].
  destruct (negb (truthy (EMAILJS_SERVICE_ID cfg))
            && negb (truthy (FORMSPREE_ENDPOINT cfg)));
    cbv beta iota; cbn [dom in_flight]; [rewrite Hsaid; auto | ].
  destruct (truthy (FORMSPREE_ENDPOINT cfg)); cbv beta iota;
    cbn [dom in_flight].
  - split.
    + apply Forall_app; split; [exact Hall | ].
      constructor; [ | constructor]. simpl.
      apply newsletter_formspree_keeps_busy.
    + rewrite contact_count_app. simpl. rewrite Nat.add_0_r. exact Hst.
  - destruct (truthy (EMAILJS_SERVICE_ID cfg) && emailjs); cbv beta iota;
      cbn [dom in_flight]; [ | auto].
    split.
    + apply Forall_app; split; [exact Hall | ].
      constructor; [ | constructor]. simpl.
      apply newsletter_emailjs_keeps_busy.
    + rewrite contact_count_app. simpl. rewrite Nat.add_0_r. exact Hst.
Qed.

(** Resuming the continuation of an operation in flight. *)
Lemma resume_keeps_inv p i x (k : Act unit) :
  busy_inv p ->
  nth_error (in_flight p) i = Some x ->
  (if is_contact x
   then forall d, busy_of (dom_of (k d)) = busy_of (idle d)
   else keeps busy_of k) ->
  busy_inv (resume k i p).
Proof.
  intros [Hall Hst] Hx Hk.
  destruct (remove_at_split _ _ Hx) as (l1 & l2 & El & Er).
  assert (Hdom : dom (resume k i p) = dom_of (k (dom p))
                 /\ in_flight (resume k i p) = l1 ++ l2).
  { unfold resume. destruct (k (dom p)); simpl; auto. }
  destruct Hdom as [Hdom Hfl].
  unfold busy_inv, contact_in_flight in *. rewrite Hdom, Hfl.
  rewrite El in Hall, Hst.
  apply Forall_app in Hall as [H1 H2]. apply Forall_cons_iff in H2 as [_ H2].
  split; [apply Forall_app; auto | ].
  rewrite contact_count_app in *. simpl in Hst.
  destruct (is_contact x) eqn:C; simpl in Hst.
  - specialize (Hk (dom p)). unfold busy_of in Hk.
    injection Hk as Hbtn _. rewrite Hbtn.
    destruct Hst as [[Hn _] | [Hn Hb]]; [lia | ].
    left. split; [lia | ].
    destruct (dom p); simpl in *. rewrite Hb. reflexivity.
  - specialize (Hk (dom p)). unfold busy_of in Hk.
    injection Hk as Hbtn _. rewrite Hbtn. exact Hst.
Qed.

Lemma step_keeps_inv ev p :
  busy_inv p -> deliverable ev p = true -> busy_inv (step cfg emailjs ev p).
Proof.
  intros Hinv Hev. pose proof Hinv as [Hall Hst].
  destruct ev as [[ | ] | i r | i r | i | ms | target text]; simpl.
  - apply newsletter_submit_keeps_inv; auto.
  - apply contact_submit_keeps_inv; auto.
    simpl in Hev. destruct (submitBtn_disabled (dom p)) as [[ | ] | ];
      congruence.
  - destruct (nth_error (in_flight p) i) as [[form k | | ] | ] eqn:E; auto.
    apply (@resume_keeps_inv p i _ (k r) Hinv E).
    rewrite Forall_forall in Hall.
    pose proof (Hall _ (nth_error_In _ _ E)) as R.
    destruct form; simpl in *; auto.
  - destruct (nth_error (in_flight p) i) as [[ | form k | ] | ] eqn:E; auto.
    apply (@resume_keeps_inv p i _ (k r) Hinv E).
    rewrite Forall_forall in Hall.
    pose proof (Hall _ (nth_error_In _ _ E)) as R.
    destruct form; simpl in *; auto.
  - destruct (nth_error (in_flight p) i) as [[ | | form due k] | ] eqn:E; auto.
    destruct (due <=? clock p)%N; auto.
    apply (@resume_keeps_inv p i _ k Hinv E).
    rewrite Forall_forall in Hall.
    pose proof (Hall _ (nth_error_In _ _ E)) as R.
    destruct form; simpl in *; auto.
  - exact Hinv.
  - unfold busy_inv, contact_in_flight in *. simpl. split; [exact Hall | ].
    replace (submitBtn_disabled (type_text target text (dom p)))
      with (submitBtn_disabled (dom p)); [exact Hst | ].
    destruct target as [ | f]; [reflexivity | destruct f; reflexivity].
Qed.

Lemma run_keeps_inv evs :
  forall p, busy_inv p -> guarded cfg emailjs evs p = true ->
            busy_inv (run cfg emailjs evs p).
Proof.
  induction evs as [ | ev evs IH]; intros p Hinv Hg; simpl in *.
  - exact Hinv.
  - apply andb_true_iff in Hg as [Hev Hg].
    apply IH; auto using step_keeps_inv.
Qed.

End BusyGuard.

(** C2, as the code has it.  Take a page whose contact submit control
    is enabled and on which nothing is in flight, and any sequence of
    events in which a submit reaches the contact form only while that
    control is enabled.  Then at every point the control is disabled
    exactly when one contact submission is in flight and enabled
    exactly when none is, there is never more than one in flight, and
    while one is in flight no further contact submit is deliverable. *)
Theorem busy_guard (cfg : Config) (emailjs : bool) (d : Dom)
    (evs : list Event) :
  submitBtn_disabled d = Some false ->
  guarded cfg emailjs evs (fresh_page d) = true ->
  (submitBtn_disabled (dom (run cfg emailjs evs (fresh_page d))) = Some true
   <-> contact_in_flight (run cfg emailjs evs (fresh_page d)) = 1)
  /\ (submitBtn_disabled (dom (run cfg emailjs evs (fresh_page d))) = Some false
      <-> contact_in_flight (run cfg emailjs evs (fresh_page d)) = 0)
  /\ contact_in_flight (run cfg emailjs evs (fresh_page d)) <= 1
  /\ (contact_in_flight (run cfg emailjs evs (fresh_page d)) = 1 ->
      deliverable (Submit ContactForm) (run cfg emailjs evs (fresh_page d))
      = false).
Proof.
  intros Hbtn Hg.
  assert (H0 : busy_inv (fresh_page d)).
  { split; [constructor | left; split; [reflexivity | exact Hbtn]]. }
  destruct (run_keeps_inv cfg emailjs evs H0 Hg) as [_ Hst].
  unfold deliverable.
  destruct Hst as [[Hn Hb] | [Hn Hb]]; rewrite Hn, Hb;
    repeat split; intros; try congruence; try lia.
Qed.

Lemma busy_guard_witness :
  (submitBtn_disabled
     (dom (run cfg_endpoint false
             [Submit ContactForm; Submit NewsletterForm;
              FetchSettles 0 (Responds 200); Submit ContactForm]
             (fresh_page sample_dom))) = Some true
   <-> contact_in_flight
         (run cfg_endpoint false
            [Submit ContactForm; Submit NewsletterForm;
             FetchSettles 0 (Responds 200); Submit ContactForm]
            (fresh_page sample_dom)) = 1)
  /\ contact_in_flight
       (run cfg_endpoint false
          [Submit ContactForm; Submit NewsletterForm;
           FetchSettles 0 (Responds 200); Submit ContactForm]
          (fresh_page sample_dom)) <= 1.
Proof.
  pose proof (@busy_guard cfg_endpoint false sample_dom
                [Submit ContactForm; Submit NewsletterForm;
                 FetchSettles 0 (Responds 200); Submit ContactForm]
                eq_refl eq_refl) as (H1 & _ & H3 & _).
  exact (conj H1 H3).
Defined.

(** C2 as worded fails.  The newsletter form has no busy state: a
    second submit while its [fetch] is in flight issues a second
    [fetch].  The contact handler itself does not look at the busy
    state either: handed a second submit event while the first is in
    flight it posts again, and when the first settles the control is
    enabled with a submission still in flight. *)
Lemma busy_guard_counterexample :
  List.length
    (in_flight (run cfg_endpoint false [Submit NewsletterForm]
                  (fresh_page sample_dom))) = 1
  /\ List.length
       (calls (run cfg_endpoint false [Submit NewsletterForm]
                 (fresh_page sample_dom))) = 1
  /\ List.length
       (calls (run cfg_endpoint false
                 [Submit NewsletterForm; Submit NewsletterForm]
                 (fresh_page sample_dom))) = 2
  /\ List.length
       (calls (run cfg_endpoint false [Submit ContactForm; Submit ContactForm]
                 (fresh_page sample_dom))) = 2
  /\ submitBtn_disabled
       (dom (run cfg_endpoint false
               [Submit ContactForm; Submit ContactForm;
                FetchSettles 0 (Responds 200)]
               (fresh_page sample_dom))) = Some false
  /\ contact_in_flight
       (run cfg_endpoint false
          [Submit ContactForm; Submit ContactForm;
           FetchSettles 0 (Responds 200)]
          (fresh_page sample_dom)) = 1.
Proof. repeat split; reflexivity. Qed.

(** ** What a handler waits for *)

Section Continuations.

Variable cfg : Config.
Variable emailjs : bool.

Lemma onsubmit_fetch_continuation form d0 d1 url init k :
  onsubmit form cfg emailjs d0 = Normal (AwaitFetch url init k) d1 ->
  k = formspree_settled form.
Proof.
  destruct form; simpl.
  - rewrite newsletter_onsubmit_eval.
    destruct (newsletter_email d0) as [el | ]; [ | discriminate].
    destruct (isEmailValid (trim (value el))); [ | discriminate].
    destruct (negb (truthy (EMAILJS_SERVICE_ID cfg))
              && negb (truthy (FORMSPREE_ENDPOINT cfg))); [discriminate | ].
    destruct (truthy (FORMSPREE_ENDPOINT cfg)).
    + intros H. injection H as _ _ <- _. reflexivity.
    + destruct (truthy (EMAILJS_SERVICE_ID cfg) && emailjs); discriminate.
  - rewrite contact_onsubmit_eval.
    destruct (valid_of d0); [ | discriminate].
    unfold contact_send.
    destruct (select_by_service_id cfg emailjs); try discriminate.
    intros H. injection H as _ _ <- _. reflexivity.
Qed.

Lemma onsubmit_send_continuation form d0 d1 sid tid params pk k :
  onsubmit form cfg emailjs d0 = Normal (AwaitSend sid tid params pk k) d1 ->
  k = emailjs_settled form.
Proof.
  destruct form; simpl.
  - rewrite newsletter_onsubmit_eval.
    destruct (newsletter_email d0) as [el | ]; [ | discriminate].
    destruct (isEmailValid (trim (value el))); [ | discriminate].
    destruct (negb (truthy (EMAILJS_SERVICE_ID cfg))
              && negb (truthy (FORMSPREE_ENDPOINT cfg))); [discriminate | ].
    destruct (truthy (FORMSPREE_ENDPOINT cfg)); [discriminate | ].
    destruct (truthy (EMAILJS_SERVICE_ID cfg) && emailjs); [ | discriminate].
    intros H. injection H as _ _ _ _ <- _. reflexivity.
  - rewrite contact_onsubmit_eval.
    destruct (valid_of d0); [ | discriminate].
    unfold contact_send.
    destruct (select_by_service_id cfg emailjs); try discriminate.
    intros H. injection H as _ _ _ _ <- _. reflexivity.
Qed.

Lemma onsubmit_timer_continuation form d0 d1 delay k :
  onsubmit form cfg emailjs d0 = Normal (SetTimeout delay k) d1 ->
  form = ContactForm /\ delay = 800%N /\ k = contact_demo_fired.
Proof.
  destruct form; simpl.
  - rewrite newsletter_onsubmit_eval.
    destruct (newsletter_email d0) as [el | ]; [ | discriminate].
    destruct (isEmailValid (trim (value el))); [ | discriminate].
    destruct (negb (truthy (EMAILJS_SERVICE_ID cfg))
              && negb (truthy (FORMSPREE_ENDPOINT cfg))); [discriminate | ].
    destruct (truthy (FORMSPREE_ENDPOINT cfg)); [discriminate | ].
    destruct (truthy (EMAILJS_SERVICE_ID cfg) && emailjs); discriminate.
  - rewrite contact_onsubmit_eval.
    destruct (valid_of d0); [ | discriminate].
    unfold contact_send.
    destruct (select_by_service_id cfg emailjs); try discriminate.
    intros H. injection H as <- <- _. auto.
Qed.

End Continuations.

(** ** How outcomes show *)

Section Shows.

Lemma succeed_shows d : contact_shows Success d (dom_of (succeed d)).
Proof. destruct d. split; reflexivity. Qed.

Lemma fail_with_shows message d :
  contact_shows (ServiceFailure message) d (dom_of (fail_with message d)).
Proof.
  unfold fail_with, contact_shows.
  destruct (contact_error d) as [el | ] eqn:E.
  - unfold writable, shown.
    destruct (body el) as [t | l [n | ]] eqn:B; destruct d; simpl in *;
      subst; repeat split; intros el' label text H B';
      injection H as <-; rewrite B in B'; try discriminate.
    injection B' as <- _. rewrite ?B. reflexivity.
  - destruct d; simpl in *; subst. repeat split. discriminate.
Qed.

Lemma said_shows_failure message d :
  newsletter_shows (ServiceFailure message) d (said message false d).
Proof.
  unfold newsletter_shows, said.
  destruct d as [? [fb | ] ? ? ? ? ? ? ? ? ? ? ? ?]; reflexivity.
Qed.

Lemma said_shows_success d :
  newsletter_shows Success d
    (reset_newsletter (said msg_newsletter_ok false d)).
Proof.
  unfold newsletter_shows, said.
  destruct d as [? [fb | ] ? ? ? ? ? ? ? ? ? ? ? ?]; reflexivity.
Qed.

End Shows.

Section NoRejectionEscapes.

Lemma fail_with_throws message d e d' :
  fail_with message d = Throw e d' ->
  e = TypeError
  /\ exists el, contact_error d = Some el /\ writable el = false.
Proof.
  unfold fail_with. destruct (contact_error d) as [el | ]; [ | discriminate].
  destruct (writable el) eqn:W; [discriminate | ].
  intros H. injection H as <- _. split; [reflexivity | ]. exists el. auto.
Qed.

Lemma fail_with_normal message d :
  (forall el, contact_error d = Some el -> writable el = true) ->
  is_normal (fail_with message d) = true.
Proof.
  unfold fail_with. intros H.
  destruct (contact_error d) as [el | ]; [ | reflexivity].
  rewrite (H el eq_refl). reflexivity.
Qed.

End NoRejectionEscapes.

(** ** C3: the outcomes of the form-relay strategy *)

(** C3.  Whenever a handler of either form posts to the endpoint, the
    continuation it waits with turns every way the [fetch] can settle
    into one of three outcomes and shows it: a response with a status
    from 200 to 299 is shown as success, a response with any other
    status as the service failure of the form, and a [fetch] that
    throws as the network failure of the form.  The exception of the
    [fetch] never leaves the handler. *)
Theorem formRelay_outcomes (form : FormId) (cfg : Config) (emailjs : bool)
    (d0 d1 : Dom) (url : jsstring) (init : FetchInit)
    (k : FetchResult -> Act unit) :
  onsubmit form cfg emailjs d0 = Normal (AwaitFetch url init k) d1 ->
  forall (r : FetchResult) (d : Dom),
    shows form (formRelay_outcome form r) d (dom_of (k r d))
    /\ (forall reason d', k r d <> Throw (Rejection reason) d').
Proof.
  intros H r d. rewrite (onsubmit_fetch_continuation _ _ _ _ H).
  destruct form; simpl.
  - rewrite newsletter_formspree_settled_eval. split; [ | discriminate].
    destruct r as [status | reason]; simpl.
    + destruct (ok status).
      * apply said_shows_success.
      * apply said_shows_failure.
    + apply (said_shows_failure msg_newsletter_network).
  - rewrite contact_formspree_settled_eval. split.
    + destruct r as [status | reason]; simpl.
      * destruct (ok status).
        -- apply succeed_shows.
        -- apply fail_with_shows.
      * apply (fail_with_shows msg_contact_network).
    + intros reason d' E.
      destruct r as [status | reason0]; [destruct (ok status) | ];
        try discriminate;
        apply fail_with_throws in E as [E _]; discriminate.
Qed.

Lemma formRelay_outcomes_witness :
  contact_shows (ServiceFailure msg_contact_failed) sample_dom
    (dom_of (contact_formspree_settled (Responds 500) sample_dom))
  /\ newsletter_shows (NetworkFailure msg_newsletter_network) sample_dom
       (dom_of (newsletter_formspree_settled (FetchThrows (lit "offline"))
                  sample_dom)).
Proof.
  split.
  - apply (proj1 (@formRelay_outcomes ContactForm cfg_endpoint false
                    sample_dom _ _ _ _ eq_refl (Responds 500) sample_dom)).
  - apply (proj1 (@formRelay_outcomes NewsletterForm cfg_endpoint false
                    sample_dom _ _ _ _ eq_refl
                    (FetchThrows (lit "offline")) sample_dom)).
Defined.

(** ** No rejection escapes the page *)

Section Unhandled.

Lemma Forall_remove_at A (P : A -> Prop) (l : list A) :
  forall i, Forall P l -> Forall P (remove_at i l).
Proof.
  induction l as [ | a l IH]; intros [ | i] H; unfold remove_at; simpl; auto.
  - inversion H; auto.
  - inversion H; subst. constructor; auto. apply IH; auto.
Qed.

Lemma emailjs_settled_tame form r d e d' :
  emailjs_settled form r d = Throw e d' -> e = TypeError.
Proof.
  destruct form; simpl.
  - rewrite newsletter_emailjs_settled_eval. discriminate.
  - rewrite contact_emailjs_settled_eval.
    destruct r; [discriminate | ].
    intros H. apply fail_with_throws in H as [H _]. exact H.
Qed.

Lemma formspree_settled_tame form r d e d' :
  formspree_settled form r d = Throw e d' -> e = TypeError.
Proof.
  destruct form; simpl.
  - rewrite newsletter_formspree_settled_eval. discriminate.
  - rewrite contact_formspree_settled_eval.
    destruct r as [status | ]; [destruct (ok status) | ]; try discriminate;
      intros H; apply fail_with_throws in H as [H _]; exact H.
Qed.

Lemma contact_demo_fired_tame d e d' :
  contact_demo_fired d = Throw e d' -> e = TypeError.
Proof. rewrite contact_demo_fired_eval. discriminate. Qed.

Variable cfg : Config.
Variable emailjs : bool.

Lemma onsubmit_never_throws form d e d' :
  onsubmit form cfg emailjs d <> Throw e d'.
Proof.
  destruct form; simpl.
  - rewrite newsletter_onsubmit_eval.
    destruct (newsletter_email d) as [el | ]; [ | discriminate].
    destruct (isEmailValid (trim (value el))); [ | discriminate].
    destruct (negb (truthy (EMAILJS_SERVICE_ID cfg))
              && negb (truthy (FORMSPREE_ENDPOINT cfg))); [discriminate | ].
    destruct (truthy (FORMSPREE_ENDPOINT cfg)); [discriminate | ].
    destruct (truthy (EMAILJS_SERVICE_ID cfg) && emailjs); discriminate.
  - rewrite contact_onsubmit_eval. destruct (valid_of d); discriminate.
Qed.

Lemma submit_keeps_no_rejection form p :
  no_rejection p -> no_rejection (dispatch_submit cfg emailjs form p).
Proof.
  intros [Hf Hu]. unfold no_rejection, dispatch_submit.
  destruct (onsubmit form cfg emailjs (dom p))
    as [[ | sid tid params pk k | url init k | delay k] d' | e d'] eqn:E;
    cbn [in_flight unhandled].
  - auto.
  - split; [ | exact Hu]. apply Forall_app. split; [exact Hf | ].
    constructor; [ | constructor].
    rewrite (onsubmit_send_continuation _ _ _ _ E). simpl.
    intros r d e d''. apply emailjs_settled_tame.
  - split; [ | exact Hu]. apply Forall_app. split; [exact Hf | ].
    constructor; [ | constructor].
    rewrite (onsubmit_fetch_continuation _ _ _ _ E). simpl.
    intros r d e d''. apply formspree_settled_tame.
  - split; [ | exact Hu]. apply Forall_app. split; [exact Hf | ].
    constructor; [ | constructor].
    destruct (onsubmit_timer_continuation _ _ _ _ E) as (_ & _ & ->). simpl.
    intros d e d''. apply contact_demo_fired_tame.
  - exfalso. exact (onsubmit_never_throws _ _ E).
Qed.

Lemma resume_keeps_no_rejection (k : Act unit) i p :
  no_rejection p ->
  (forall d e d', k d = Throw e d' -> e = TypeError) ->
  no_rejection (resume k i p).
Proof.
  intros [Hf Hu] Hk. unfold no_rejection, resume, remove_at.
  assert (Hr : Forall tame (firstn i (in_flight p)
                            ++ skipn (S i) (in_flight p)))
    by (apply (Forall_remove_at i Hf)).
  destruct (k (dom p)) as [[] d' | e d'] eqn:E; cbn [in_flight unhandled].
  - auto.
  - split; [exact Hr | ]. apply Forall_app. split; [exact Hu | ].
    constructor; [ | constructor]. exact (Hk _ _ _ E).
Qed.

Lemma step_keeps_no_rejection ev p :
  no_rejection p -> no_rejection (step cfg emailjs ev p).
Proof.
  intros H. pose proof H as [Hf Hu]. rewrite Forall_forall in Hf.
  destruct ev as [form | i r | i r | i | ms | target text]; simpl.
  - apply submit_keeps_no_rejection; exact H.
  - destruct (nth_error (in_flight p) i) as [[form k | | ] | ] eqn:E; auto.
    apply resume_keeps_no_rejection; [exact H | ].
    apply (Hf _ (nth_error_In _ _ E)).
  - destruct (nth_error (in_flight p) i) as [[ | form k | ] | ] eqn:E; auto.
    apply resume_keeps_no_rejection; [exact H | ].
    apply (Hf _ (nth_error_In _ _ E)).
  - destruct (nth_error (in_flight p) i) as [[ | | form due k] | ] eqn:E; auto.
    destruct (due <=? clock p)%N; auto.
    apply resume_keeps_no_rejection; [exact H | ].
    apply (Hf _ (nth_error_In _ _ E)).
  - exact H.
  - exact H.
Qed.

Lemma run_keeps_no_rejection evs :
  forall p, no_rejection p -> no_rejection (run cfg emailjs evs p).
Proof.
  induction evs as [ | ev evs IH]; intros p H; simpl.
  - exact H.
  - apply IH. apply step_keeps_no_rejection. exact H.
Qed.

End Unhandled.

(** ** C4: a rejected send of the mail-relay strategy *)

(** C4.  Whenever a handler of either form calls the mail client, the
    continuation it waits with catches every rejection of the call: it
    shows the service failure of the form, whose message is fixed; the
    page it leaves does not depend on what the rejection carried; the
    rejection never leaves the handler; and the handler completes
    normally whenever the error alert, if there is one, can take a
    message.  On the page as a whole, whatever is submitted and however
    the sends settle, no rejection is ever among the exceptions that
    escaped a handler. *)
Theorem mailRelay_rejection_caught (form : FormId) (cfg : Config)
    (emailjs : bool) :
  (forall (d0 d1 : Dom) (sid tid : jsstring) (params : Params)
          (pk : jsstring) (k : SendResult -> Act unit),
      onsubmit form cfg emailjs d0
      = Normal (AwaitSend sid tid params pk k) d1 ->
      forall (reason : jsstring) (d : Dom),
        shows form (mailRelay_outcome form (SendRejects reason)) d
          (dom_of (k (SendRejects reason) d))
        /\ k (SendRejects reason) d = k (SendRejects []) d
        /\ (forall reason' d', k (SendRejects reason) d
                               <> Throw (Rejection reason') d')
        /\ ((forall el, contact_error d = Some el -> writable el = true) ->
            is_normal (k (SendRejects reason) d) = true))
  /\ (forall (d : Dom) (evs : list Event),
         Forall (fun e => e = TypeError)
                (unhandled (run cfg emailjs evs (fresh_page d)))).
Proof.
  split.
  - intros d0 d1 sid tid params pk k H reason d.
    rewrite (onsubmit_send_continuation _ _ _ _ H).
    destruct form; simpl.
    + rewrite !newsletter_emailjs_settled_eval.
      split; [apply said_shows_failure | ].
      split; [reflexivity | ]. split; [discriminate | reflexivity].
    + rewrite !contact_emailjs_settled_eval.
      split; [ | split; [reflexivity | split]].
      * apply fail_with_shows.
      * intros reason' d' E.
        apply fail_with_throws in E as [E _]. discriminate.
      * apply fail_with_normal.
  - intros d evs.
    apply (run_keeps_no_rejection cfg emailjs evs (p := fresh_page d)).
    split; constructor.
Qed.

Lemma mailRelay_rejection_caught_witness :
  contact_shows (ServiceFailure msg_contact_emailjs) sample_dom
    (dom_of (contact_emailjs_settled (SendRejects (lit "quota")) sample_dom))
  /\ is_normal (contact_emailjs_settled (SendRejects (lit "quota")) sample_dom)
     = true.
Proof.
  pose proof (proj1 (mailRelay_rejection_caught ContactForm cfg_emailjs true)
                sample_dom _ _ _ _ _ _ eq_refl (lit "quota") sample_dom)
    as (H1 & _ & _ & H4).
  split; [exact H1 | ].
  apply H4. intros el E. injection E as <-. reflexivity.
Defined.

(** ** C7: fields and busy state after an outcome *)

Section Settled.

Lemma succeed_fields d :
  inputs (dom_of (succeed d)) = map (option_map reset_input) (inputs d).
Proof. destruct d. reflexivity. Qed.

Lemma fail_with_fields message d :
  inputs (dom_of (fail_with message d)) = inputs d.
Proof.
  unfold fail_with. destruct (contact_error d) as [el | ].
  - destruct (writable el); destruct d; reflexivity.
  - destruct d; reflexivity.
Qed.

Lemma said_email message r d :
  newsletter_email (said message r d) = newsletter_email d.
Proof. unfold said. destruct (newsletter_feedback d); reflexivity. Qed.

Lemma said_busy message r d : busy_of (said message r d) = busy_of d.
Proof. unfold said. destruct (newsletter_feedback d); reflexivity. Qed.

Lemma contact_formspree_fields r d :
  fields_settled ContactForm (formRelay_outcome ContactForm r) d
    (dom_of (contact_formspree_settled r d)).
Proof.
  rewrite contact_formspree_settled_eval.
  destruct r as [status | reason]; simpl; [destruct (ok status) | ];
    auto using succeed_fields, fail_with_fields.
Qed.

Lemma contact_emailjs_fields r d :
  fields_settled ContactForm (mailRelay_outcome ContactForm r) d
    (dom_of (contact_emailjs_settled r d)).
Proof.
  rewrite contact_emailjs_settled_eval.
  destruct r as [ | reason]; simpl;
    auto using succeed_fields, fail_with_fields.
Qed.

Lemma newsletter_formspree_fields r d :
  fields_settled NewsletterForm (formRelay_outcome NewsletterForm r) d
    (dom_of (newsletter_formspree_settled r d)).
Proof.
  rewrite newsletter_formspree_settled_eval.
  destruct r as [status | reason]; simpl; [destruct (ok status) | ]; simpl;
    rewrite said_email; reflexivity.
Qed.

Lemma newsletter_emailjs_fields r d :
  fields_settled NewsletterForm (mailRelay_outcome NewsletterForm r) d
    (dom_of (newsletter_emailjs_settled r d)).
Proof.
  rewrite newsletter_emailjs_settled_eval.
  destruct r as [ | reason]; simpl; rewrite said_email; reflexivity.
Qed.

End Settled.

(** C7, as the code has it.  For every submission of either form that
    settles: on success every field of the form is back at its default
    value (the empty string when the markup gives it none), on a
    service or network failure the fields are what they were, and in
    both cases the busy state of the contact form is cleared; the
    newsletter form has no busy state and leaves that of the contact
    form alone.  The demo strategy of the newsletter form settles at
    once, with success. *)
Theorem settled_fields_and_busy (form : FormId) (cfg : Config)
    (emailjs : bool) (d0 d1 : Dom) (susp : Suspension) :
  onsubmit form cfg emailjs d0 = Normal susp d1 ->
  match susp with
  | Finished =>
      form = NewsletterForm ->
      truthy (EMAILJS_SERVICE_ID cfg) = false ->
      truthy (FORMSPREE_ENDPOINT cfg) = false ->
      forall el, newsletter_email d0 = Some el ->
                 isEmailValid (trim (value el)) = true ->
                 fields_settled form Success d0 d1
                 /\ busy_settled form d0 d1
  | AwaitSend _ _ _ _ k =>
      forall r d,
        fields_settled form (mailRelay_outcome form r) d (dom_of (k r d))
        /\ busy_settled form d (dom_of (k r d))
  | AwaitFetch _ _ k =>
      forall r d,
        fields_settled form (formRelay_outcome form r) d (dom_of (k r d))
        /\ busy_settled form d (dom_of (k r d))
  | SetTimeout _ k =>
      forall d,
        fields_settled form Success d (dom_of (k d))
        /\ busy_settled form d (dom_of (k d))
  end.
Proof.
  intros H. destruct susp as [ | sid tid params pk k | url init k | delay k].
  - intros -> Hs He el Hel Hv. simpl in H.
    rewrite newsletter_onsubmit_eval, Hel, Hv, Hs, He in H. simpl in H.
    injection H as <-. simpl. rewrite said_email. split; [reflexivity | ].
    apply said_busy.
  - rewrite (onsubmit_send_continuation _ _ _ _ H). intros r d.
    destruct form; simpl.
    + split; [apply newsletter_emailjs_fields | ].
      apply newsletter_emailjs_keeps_busy.
    + split; [apply contact_emailjs_fields | ].
      apply contact_emailjs_releases.
  - rewrite (onsubmit_fetch_continuation _ _ _ _ H). intros r d.
    destruct form; simpl.
    + split; [apply newsletter_formspree_fields | ].
      apply newsletter_formspree_keeps_busy.
    + split; [apply contact_formspree_fields | ].
      apply contact_formspree_releases.
  - destruct (onsubmit_timer_continuation _ _ _ _ H) as (-> & _ & ->).
    intros d. simpl. rewrite contact_demo_fired_eval.
    split; [apply succeed_fields | apply succeed_busy].
Qed.

Lemma settled_fields_and_busy_witness :
  (inputs (dom_of (contact_formspree_settled (Responds 503) sample_dom))
   = inputs sample_dom
   /\ busy_of (dom_of (contact_formspree_settled (Responds 503) sample_dom))
      = busy_of (idle sample_dom))
  /\ (inputs (dom_of (contact_formspree_settled (Responds 200) sample_dom))
      = map (option_map reset_input) (inputs sample_dom)
      /\ busy_of (dom_of (contact_formspree_settled (Responds 200) sample_dom))
         = busy_of (idle sample_dom)).
Proof.
  pose proof (@settled_fields_and_busy ContactForm cfg_endpoint false
                sample_dom _ _ eq_refl) as H.
  exact (conj (H (Responds 503) sample_dom) (H (Responds 200) sample_dom)).
Defined.

(** C7 as worded fails where a field has a default value: the [#ref]
    field of the sample page is given the value " web " by its markup,
    and after a successful submission [form.reset()] has put that value
    back; the form is reset, not emptied. *)
Lemma settled_fields_counterexample :
  visible (contact_success
             (dom (run cfg_endpoint false
                     [Submit ContactForm; FetchSettles 0 (Responds 200)]
                     (fresh_page sample_dom)))) = true
  /\ option_map value
       (el_ref (dom (run cfg_endpoint false
                       [Submit ContactForm; FetchSettles 0 (Responds 200)]
                       (fresh_page sample_dom)))) = Some (lit " web ")
  /\ cleared (dom (run cfg_endpoint false
                     [Submit ContactForm; FetchSettles 0 (Responds 200)]
                     (fresh_page sample_dom))) = false.
Proof. repeat split; reflexivity. Qed.

(** ** C6: validation of the contact form *)

Section Validation.

Lemma isEmailValid_nonempty v : isEmailValid v = true -> truthy v = true.
Proof. destruct v; [discriminate | reflexivity]. Qed.

Lemma field_invalid_good f v :
  required f = true ->
  field_invalid f v
  = negb ((if is_email_field f then isEmailValid else truthy) (trim v)).
Proof.
  unfold field_invalid. destruct f; try discriminate; intros _; simpl;
    rewrite ?orb_false_r; try reflexivity.
  destruct (isEmailValid (trim v)) eqn:E.
  - rewrite (isEmailValid_nonempty _ E). reflexivity.
  - apply orb_true_r.
Qed.

Lemma marked_after_validation f d :
  marked f (validated d)
  = match querySelector f d with
    | Some el => if required f then field_invalid f (value el)
                 else is_invalid el
    | None => false
    end.
Proof.
  unfold marked.
  destruct f; destruct d; simpl;
    match goal with
    | |- context [checked _ ?i] => destruct i; simpl
    | |- context [match ?i with _ => _ end] => destruct i; simpl
    end;
    rewrite ?field_invalid_good by reflexivity; reflexivity.
Qed.

Lemma marked_frame f d :
  marked f (busied (validated (hidden d))) = marked f (validated d)
  /\ marked f (announced (validated (hidden d))) = marked f (validated d).
Proof. unfold marked. destruct f, d; split; reflexivity. Qed.

Variable cfg : Config.
Variable emailjs : bool.

Lemma marked_after_submit f d :
  marked f (dom_of (contact_onsubmit cfg emailjs d)) = marked f (validated d).
Proof.
  rewrite contact_onsubmit_eval.
  destruct (valid_of d); simpl; apply marked_frame.
Qed.

Lemma invalid_field_fails f el d :
  querySelector f d = Some el -> field_invalid f (value el) = true ->
  valid_of d = false.
Proof.
  unfold valid_of, field_invalid. intros Hq Hf.
  destruct f; simpl in Hf, Hq; rewrite ?orb_false_r in Hf;
    try discriminate; rewrite Hq; simpl.
  - apply negb_true_iff in Hf. rewrite Hf. reflexivity.
  - assert (E : isEmailValid (trim (value el)) = false).
    { destruct (isEmailValid (trim (value el))) eqn:E; [ | reflexivity].
      rewrite (isEmailValid_nonempty _ E) in Hf. discriminate. }
    rewrite E. apply andb_false_iff. left. apply andb_false_iff. left.
    apply andb_false_r.
  - apply negb_true_iff in Hf. rewrite Hf.
    apply andb_false_iff. left. apply andb_false_r.
  - apply negb_true_iff in Hf. rewrite Hf. apply andb_false_r.
Qed.

End Validation.

(** C6.  On every submit of the contact form, a field that is there is
    marked invalid afterwards exactly when it is one of name, email,
    subject and message with an empty trimmed value, or the email
    field with a trimmed value that fails [isEmailValid]; the optional
    fields keep the mark they had.  With the four required fields
    empty, and no optional field marked beforehand, validation answers
    false and the marked fields are exactly name, email, subject and
    message.  When any field is invalid the handler finishes without
    waiting for anything: no call is issued, nothing is in flight, the
    spinner and the submit control are as before, the success alert is
    hidden and the error alert shows the request to complete the
    required fields. *)
Theorem contact_validation (cfg : Config) (emailjs : bool) (d : Dom) :
  (forall f el,
      querySelector f d = Some el ->
      marked f (dom_of (contact_onsubmit cfg emailjs d))
      = if required f then field_invalid f (value el) else is_invalid el)
  /\ (forall n e s m,
         el_name d = Some n -> el_email d = Some e ->
         el_subject d = Some s -> el_message d = Some m ->
         trim (value n) = [] -> trim (value e) = [] ->
         trim (value s) = [] -> trim (value m) = [] ->
         marked Phone d = false -> marked Company d = false ->
         marked Ref d = false ->
         exists d', contact_validate d = Normal false d'
                    /\ invalidFields d' = [Name; Email; Subject; Message])
  /\ (forall f el p,
         querySelector f d = Some el -> field_invalid f (value el) = true ->
         dom p = d ->
         exists d',
           contact_onsubmit cfg emailjs d = Normal Finished d'
           /\ calls (step cfg emailjs (Submit ContactForm) p) = calls p
           /\ in_flight (step cfg emailjs (Submit ContactForm) p) = in_flight p
           /\ dom (step cfg emailjs (Submit ContactForm) p) = d'
           /\ busy_of d' = busy_of d
           /\ visible (contact_success d') = false
           /\ contact_error d'
              = option_map
                  (fun a => {| d_none := false;
                               aria_hidden := Some (lit "true");
                               body := Plain msg_contact_required |})
                  (contact_error d)).
Proof.
  split; [ | split].
  - intros f el Hq. rewrite marked_after_submit, marked_after_validation, Hq.
    reflexivity.
  - intros n e s m Hn He Hs Hm Tn Te Ts Tm Mp Mc Mr.
    exists (validated d). rewrite contact_validate_eval. split.
    + f_equal. unfold valid_of. rewrite Hn. simpl. rewrite Tn. reflexivity.
    + unfold invalidFields, all_fields. simpl.
      rewrite !marked_after_validation. unfold querySelector.
      rewrite Hn, He, Hs, Hm. simpl.
      unfold field_invalid. simpl. rewrite Tn, Te, Ts, Tm. simpl.
      unfold marked, querySelector in Mp, Mc, Mr.
      destruct (el_phone d), (el_company d), (el_ref d);
        rewrite ?Mp, ?Mc, ?Mr; reflexivity.
  - intros f el p Hq Hf Hp.
    pose proof (invalid_field_fails _ _ Hq Hf) as V.
    exists (announced (validated (hidden d))).
    unfold step, dispatch_submit, onsubmit. rewrite Hp.
    rewrite contact_onsubmit_eval, V. cbn [calls in_flight dom].
    split; [reflexivity | ]. split; [reflexivity | ].
    split; [reflexivity | ]. split; [reflexivity | ].
    clear. split; [ | split].
    + destruct d; reflexivity.
    + destruct d as [? ? ? ? ? ? ? ? ? ? [a | ] ? ? ?]; reflexivity.
    + destruct d as [? ? ? ? ? ? ? ? ? ? ? [a | ] ? ?]; reflexivity.
Qed.

Lemma contact_validation_witness :
  (exists d', contact_validate empty_contact_dom = Normal false d'
              /\ invalidFields d' = [Name; Email; Subject; Message])
  /\ (exists d',
         contact_onsubmit cfg_endpoint false empty_contact_dom
         = Normal Finished d'
         /\ calls (step cfg_endpoint false (Submit ContactForm)
                     (fresh_page empty_contact_dom)) = []).
Proof.
  pose proof (contact_validation cfg_endpoint false empty_contact_dom)
    as (_ & H2 & H3).
  split.
  - apply (H2 _ _ _ _ eq_refl eq_refl eq_refl eq_refl eq_refl eq_refl
              eq_refl eq_refl eq_refl eq_refl eq_refl).
  - destruct (H3 Name _ (fresh_page empty_contact_dom) eq_refl eq_refl eq_refl)
      as (d' & E & C & _).
    exists d'. split; [exact E | exact C].
Defined.

(** ** C8: the payload of the contact form *)

(** C8 fails on the code for the [ref] field.  The sample page holds
    " web " in [#ref]; the payload the handler posts carries that value
    with its spaces, while the name, email, company, subject and
    message are trimmed and the missing phone is the empty string. *)
Theorem payload_ref_untrimmed :
  calls (run cfg_endpoint false [Submit ContactForm] (fresh_page sample_dom))
  = [FetchCall ContactForm (lit "https://formspree.io/f/yourid")
       {| method := lit "POST";
          headers := [(lit "Accept", lit "application/json");
                      (lit "Content-Type", lit "application/json")];
          body_json :=
            ContactParams
              {| Payload.name := lit "A";
                 Payload.email := lit "a@b.co";
                 Payload.phone := [];
                 Payload.company := lit "ACME";
                 Payload.subject := lit "S";
                 Payload.message := lit "M";
                 Payload.ref := lit " web " |} |}]
  /\ trim (lit " web ") = lit "web"
  /\ option_map value (el_company sample_dom) = Some (lit " ACME ").
Proof. repeat split; reflexivity. Qed.

(** What the payload holds in general: the trimmed value of six
    fields and the value of [#ref] as it stands. *)
Lemma contact_payload_fields cfg emailjs d :
  valid_of d = true ->
  exists d',
    contact_onsubmit cfg emailjs d
    = Normal (contact_send cfg (select_by_service_id cfg emailjs)
                {| Payload.name := value_of true (el_name d);
                   Payload.email := value_of true (el_email d);
                   Payload.phone := value_of true (el_phone d);
                   Payload.company := value_of true (el_company d);
                   Payload.subject := value_of true (el_subject d);
                   Payload.message := value_of true (el_message d);
                   Payload.ref := value_of false (el_ref d) |}) d'.
Proof.
  intros V. rewrite contact_onsubmit_eval, V. eexists. reflexivity.
Qed.

(** ** C9: the demo strategy *)

Section Demo.

Variable cfg : Config.
Variable emailjs : bool.

Lemma run_app evs1 evs2 p :
  run cfg emailjs (evs1 ++ evs2) p
  = run cfg emailjs evs2 (run cfg emailjs evs1 p).
Proof. unfold run. apply fold_left_app. Qed.

Lemma time_passes evs :
  forall q f due k,
    in_flight q = [PendingTimer f due k] ->
    only_time evs = true ->
    (clock q + elapsed evs < due)%N ->
    run cfg emailjs evs q = later (elapsed evs) q.
Proof.
  induction evs as [ | ev evs IH]; intros q f due k Hq Ht Hc.
  - unfold later. destruct q; simpl. rewrite N.add_0_r. reflexivity.
  - change (run cfg emailjs (ev :: evs) q)
      with (run cfg emailjs evs (step cfg emailjs ev q)).
    destruct ev as [ | | | i | ms | ]; try discriminate; simpl in Ht, Hc.
    + assert (E : step cfg emailjs (TimerFires i) q = q).
      { simpl. rewrite Hq. destruct i as [ | [ | i]]; simpl; auto.
        destruct (N.leb_spec due (clock q)); [lia | reflexivity]. }
      rewrite E. simpl elapsed. eapply IH; eauto.
    + rewrite (IH (step cfg emailjs (Tick ms) q) f due k); simpl; auto.
      * unfold later. simpl. f_equal. lia.
      * lia.
Qed.

End Demo.

(** C9, as the code has it.  With the service id and the endpoint
    both empty, a valid submission of either form takes the demo path.
    The contact handler sets the spinner, leaves both alerts hidden and
    hands its success path to a timer of 800 ms: as long as less than
    800 ms have passed the page stays as the handler left it, however
    often the timer is tried, and once 800 ms have passed the timer
    fires and the page shows success; that path cannot fail.  The
    newsletter handler shows its success message and resets the form
    before it returns, with nothing left in flight. *)
Theorem demo_strategy (cfg : Config) (emailjs : bool) (d : Dom) :
  truthy (EMAILJS_SERVICE_ID cfg) = false ->
  truthy (FORMSPREE_ENDPOINT cfg) = false ->
  (valid_of d = true ->
   contact_onsubmit cfg emailjs d
   = Normal (SetTimeout 800 contact_demo_fired) (busied (validated (hidden d)))
   /\ both_hidden (busied (validated (hidden d))) = true
   /\ (forall d', contact_demo_fired d' = succeed d'
                  /\ contact_shows Success d' (dom_of (succeed d')))
   /\ (forall p evs,
          dom p = d -> in_flight p = [] ->
          only_time evs = true -> (elapsed evs < 800)%N ->
          dom (run cfg emailjs (Submit ContactForm :: evs) p)
          = busied (validated (hidden d))
          /\ List.length (in_flight (run cfg emailjs
                                        (Submit ContactForm :: evs) p)) = 1)
   /\ (forall p evs,
          dom p = d -> in_flight p = [] ->
          only_time evs = true -> (elapsed evs < 800)%N ->
          dom (run cfg emailjs
                 (Submit ContactForm :: evs
                    ++ [Tick (800 - elapsed evs); TimerFires 0]) p)
          = dom_of (succeed (busied (validated (hidden d))))))
  /\ (forall el,
         newsletter_email d = Some el ->
         isEmailValid (trim (value el)) = true ->
         newsletter_onsubmit cfg emailjs d
         = Normal Finished
             (reset_newsletter (said msg_newsletter_demo false d))).
Proof.
  intros Hs He. split.
  - intros V.
    assert (E : contact_onsubmit cfg emailjs d
                = Normal (SetTimeout 800 contact_demo_fired)
                         (busied (validated (hidden d)))).
    { rewrite contact_onsubmit_eval, V. unfold select_by_service_id.
      rewrite Hs, He. reflexivity. }
    assert (P1 : forall p, dom p = d -> in_flight p = [] ->
                 step cfg emailjs (Submit ContactForm) p
                 = {| dom := busied (validated (hidden d));
                      in_flight := [PendingTimer ContactForm (clock p + 800)
                                      contact_demo_fired];
                      calls := calls p; clock := clock p;
                      unhandled := unhandled p |}).
    { intros p Hp Hf. simpl. unfold dispatch_submit, onsubmit.
      rewrite Hp, E, Hf. reflexivity. }
    split; [exact E | ]. split; [ | split; [ | split]].
    + clear. destruct d as [? ? ? ? ? ? ? ? ? ? [a | ] [b | ] ? ?]; reflexivity.
    + intros d'. split; [apply contact_demo_fired_eval | apply succeed_shows].
    + intros p evs Hp Hf Ht Hc.
      change (run cfg emailjs (Submit ContactForm :: evs) p)
        with (run cfg emailjs evs (step cfg emailjs (Submit ContactForm) p)).
      rewrite (P1 p Hp Hf).
      match goal with
      | |- context [run cfg emailjs evs ?q] =>
          rewrite (@time_passes cfg emailjs evs q ContactForm
                     (clock p + 800)%N contact_demo_fired eq_refl Ht)
            by (simpl; lia)
      end.
      split; reflexivity.
    + intros p evs Hp Hf Ht Hc.
      change (run cfg emailjs
                (Submit ContactForm
                 :: evs ++ [Tick (800 - elapsed evs); TimerFires 0]) p)
        with (run cfg emailjs
                (evs ++ [Tick (800 - elapsed evs); TimerFires 0])
                (step cfg emailjs (Submit ContactForm) p)).
      rewrite run_app, (P1 p Hp Hf).
      match goal with
      | |- context [run cfg emailjs evs ?q] =>
          rewrite (@time_passes cfg emailjs evs q ContactForm
                     (clock p + 800)%N contact_demo_fired eq_refl Ht)
            by (simpl; lia)
      end.
      unfold run, later.
      cbn [fold_left step dom in_flight clock nth_error].
      match goal with
      | |- context [(?a <=? ?b)%N] => destruct (N.leb_spec a b); [ | lia]
      end.
      unfold resume. cbn [dom]. rewrite contact_demo_fired_eval. reflexivity.
  - intros el Hel Hv. rewrite newsletter_onsubmit_eval, Hel, Hv, Hs, He.
    reflexivity.
Qed.

Lemma demo_strategy_witness :
  contact_onsubmit shipped_config false sample_dom
  = Normal (SetTimeout 800 contact_demo_fired)
           (busied (validated (hidden sample_dom)))
  /\ dom (run shipped_config false
            [Submit ContactForm; Tick 500; TimerFires 0; Tick 299;
             TimerFires 0]
            (fresh_page sample_dom))
     = busied (validated (hidden sample_dom))
  /\ newsletter_onsubmit shipped_config false sample_dom
     = Normal Finished
         (reset_newsletter (said msg_newsletter_demo false sample_dom)).
Proof.
  pose proof (@demo_strategy shipped_config false sample_dom eq_refl eq_refl)
    as [H1 H2].
  destruct (H1 eq_refl) as (E & _ & _ & T & _).
  split; [exact E | ]. split.
  - apply (T (fresh_page sample_dom)
             [Tick 500; TimerFires 0; Tick 299; TimerFires 0]
             eq_refl eq_refl eq_refl eq_refl).
  - apply (H2 _ eq_refl eq_refl).
Defined.

(** C9 as worded fails.  With a service id and nothing else, no back
    end is configured in the words of the specification (the template
    id and the public key are empty, and so is the endpoint).  On a
    page with the mail client the contact handler calls it instead of
    taking the demo path, and on a page without it the newsletter
    handler returns with the page untouched: no success is shown. *)
Lemma demo_strategy_counterexample :
  mailRelay_configured cfg_service_only = false
  /\ truthy (FORMSPREE_ENDPOINT cfg_service_only) = false
  /\ contact_onsubmit cfg_service_only true sample_dom
     = Normal (AwaitSend (lit "service_x") [] (ContactParams
                 (payload_of sample_dom)) [] contact_emailjs_settled)
              (busied (validated (hidden sample_dom)))
  /\ newsletter_onsubmit cfg_service_only false sample_dom
     = Normal Finished sample_dom.
Proof. repeat split; reflexivity. Qed.

(** ** C10: at most one alert is visible *)

Section Banners.





End Banners.

Section BannersOnThePage.








Variable cfg : Config.
Variable emailjs : bool.







End BannersOnThePage.




(** * Further properties of validate.js *)

(** ** Runs of the page, in general *)

Section Runs.

Variable cfg : Config.
Variable emailjs : bool.

Lemma resume_dom (k : Act unit) i p : dom (resume k i p) = dom_of (k (dom p)).
Proof. unfold resume. destruct (k (dom p)); reflexivity. Qed.

Lemma resume_calls (k : Act unit) i p : calls (resume k i p) = calls p.
Proof. unfold resume. destruct (k (dom p)); reflexivity. Qed.

Lemma dispatch_dom form p :
  dom (dispatch_submit cfg emailjs form p)
  = dom_of (onsubmit form cfg emailjs (dom p)).
Proof.
  unfold dispatch_submit.
  destruct (onsubmit form cfg emailjs (dom p)) as [[ | | | ] ? | ? ?];
    reflexivity.
Qed.

Lemma submit_known form p :
  Forall known (in_flight p) ->
  Forall known (in_flight (dispatch_submit cfg emailjs form p)).
Proof.
  intros H. unfold dispatch_submit.
  destruct (onsubmit form cfg emailjs (dom p))
    as [[ | sid tid params pk k | url init k | delay k] d' | e d'] eqn:E;
    cbn [in_flight]; auto;
    apply Forall_app; (split; [exact H | ]);
    (constructor; [ | constructor]); simpl.
  - exact (onsubmit_send_continuation _ _ _ _ E).
  - exact (onsubmit_fetch_continuation _ _ _ _ E).
  - destruct (onsubmit_timer_continuation _ _ _ _ E) as (F & _ & K). auto.
Qed.

Lemma resume_known (k : Act unit) i p :
  Forall known (in_flight p) -> Forall known (in_flight (resume k i p)).
Proof.
  intros H. unfold resume.
  destruct (k (dom p)); cbn [in_flight]; apply Forall_remove_at; exact H.
Qed.

Lemma step_known ev p :
  Forall known (in_flight p) ->
  Forall known (in_flight (step cfg emailjs ev p)).
Proof.
  intros H. destruct ev as [form | i r | i r | i | ms | target text]; simpl;
    auto using submit_known.
  - destruct (nth_error (in_flight p) i) as [[ | | ] | ];
      auto using resume_known.
  - destruct (nth_error (in_flight p) i) as [[ | | ] | ];
      auto using resume_known.
  - destruct (nth_error (in_flight p) i) as [[ | | ? due ?] | ]; auto.
    destruct (due <=? clock p)%N; auto using resume_known.
Qed.

Lemma run_known evs :
  forall p, Forall known (in_flight p) ->
            Forall known (in_flight (run cfg emailjs evs p)).
Proof.
  induction evs as [ | ev evs IH]; intros p H; simpl; auto.
  apply IH. apply step_known. exact H.
Qed.

(** A property of the DOM that every handler, every continuation and
    typing keep holds along every run. *)
Lemma run_dom_invariant (P : Dom -> Prop) :
  (forall form d, P d -> P (dom_of (onsubmit form cfg emailjs d))) ->
  (forall form r d, P d -> P (dom_of (emailjs_settled form r d))) ->
  (forall form r d, P d -> P (dom_of (formspree_settled form r d))) ->
  (forall d, P d -> P (dom_of (contact_demo_fired d))) ->
  (forall target text d, P d -> P (type_text target text d)) ->
  forall evs p, Forall known (in_flight p) -> P (dom p) ->
                P (dom (run cfg emailjs evs p)).
Proof.
  intros Hsub Hsend Hfetch Htimer Htype.
  induction evs as [ | ev evs IH]; intros p Hk Hp; simpl; auto.
  apply IH; [apply step_known; exact Hk | ].
  pose proof Hk as Hk'. rewrite Forall_forall in Hk'.
  destruct ev as [form | i r | i r | i | ms | target text]; simpl; auto.
  - rewrite dispatch_dom. auto.
  - destruct (nth_error (in_flight p) i) as [[form k | | ] | ] eqn:E; auto.
    rewrite resume_dom. rewrite (Hk' _ (nth_error_In _ _ E)). auto.
  - destruct (nth_error (in_flight p) i) as [[ | form k | ] | ] eqn:E; auto.
    rewrite resume_dom. rewrite (Hk' _ (nth_error_In _ _ E)). auto.
  - destruct (nth_error (in_flight p) i) as [[ | | form due k] | ] eqn:E; auto.
    destruct (due <=? clock p)%N; auto.
    rewrite resume_dom.
    destruct (Hk' _ (nth_error_In _ _ E)) as [_ ->]. auto.
Qed.

(** If moreover nothing throws where the property holds, no exception
    is ever left unhandled. *)
Lemma run_quiet (P : Dom -> Prop) :
  (forall form d, P d -> P (dom_of (onsubmit form cfg emailjs d))) ->
  (forall form r d, P d -> P (dom_of (emailjs_settled form r d))
                           /\ is_normal (emailjs_settled form r d) = true) ->
  (forall form r d, P d -> P (dom_of (formspree_settled form r d))
                           /\ is_normal (formspree_settled form r d) = true) ->
  (forall d, P d -> P (dom_of (contact_demo_fired d))
                    /\ is_normal (contact_demo_fired d) = true) ->
  (forall target text d, P d -> P (type_text target text d)) ->
  forall evs p, Forall known (in_flight p) -> P (dom p) ->
                unhandled (run cfg emailjs evs p) = unhandled p.
Proof.
  intros Hsub Hsend Hfetch Htimer Htype.
  assert (Hres : forall (k : Act unit) i p,
             is_normal (k (dom p)) = true ->
             unhandled (resume k i p) = unhandled p).
  { intros k i p. unfold resume.
    destruct (k (dom p)); [reflexivity | discriminate]. }
  induction evs as [ | ev evs IH]; intros p Hk Hp; simpl; auto.
  assert (Hstep : P (dom (step cfg emailjs ev p))).
  { apply (run_dom_invariant P Hsub
             (fun f r d H => proj1 (Hsend f r d H))
             (fun f r d H => proj1 (Hfetch f r d H))
             (fun d H => proj1 (Htimer d H)) Htype [ev] p Hk Hp). }
  rewrite IH; [ | apply step_known; exact Hk | exact Hstep].
  pose proof Hk as Hk'. rewrite Forall_forall in Hk'.
  destruct ev as [form | i r | i r | i | ms | target text]; simpl; auto.
  - unfold dispatch_submit.
    pose proof (@onsubmit_never_throws cfg emailjs form (dom p)) as Hn.
    destruct (onsubmit form cfg emailjs (dom p)) as [[ | | | ] ? | e d'];
      try reflexivity.
    exfalso. exact (Hn e d' eq_refl).
  - destruct (nth_error (in_flight p) i) as [[form k | | ] | ] eqn:E; auto.
    apply Hres. rewrite (Hk' _ (nth_error_In _ _ E)). apply Hsend, Hp.
  - destruct (nth_error (in_flight p) i) as [[ | form k | ] | ] eqn:E; auto.
    apply Hres. rewrite (Hk' _ (nth_error_In _ _ E)). apply Hfetch, Hp.
  - destruct (nth_error (in_flight p) i) as [[ | | form due k] | ] eqn:E; auto.
    destruct (due <=? clock p)%N; auto.
    apply Hres. destruct (Hk' _ (nth_error_In _ _ E)) as [_ ->].
    apply Htimer, Hp.
Qed.

End Runs.

Section RunsByParts.

Variable cfg : Config.
Variable emailjs : bool.
Variable P : Dom -> Prop.

Hypothesis P_hidden : forall d, P d -> P (hidden d).
Hypothesis P_validated : forall d, P d -> P (validated d).
Hypothesis P_announced : forall d, P (validated (hidden d)) ->
                                   P (announced (validated (hidden d))).
Hypothesis P_busied : forall d, P d -> P (busied d).
Hypothesis P_said : forall m r d, P d -> P (said m r d).
Hypothesis P_reset_newsletter : forall d, P d -> P (reset_newsletter d).
Hypothesis P_focused : forall d, P d -> P (focused d).
Hypothesis P_succeed : forall d, P d -> P (dom_of (succeed d)).
Hypothesis P_fail_with :
  forall m d, truthy m = true -> P d -> P (dom_of (fail_with m d)).
Hypothesis P_type_text : forall t text d, P d -> P (type_text t text d).

Lemma P_onsubmit form d : P d -> P (dom_of (onsubmit form cfg emailjs d)).
Proof.
  intros H. destruct form; simpl.
  - rewrite newsletter_onsubmit_eval.
    destruct (newsletter_email d) as [el | ]; [ | exact H].
    destruct (isEmailValid (trim (value el))); [ | simpl; auto].
    destruct (negb (truthy (EMAILJS_SERVICE_ID cfg))
              && negb (truthy (FORMSPREE_ENDPOINT cfg))); [simpl; auto | ].
    destruct (truthy (FORMSPREE_ENDPOINT cfg)); [exact H | ].
    destruct (truthy (EMAILJS_SERVICE_ID cfg) && emailjs); exact H.
  - rewrite contact_onsubmit_eval. destruct (valid_of d); simpl; auto.
Qed.

Lemma P_emailjs_settled form r d :
  P d -> P (dom_of (emailjs_settled form r d)).
Proof.
  intros H. destruct form; simpl.
  - rewrite newsletter_emailjs_settled_eval. destruct r; simpl; auto.
  - rewrite contact_emailjs_settled_eval. destruct r; auto.
Qed.

Lemma P_formspree_settled form r d :
  P d -> P (dom_of (formspree_settled form r d)).
Proof.
  intros H. destruct form; simpl.
  - rewrite newsletter_formspree_settled_eval.
    destruct r as [status | ]; [destruct (ok status) | ]; simpl; auto.
  - rewrite contact_formspree_settled_eval.
    destruct r as [status | ]; [destruct (ok status) | ]; auto.
Qed.

Lemma P_demo_fired d : P d -> P (dom_of (contact_demo_fired d)).
Proof. rewrite contact_demo_fired_eval. auto. Qed.

(** A property that every stage of the handlers keeps holds along
    every run. *)
Lemma run_invariant_by_parts evs p :
  Forall known (in_flight p) -> P (dom p) -> P (dom (run cfg emailjs evs p)).
Proof.
  apply run_dom_invariant;
    auto using P_onsubmit, P_emailjs_settled, P_formspree_settled,
      P_demo_fired.
Qed.

End RunsByParts.

(** ** Guards, exceptions and alerts *)

(** X1.  The part of either handler that runs on the submit event
    never throws, whatever the page lacks: every element may be
    missing, and the mail client too. *)
Theorem handlers_never_throw (form : FormId) (cfg : Config) (emailjs : bool)
    (d : Dom) :
  is_normal (onsubmit form cfg emailjs d) = true.
Proof.
  pose proof (@onsubmit_never_throws cfg emailjs form d) as H.
  destruct (onsubmit form cfg emailjs d) as [s d' | e d']; [reflexivity | ].
  exfalso. exact (H e d' eq_refl).
Qed.

Section WritableAlert.

Lemma error_writable_fail_with m d :
  truthy m = true -> error_writable d = true ->
  error_writable (dom_of (fail_with m d)) = true
  /\ is_normal (fail_with m d) = true.
Proof.
  unfold error_writable, fail_with. intros _.
  destruct d as [? ? ? ? ? ? ? ? ? ? ? [el | ] ? ?]; simpl; auto.
  intros W. rewrite W. simpl. split; [ | reflexivity].
  unfold writable in *. simpl.
  destruct (body el) as [t | l [n | ]]; auto.
Qed.

End WritableAlert.

(** X2.  On a page whose error alert is missing, is plain text, or has
    a node after its label, no exception ever escapes a handler or a
    continuation, whatever is submitted and however the sends settle;
    and the alert stays of that kind. *)
Theorem writable_alert_no_exception (cfg : Config) (emailjs : bool)
    (d : Dom) (evs : list Event) :
  error_writable d = true ->
  unhandled (run cfg emailjs evs (fresh_page d)) = []
  /\ error_writable (dom (run cfg emailjs evs (fresh_page d))) = true.
Proof.
  intros W.
  assert (Hh : forall d0, error_writable d0 = true ->
                          error_writable (hidden d0) = true).
  { intros d0. unfold error_writable, writable.
    destruct d0 as [? ? ? ? ? ? ? ? ? ? ? [el | ] ? ?]; simpl; auto. }
  assert (Hv : forall d0, error_writable d0 = true ->
                          error_writable (validated d0) = true)
    by (intros d0; destruct d0; auto).
  assert (Ha : forall d0, error_writable (validated (hidden d0)) = true ->
                 error_writable (announced (validated (hidden d0))) = true).
  { intros d0 _.
    destruct d0 as [? ? ? ? ? ? ? ? ? ? ? [el | ] ? ?]; reflexivity. }
  assert (Hb : forall d0, error_writable d0 = true ->
                          error_writable (busied d0) = true)
    by (intros d0; destruct d0; auto).
  assert (Hs : forall m r d0, error_writable d0 = true ->
                              error_writable (said m r d0) = true).
  { intros m r d0. unfold said.
    destruct (newsletter_feedback d0); destruct d0; auto. }
  assert (Hr : forall d0, error_writable d0 = true ->
                          error_writable (reset_newsletter d0) = true)
    by (intros d0; destruct d0; auto).
  assert (Hf : forall d0, error_writable d0 = true ->
                          error_writable (focused d0) = true)
    by (intros d0; destruct d0; auto).
  assert (Hsu : forall d0, error_writable d0 = true ->
                           error_writable (dom_of (succeed d0)) = true)
    by (intros d0; destruct d0; auto).
  assert (Hfw : forall m d0, truthy m = true -> error_writable d0 = true ->
                  error_writable (dom_of (fail_with m d0)) = true)
    by (intros m d0 T H; apply (error_writable_fail_with m d0 T H)).
  assert (Ht : forall t text d0, error_writable d0 = true ->
                 error_writable (type_text t text d0) = true).
  { intros t text d0. destruct t as [ | f]; [ | destruct f];
      destruct d0; auto. }
  split.
  - apply (run_quiet cfg emailjs (fun d0 => error_writable d0 = true)).
    + intros form d0. apply P_onsubmit; auto.
    + intros form r d0 H. split; [apply P_emailjs_settled; auto | ].
      destruct form; simpl.
      * rewrite newsletter_emailjs_settled_eval. reflexivity.
      * rewrite contact_emailjs_settled_eval.
        destruct r; [reflexivity | ].
        apply error_writable_fail_with; auto.
    + intros form r d0 H. split; [apply P_formspree_settled; auto | ].
      destruct form; simpl.
      * rewrite newsletter_formspree_settled_eval. reflexivity.
      * rewrite contact_formspree_settled_eval.
        destruct r as [status | ]; [destruct (ok status) | ];
          try reflexivity; apply error_writable_fail_with; auto.
    + intros d0 H. split; [apply P_demo_fired; auto | ].
      rewrite contact_demo_fired_eval. reflexivity.
    + exact Ht.
    + constructor.
    + exact W.
  - apply (run_invariant_by_parts cfg emailjs
             (fun d0 => error_writable d0 = true)); auto.
Qed.

Lemma writable_alert_no_exception_witness :
  unhandled
    (run cfg_endpoint false
       [Submit ContactForm; FetchSettles 0 (Responds 500);
        Submit ContactForm; FetchSettles 0 (FetchThrows (lit "offline"))]
       (fresh_page sample_dom)) = [].
Proof.
  apply (proj1 (@writable_alert_no_exception cfg_endpoint false sample_dom
                  [Submit ContactForm; FetchSettles 0 (Responds 500);
                   Submit ContactForm;
                   FetchSettles 0 (FetchThrows (lit "offline"))]
                  eq_refl)).
Defined.

(** X3.  Where the error alert has a [<strong>] label and no node
    after it, every failure of the contact form ends in a [TypeError]:
    the alert has lost [d-none] but its text and its [aria-hidden] are
    as before, the fields are as the visitor left them, and the
    [finally] has still stopped the spinner. *)
Theorem bare_label_failure (d : Dom) (el : Alert) (label : jsstring) :
  contact_error d = Some el ->
  body el = Labelled label None ->
  forall k : Completion unit,
    (exists reason, k = contact_emailjs_settled (SendRejects reason) d)
    \/ (exists status, ok status = false
                       /\ k = contact_formspree_settled (Responds status) d)
    \/ (exists reason, k = contact_formspree_settled (FetchThrows reason) d) ->
    exists d', k = Throw TypeError d'
               /\ contact_error d' = Some (unhidden el)
               /\ contact_success d' = contact_success d
               /\ inputs d' = inputs d
               /\ busy_of d' = busy_of (idle d).
Proof.
  intros E B k Hk.
  assert (F : forall m,
             exists d', fail_with m d = Throw TypeError d'
                        /\ contact_error d' = Some (unhidden el)
                        /\ contact_success d' = contact_success d
                        /\ inputs d' = inputs d
                        /\ busy_of d' = busy_of (idle d)).
  { intros m. unfold fail_with. rewrite E. unfold writable. rewrite B.
    eexists. split; [reflexivity | ]. destruct d; simpl in *. auto. }
  destruct Hk as [[reason ->] | [[status [O ->]] | [reason ->]]].
  - rewrite contact_emailjs_settled_eval. apply F.
  - rewrite contact_formspree_settled_eval, O. apply F.
  - rewrite contact_formspree_settled_eval. apply F.
Qed.

Lemma bare_label_failure_witness :
  exists d',
    contact_formspree_settled (Responds 500) bare_label_dom
    = Throw TypeError d'
    /\ contact_error d'
       = Some {| d_none := false; aria_hidden := Some (lit "true");
                 body := Labelled (lit "Error") None |}.
Proof.
  destruct (@bare_label_failure bare_label_dom _ (lit "Error")
              eq_refl eq_refl
              (contact_formspree_settled (Responds 500) bare_label_dom)
              (or_intror (or_introl (ex_intro _ 500%Z (conj eq_refl eq_refl)))))
    as (d' & H1 & H2 & _).
  exists d'. split; [exact H1 | exact H2].
Defined.

(** X4.  Once an incomplete contact form was submitted on a page with
    an error alert, the alert holds "Please complete the required
    fields." as plain text for the rest of the page's life: the
    assignment to [textContent] removed the label, so no message of a
    later failed send is ever written into it. *)
Theorem required_text_stays (cfg : Config) (emailjs : bool) (d : Dom)
    (evs1 evs2 : list Event) :
  let p := run cfg emailjs evs1 (fresh_page d) in
  contact_error (dom p) <> None ->
  valid_of (dom p) = false ->
  asks_required (dom (run cfg emailjs (Submit ContactForm :: evs2) p)).
Proof.
  intros p Hel Hv.
  change (run cfg emailjs (Submit ContactForm :: evs2) p)
    with (run cfg emailjs evs2 (step cfg emailjs (Submit ContactForm) p)).
  apply (run_invariant_by_parts cfg emailjs asks_required);
    unfold asks_required.
  - intros d0. destruct d0 as [? ? ? ? ? ? ? ? ? ? ? [el | ] ? ?]; auto.
  - intros d0. destruct d0; auto.
  - intros d0.
    destruct d0 as [? ? ? ? ? ? ? ? ? ? ? [el | ] ? ?]; simpl; auto.
  - intros d0. destruct d0; auto.
  - intros m r d0. unfold said.
    destruct (newsletter_feedback d0); destruct d0; auto.
  - intros d0. destruct d0; auto.
  - intros d0. destruct d0; auto.
  - intros d0. destruct d0; auto.
  - intros m d0 _. unfold fail_with.
    destruct d0 as [? ? ? ? ? ? ? ? ? ? ? [el | ] ? ?]; simpl;
      [ | discriminate].
    intros H. injection H as H. unfold writable. rewrite H. simpl.
    unfold with_message. rewrite H. reflexivity.
  - intros t text d0. destruct t as [ | f]; [ | destruct f];
      destruct d0; auto.
  - apply step_known. apply run_known. constructor.
  - simpl. rewrite dispatch_dom. simpl. rewrite contact_onsubmit_eval, Hv.
    simpl. destruct (dom p) as [? ? ? ? ? ? ? ? ? ? ? [el | ] ? ?];
      simpl in *; [reflexivity | congruence].
Qed.

Lemma required_text_stays_witness :
  asks_required
    (dom (run cfg_endpoint false
            [Submit ContactForm;
             Types (ContactField Name) (lit "Ada");
             Types (ContactField Email) (lit "ada@example.org");
             Types (ContactField Subject) (lit "Hello");
             Types (ContactField Message) (lit "Hi");
             Submit ContactForm; FetchSettles 0 (Responds 500)]
            (run cfg_endpoint false [] (fresh_page empty_contact_dom)))).
Proof.
  apply (@required_text_stays cfg_endpoint false empty_contact_dom []
           [Types (ContactField Name) (lit "Ada");
            Types (ContactField Email) (lit "ada@example.org");
            Types (ContactField Subject) (lit "Hello");
            Types (ContactField Message) (lit "Hi");
            Submit ContactForm; FetchSettles 0 (Responds 500)]).
  - discriminate.
  - reflexivity.
Defined.

Ltac stage := let d0 := fresh "d" in intros d0; destruct d0; simpl; auto.

(** ** What assistive technology is told *)

Section Aria.

Lemma aria_agrees_hide a el :
  hide a = Some el -> aria_agrees el = true.
Proof.
  destruct a as [x | ]; simpl; [ | discriminate].
  intros H. injection H as <-. reflexivity.
Qed.

Lemma unhidden_aria el :
  aria_agrees el = true \/ shown_as_hidden el ->
  aria_agrees (unhidden el) = true \/ shown_as_hidden (unhidden el).
Proof.
  unfold aria_agrees, shown_as_hidden, unhidden. simpl.
  destruct el as [dn [v | ] b]; simpl.
  - destruct dn.
    + intros [H | [H _]]; [ | discriminate]. right. split; [reflexivity | ].
      destruct (list_eq_dec N.eq_dec v (lit "true")) as [-> | ];
        [reflexivity | discriminate].
    + auto.
  - intros [H | [_ H]]; discriminate.
Qed.

End Aria.

(** X5.  From the first submit of the contact form on, the success
    alert's [aria-hidden] always says what its [d-none] class says.
    The error alert's does too, or the alert is visible while still
    marked [aria-hidden="true"]; and that is how a failed validation
    leaves it. *)
Theorem aria_hidden_consistency (cfg : Config) (emailjs : bool) (d : Dom)
    (evs : list Event) :
  let d' := dom (run cfg emailjs (Submit ContactForm :: evs) (fresh_page d)) in
  (forall a, contact_success d' = Some a -> aria_agrees a = true)
  /\ (forall a, contact_error d' = Some a ->
                aria_agrees a = true \/ shown_as_hidden a)
  /\ (forall a,
        contact_error (dom (run cfg emailjs [Submit ContactForm]
                              (fresh_page d))) = Some a ->
        if valid_of d then aria_agrees a = true else shown_as_hidden a).
Proof.
  intros d'. subst d'.
  change (run cfg emailjs (Submit ContactForm :: evs) (fresh_page d))
    with (run cfg emailjs evs
            (step cfg emailjs (Submit ContactForm) (fresh_page d))).
  assert (Hk : Forall known
                 (in_flight (step cfg emailjs (Submit ContactForm)
                               (fresh_page d))))
    by (apply step_known; constructor).
  assert (Hd : dom (step cfg emailjs (Submit ContactForm) (fresh_page d))
               = if valid_of d then busied (validated (hidden d))
                 else announced (validated (hidden d))).
  { simpl. rewrite dispatch_dom. simpl. rewrite contact_onsubmit_eval.
    destruct (valid_of d); reflexivity. }
  split; [ | split].
  - apply (run_invariant_by_parts cfg emailjs
             (fun d0 => forall a, contact_success d0 = Some a ->
                                  aria_agrees a = true)).
    + intros d0 _ a. destruct d0. simpl. apply aria_agrees_hide.
    + stage.
    + stage.
    + stage.
    + intros m r d0. unfold said.
      destruct (newsletter_feedback d0); destruct d0; auto.
    + stage.
    + stage.
    + intros d0 _ a. destruct d0 as [? ? ? ? ? ? ? ? ? ? [el | ] ? ? ?];
        simpl; [ | discriminate].
      intros H. injection H as <-. reflexivity.
    + intros m d0 _. unfold fail_with.
      destruct d0 as [? ? ? ? ? ? ? ? ? ? ? [el | ] ? ?]; simpl; auto.
      destruct (writable el); simpl; auto.
    + intros t text d0. destruct t as [ | f]; [ | destruct f];
        destruct d0; auto.
    + exact Hk.
    + rewrite Hd. intros a.
      destruct (valid_of d); destruct d; simpl; apply aria_agrees_hide.
  - apply (run_invariant_by_parts cfg emailjs
             (fun d0 => forall a, contact_error d0 = Some a ->
                                  aria_agrees a = true
                                  \/ shown_as_hidden a)).
    + intros d0 _ a. destruct d0. simpl. intros H. left.
      exact (aria_agrees_hide _ H).
    + stage.
    + intros d0 _ a.
      destruct d0 as [? ? ? ? ? ? ? ? ? ? ? [el | ] ? ?]; simpl;
        [ | discriminate].
      intros H. injection H as <-. right. split; reflexivity.
    + stage.
    + intros m r d0. unfold said.
      destruct (newsletter_feedback d0); destruct d0; auto.
    + stage.
    + stage.
    + stage.
    + intros m d0 _. unfold fail_with.
      destruct d0 as [? ? ? ? ? ? ? ? ? ? ? [el | ] ? ?]; simpl; auto.
      intros H a. destruct (writable el); simpl.
      * intros E. injection E as <-. left. reflexivity.
      * intros E. injection E as <-. apply unhidden_aria. auto.
    + intros t text d0. destruct t as [ | f]; [ | destruct f];
        destruct d0; auto.
    + exact Hk.
    + rewrite Hd. intros a.
      destruct (valid_of d).
      * destruct d. simpl. intros H. left. exact (aria_agrees_hide _ H).
      * destruct d as [? ? ? ? ? ? ? ? ? ? ? [el | ] ? ?]; simpl;
          [ | discriminate].
        intros H. injection H as <-. right. split; reflexivity.
  - intros a.
    change (run cfg emailjs [Submit ContactForm] (fresh_page d))
      with (step cfg emailjs (Submit ContactForm) (fresh_page d)).
    rewrite Hd. destruct (valid_of d).
    + destruct d. simpl. apply aria_agrees_hide.
    + destruct d as [? ? ? ? ? ? ? ? ? ? ? [el | ] ? ?]; simpl;
        [ | discriminate].
      intros H. injection H as <-. split; reflexivity.
Qed.

(** X6.  If the spinner is visible exactly when the submit control is
    disabled as the page loads, it is so after every run: the two are
    only ever switched together. *)
Theorem spinner_follows_button (cfg : Config) (emailjs : bool) (d : Dom)
    (evs : list Event) :
  spinner_follows d ->
  spinner_follows (dom (run cfg emailjs evs (fresh_page d))).
Proof.
  intros H.
  assert (B : forall d0 d1, busy_of d1 = busy_of d0 ->
                            spinner_follows d0 -> spinner_follows d1).
  { unfold spinner_follows, busy_of. intros d0 d1 E.
    injection E as -> ->. auto. }
  assert (I : forall d0, spinner_follows (idle d0)).
  { intros d0 b s. destruct d0 as [? ? ? ? ? ? ? ? ? ? ? ? [x | ] [y | ]];
      simpl; try discriminate.
    intros E1 E2. injection E1 as <-. injection E2 as <-. reflexivity. }
  assert (K : forall f : Dom -> Dom,
             (forall d0, busy_of (f d0) = busy_of d0) ->
             forall d0, spinner_follows d0 -> spinner_follows (f d0)).
  { intros f Hf d0. apply B, Hf. }
  apply (run_invariant_by_parts cfg emailjs spinner_follows).
  - apply K. intros d0. destruct d0; reflexivity.
  - apply K. intros d0. destruct d0; reflexivity.
  - intros d0. apply (K announced). intros d1. destruct d1; reflexivity.
  - intros d0 _ b s. destruct d0 as [? ? ? ? ? ? ? ? ? ? ? ? [x | ] [y | ]];
      simpl; try discriminate.
    intros E1 E2. injection E1 as <-. injection E2 as <-. reflexivity.
  - intros m r. apply K. intros d0. apply said_busy.
  - apply K. intros d0. destruct d0; reflexivity.
  - apply K. intros d0. destruct d0; reflexivity.
  - intros d0 _. unfold succeed. simpl.
    apply (B (idle d0)); [destruct d0; reflexivity | apply I].
  - intros m d0 _ _. unfold fail_with.
    destruct (contact_error d0) as [el | ]; [ | apply I].
    destruct (writable el); simpl;
      (apply (B (idle d0)); [ | apply (I d0)]); destruct d0; reflexivity.
  - intros t text. apply K. intros d0. destruct t as [ | f]; [ | destruct f];
      destruct d0; reflexivity.
  - constructor.
  - exact H.
Qed.

Lemma spinner_follows_button_witness :
  spinner_follows sample_dom
  /\ spinner_follows
       (dom (run cfg_endpoint false
               [Submit ContactForm; Submit NewsletterForm;
                FetchSettles 0 (Responds 200)] (fresh_page sample_dom))).
Proof.
  assert (H : spinner_follows sample_dom).
  { intros b s E1 E2. cbv in E1, E2.
    injection E1 as <-. injection E2 as <-. reflexivity. }
  split; [exact H | ].
  exact (@spinner_follows_button cfg_endpoint false sample_dom
           [Submit ContactForm; Submit NewsletterForm;
            FetchSettles 0 (Responds 200)] H).
Defined.

(** X7.  Nothing ever hides the newsletter's feedback line again once
    it is visible, and nothing takes [role="alert"] from it once it
    has it: after one invalid entry, every later message, also that of
    a subscription that succeeded, is in an alert. *)
Theorem feedback_sticks (cfg : Config) (emailjs : bool) (d : Dom)
    (evs : list Event) :
  (feedback_visible d ->
   feedback_visible (dom (run cfg emailjs evs (fresh_page d))))
  /\ (feedback_alerts d ->
      feedback_alerts (dom (run cfg emailjs evs (fresh_page d)))).
Proof.
  split; intros H.
  - apply (run_invariant_by_parts cfg emailjs feedback_visible);
      unfold feedback_visible; try solve [stage | constructor].
    + intros m r d0. unfold said.
      destruct d0 as [? [fb | ] ? ? ? ? ? ? ? ? ? ? ? ?]; simpl; auto.
    + intros m d0 _. unfold fail_with.
      destruct (contact_error d0) as [el | ]; [destruct (writable el) | ];
        destruct d0; auto.
    + intros t text d0. destruct t as [ | f]; [ | destruct f];
        destruct d0; auto.
    + exact H.
  - apply (run_invariant_by_parts cfg emailjs feedback_alerts);
      unfold feedback_alerts; try solve [stage | constructor].
    + intros m r d0. unfold said.
      destruct d0 as [? [fb | ] ? ? ? ? ? ? ? ? ? ? ? ?]; simpl; auto.
      destruct r; auto.
    + intros m d0 _. unfold fail_with.
      destruct (contact_error d0) as [el | ]; [destruct (writable el) | ];
        destruct d0; auto.
    + intros t text d0. destruct t as [ | f]; [ | destruct f];
        destruct d0; auto.
    + exact H.
Qed.

Lemma feedback_sticks_witness :
  feedback_alerts
    (dom (run cfg_endpoint false
            [Types NewsletterEmail (lit "a@b.co"); Submit NewsletterForm;
             FetchSettles 0 (Responds 200)]
            (fresh_page
               (dom (run cfg_endpoint false
                       [Types NewsletterEmail (lit "nobody");
                        Submit NewsletterForm] (fresh_page sample_dom)))))).
Proof.
  apply (proj2 (@feedback_sticks cfg_endpoint false
                  (dom (run cfg_endpoint false
                          [Types NewsletterEmail (lit "nobody");
                           Submit NewsletterForm] (fresh_page sample_dom)))
                  [Types NewsletterEmail (lit "a@b.co");
                   Submit NewsletterForm; FetchSettles 0 (Responds 200)])).
  reflexivity.
Defined.

(** ** What leaves the page *)

Section Calls.

Variable cfg : Config.
Variable emailjs : bool.

Lemma dispatch_calls form p :
  calls (dispatch_submit cfg emailjs form p)
  = calls p ++ issued cfg emailjs form (dom p).
Proof.
  unfold dispatch_submit, issued.
  destruct (onsubmit form cfg emailjs (dom p)) as [[ | | | ] ? | ? ?];
    cbn [calls]; rewrite ?app_nil_r; reflexivity.
Qed.

Lemma step_calls ev p :
  calls (step cfg emailjs ev p)
  = calls p ++ match ev with
               | Submit form => issued cfg emailjs form (dom p)
               | _ => []
               end.
Proof.
  destruct ev as [form | i r | i r | i | ms | target text]; simpl;
    rewrite ?app_nil_r; try reflexivity.
  - apply dispatch_calls.
  - destruct (nth_error (in_flight p) i) as [[ | | ] | ];
      rewrite ?resume_calls; reflexivity.
  - destruct (nth_error (in_flight p) i) as [[ | | ] | ];
      rewrite ?resume_calls; reflexivity.
  - destruct (nth_error (in_flight p) i) as [[ | | ? due ?] | ];
      try reflexivity.
    destruct (due <=? clock p)%N; rewrite ?resume_calls; reflexivity.
Qed.

Lemma passes_value good i :
  passes good i = true -> good (value_of true i) = true.
Proof. destruct i; simpl; [auto | discriminate]. Qed.

Lemma valid_payload_sound d :
  valid_of d = true -> sound_params ContactForm (ContactParams (payload_of d)).
Proof.
  unfold valid_of. rewrite !andb_true_iff. intros [[[H1 H2] H3] H4].
  simpl. auto using passes_value.
Qed.

Lemma issued_sound form d :
  Forall (sound_call cfg emailjs) (issued cfg emailjs form d).
Proof.
  unfold issued. destruct form; simpl.
  - rewrite newsletter_onsubmit_eval.
    destruct (newsletter_email d) as [el | ]; [ | constructor].
    destruct (isEmailValid (trim (value el))) eqn:V; [ | constructor].
    destruct (truthy (EMAILJS_SERVICE_ID cfg)) eqn:S;
      destruct (truthy (FORMSPREE_ENDPOINT cfg)) eqn:F;
      destruct emailjs eqn:J; simpl; repeat constructor; auto.
  - rewrite contact_onsubmit_eval.
    destruct (valid_of d) eqn:V; [ | constructor].
    pose proof (valid_payload_sound d V) as Hp.
    unfold select_by_service_id.
    destruct (truthy (EMAILJS_SERVICE_ID cfg)) eqn:S;
      destruct (truthy (FORMSPREE_ENDPOINT cfg)) eqn:F;
      destruct emailjs eqn:J; simpl; repeat constructor; auto;
      apply Hp.
Qed.

End Calls.

(** X8.  Every call that ever leaves the page was validated: a
    [fetch] goes to the configured, non-empty endpoint by POST, a
    [send] carries the three configured ids, with a non-empty service
    id and the mail client present; a newsletter call carries an
    address [isEmailValid] accepts, a contact call a payload whose
    name, subject and message are non-empty and whose email it
    accepts. *)
Theorem calls_are_validated (cfg : Config) (emailjs : bool) (d : Dom)
    (evs : list Event) :
  Forall (sound_call cfg emailjs)
         (calls (run cfg emailjs evs (fresh_page d))).
Proof.
  assert (G : forall p, Forall (sound_call cfg emailjs) (calls p) ->
                Forall (sound_call cfg emailjs)
                       (calls (run cfg emailjs evs p))).
  { induction evs as [ | ev evs IH]; intros p H; simpl; auto.
    apply IH. rewrite step_calls. apply Forall_app. split; [exact H | ].
    destruct ev; try constructor. apply issued_sound. }
  apply G. constructor.
Qed.

(** ** Submitting again *)

Section Values.

Lemma values_valid d1 d2 :
  values d1 = values d2 ->
  valid_of d1 = valid_of d2 /\ payload_of d1 = payload_of d2.
Proof.
  assert (P : forall good (x y : option Input),
             option_map (fun el => (value el, defaultValue el)) x
             = option_map (fun el => (value el, defaultValue el)) y ->
             passes good x = passes good y
             /\ forall b, value_of b x = value_of b y).
  { intros good [x | ] [y | ]; simpl; try discriminate; auto.
    intros H. injection H as -> _. auto. }
  unfold values, inputs. simpl. intros H.
  injection H as H1 H2 H3 H4 H5 H6 H7.
  unfold valid_of, payload_of.
  destruct (P truthy _ _ H1) as [-> ->].
  destruct (P isEmailValid _ _ H2) as [-> ->].
  destruct (P truthy _ _ H3) as [_ ->].
  destruct (P truthy _ _ H4) as [_ ->].
  destruct (P truthy _ _ H5) as [-> ->].
  destruct (P truthy _ _ H6) as [-> ->].
  destruct (P truthy _ _ H7) as [_ ->].
  auto.
Qed.

Lemma values_inputs d1 d2 : inputs d1 = inputs d2 -> values d1 = values d2.
Proof. unfold values. intros ->. reflexivity. Qed.

Lemma values_validated d : values (validated d) = values d.
Proof.
  destruct d as [? ? ? [a | ] [b | ] ? ? [c | ] [e | ] ? ? ? ? ?];
    reflexivity.
Qed.

Lemma values_hidden d : values (hidden d) = values d.
Proof. destruct d. reflexivity. Qed.

Lemma values_busied d : values (busied d) = values d.
Proof. destruct d. reflexivity. Qed.

Lemma values_announced d : values (announced d) = values d.
Proof. destruct d. reflexivity. Qed.

Lemma values_fail_with m d : values (dom_of (fail_with m d)) = values d.
Proof. apply values_inputs, fail_with_fields. Qed.

Lemma values_contact_onsubmit cfg emailjs d :
  values (dom_of (contact_onsubmit cfg emailjs d)) = values d.
Proof.
  rewrite contact_onsubmit_eval. destruct (valid_of d); simpl.
  - rewrite values_busied, values_validated. apply values_hidden.
  - rewrite values_announced, values_validated. apply values_hidden.
Qed.

End Values.

(** X10.  The contact handler never changes what the visitor typed,
    and running it a second time on the page it left gives the same
    page and the same send: on a page it has already marked, hidden
    the alerts of and set busy, it changes nothing more. *)
Theorem contact_submit_idempotent (cfg : Config) (emailjs : bool) (d : Dom) :
  values (dom_of (contact_onsubmit cfg emailjs d)) = values d
  /\ contact_onsubmit cfg emailjs (dom_of (contact_onsubmit cfg emailjs d))
     = contact_onsubmit cfg emailjs d.
Proof.
  split; [apply values_contact_onsubmit | ].
  destruct (values_valid (values_contact_onsubmit cfg emailjs d))
    as [V Pl].
  rewrite (@contact_onsubmit_eval cfg emailjs
             (dom_of (contact_onsubmit cfg emailjs d))).
  rewrite V, Pl. rewrite !contact_onsubmit_eval.
  destruct (valid_of d); simpl.
  - f_equal.
    destruct d as [? ? ? [a | ] [b | ] ? ? [c | ] [e | ] ? [s | ] [t | ]
                   [x | ] [y | ]]; reflexivity.
  - f_equal.
    destruct d as [? ? ? [a | ] [b | ] ? ? [c | ] [e | ] ? [s | ] [t | ]
                   [x | ] [y | ]]; reflexivity.
Qed.

(** X11.  After a failed send the visitor's only way on is to submit
    again, and that works without retyping: the second submit issues
    the very call of the first, to the endpoint after any response
    that is not [ok] or any transport failure, and through the mail
    client after any rejection. *)
Theorem resubmit_resends (cfg : Config) (emailjs : bool) (d : Dom) :
  valid_of d = true ->
  (select_by_service_id cfg emailjs = FormRelayStrategy ->
   forall r, formRelay_outcome ContactForm r <> Success ->
     calls (run cfg emailjs
              [Submit ContactForm; FetchSettles 0 r; Submit ContactForm]
              (fresh_page d))
     = [contact_fetch_call cfg d; contact_fetch_call cfg d])
  /\ (select_by_service_id cfg emailjs = MailRelayStrategy ->
      forall reason,
        calls (run cfg emailjs
                 [Submit ContactForm; SendSettles 0 (SendRejects reason);
                  Submit ContactForm] (fresh_page d))
        = [contact_send_call cfg d; contact_send_call cfg d]).
Proof.
  intros V.
  assert (A : forall m,
             values (dom_of (fail_with m (busied (validated (hidden d)))))
             = values d).
  { intros m.
    rewrite values_fail_with, values_busied, values_validated.
    apply values_hidden. }
  assert (I : forall d', values d' = values d ->
                issued cfg emailjs ContactForm d'
                = issued cfg emailjs ContactForm d).
  { intros d' E. destruct (values_valid E) as [E1 E2].
    unfold issued. simpl. rewrite !contact_onsubmit_eval, E1, E2.
    destruct (valid_of d); [ | reflexivity].
    destruct (select_by_service_id cfg emailjs); reflexivity. }
  assert (R : forall ev c,
             issued cfg emailjs ContactForm d = [c] ->
             calls (step cfg emailjs ev
                      (step cfg emailjs (Submit ContactForm) (fresh_page d)))
             = [c] ->
             values (dom (step cfg emailjs ev
                            (step cfg emailjs (Submit ContactForm)
                               (fresh_page d)))) = values d ->
             calls (run cfg emailjs [Submit ContactForm; ev; Submit ContactForm]
                      (fresh_page d)) = [c; c]).
  { intros ev c E1 E2 E3.
    change (run cfg emailjs [Submit ContactForm; ev; Submit ContactForm]
              (fresh_page d))
      with (step cfg emailjs (Submit ContactForm)
              (step cfg emailjs ev
                 (step cfg emailjs (Submit ContactForm) (fresh_page d)))).
    rewrite step_calls, E2, (I _ E3), E1. reflexivity. }
  split; intros S.
  - intros r Hr.
    assert (E : step cfg emailjs (Submit ContactForm) (fresh_page d)
                = {| dom := busied (validated (hidden d));
                     in_flight :=
                       [PendingFetch ContactForm contact_formspree_settled];
                     calls := [contact_fetch_call cfg d];
                     clock := 0; unhandled := [] |}).
    { simpl. unfold dispatch_submit. simpl.
      rewrite contact_onsubmit_eval, V, S. reflexivity. }
    apply R.
    + unfold issued. simpl. rewrite contact_onsubmit_eval, V, S.
      reflexivity.
    + rewrite step_calls, E. reflexivity.
    + rewrite E. cbn [step in_flight nth_error]. rewrite resume_dom.
      cbn [dom]. rewrite contact_formspree_settled_eval.
      destruct r as [status | reason]; simpl in Hr.
      * destruct (ok status); [congruence | apply A].
      * apply A.
  - intros reason.
    assert (E : step cfg emailjs (Submit ContactForm) (fresh_page d)
                = {| dom := busied (validated (hidden d));
                     in_flight :=
                       [PendingSend ContactForm contact_emailjs_settled];
                     calls := [contact_send_call cfg d];
                     clock := 0; unhandled := [] |}).
    { simpl. unfold dispatch_submit. simpl.
      rewrite contact_onsubmit_eval, V, S. reflexivity. }
    apply R.
    + unfold issued. simpl. rewrite contact_onsubmit_eval, V, S.
      reflexivity.
    + rewrite step_calls, E. reflexivity.
    + rewrite E. cbn [step in_flight nth_error]. rewrite resume_dom.
      cbn [dom]. rewrite contact_emailjs_settled_eval. apply A.
Qed.

Lemma resubmit_resends_witness :
  calls (run cfg_endpoint false
           [Submit ContactForm; FetchSettles 0 (Responds 500);
            Submit ContactForm] (fresh_page sample_dom))
  = [contact_fetch_call cfg_endpoint sample_dom;
     contact_fetch_call cfg_endpoint sample_dom].
Proof.
  apply (proj1 (@resubmit_resends cfg_endpoint false sample_dom eq_refl)
           eq_refl (Responds 500)).
  discriminate.
Defined.

(** ** The newsletter form *)

(** X12.  A newsletter submit whose trimmed entry [isEmailValid]
    rejects sends nothing under any configuration: no call is issued
    and nothing is left in flight; the entry stays as typed, the
    input is focused, and the feedback line, where there is one,
    becomes a visible alert with the text "Please enter a valid email
    address.".  With no [#newsletter-email] on the page the handler
    changes nothing at all. *)
Theorem newsletter_invalid_entry (cfg : Config) (emailjs : bool) (p : Page) :
  let q := step cfg emailjs (Submit NewsletterForm) p in
  match newsletter_email (dom p) with
  | None => q = p
  | Some el =>
      isEmailValid (trim (value el)) = false ->
      calls q = calls p /\ in_flight q = in_flight p
      /\ unhandled q = unhandled p
      /\ contact_part (dom q) = contact_part (dom p)
      /\ newsletter_email (dom q) = Some el
      /\ newsletter_email_focused (dom q) = true
      /\ newsletter_feedback (dom q)
         = option_map (fun _ => {| visually_hidden := false;
                                   textContent := msg_newsletter_invalid;
                                   role := Some (lit "alert") |})
                      (newsletter_feedback (dom p))
  end.
Proof.
  simpl. unfold dispatch_submit. simpl. rewrite newsletter_onsubmit_eval.
  destruct (newsletter_email (dom p)) as [el | ] eqn:E.
  - intros V. rewrite V. cbn [calls in_flight unhandled dom].
    repeat (split; [reflexivity | ]).
    unfold said. destruct (dom p) as [? [fb | ] ? ? ? ? ? ? ? ? ? ? ? ?];
      simpl in *; auto.
  - destruct p; reflexivity.
Qed.

Lemma newsletter_invalid_entry_witness :
  calls (run cfg_emailjs true
           [Types NewsletterEmail (lit "nobody@nowhere");
            Submit NewsletterForm] (fresh_page sample_dom)) = []
  /\ newsletter_email_focused
       (dom (run cfg_emailjs true
               [Types NewsletterEmail (lit "nobody@nowhere");
                Submit NewsletterForm] (fresh_page sample_dom))) = true.
Proof.
  pose proof (@newsletter_invalid_entry cfg_emailjs true
                (run cfg_emailjs true
                   [Types NewsletterEmail (lit "nobody@nowhere")]
                   (fresh_page sample_dom))) as H.
  destruct (H eq_refl) as (H1 & _ & _ & _ & _ & H3 & _).
  split; [exact H1 | exact H3].
Defined.

(** ** The two forms side by side *)

Section Independence.

Variable cfg : Config.
Variable emailjs : bool.

Lemma said_contact_part m r d : contact_part (said m r d) = contact_part d.
Proof. unfold said. destruct (newsletter_feedback d); destruct d; auto. Qed.

Lemma newsletter_onsubmit_contact_part d :
  contact_part (dom_of (newsletter_onsubmit cfg emailjs d)) = contact_part d.
Proof.
  rewrite newsletter_onsubmit_eval.
  destruct (newsletter_email d) as [el | ]; [ | reflexivity].
  destruct (isEmailValid (trim (value el))).
  - destruct (negb (truthy (EMAILJS_SERVICE_ID cfg))
              && negb (truthy (FORMSPREE_ENDPOINT cfg))).
    + simpl. rewrite <- (said_contact_part msg_newsletter_demo false d).
      destruct (said msg_newsletter_demo false d); reflexivity.
    + destruct (truthy (FORMSPREE_ENDPOINT cfg)); [reflexivity | ].
      destruct (truthy (EMAILJS_SERVICE_ID cfg) && emailjs); reflexivity.
  - simpl. rewrite <- (said_contact_part msg_newsletter_invalid true d).
    destruct (said msg_newsletter_invalid true d); reflexivity.
Qed.

Lemma newsletter_settled_contact_part d :
  (forall r, contact_part (dom_of (newsletter_emailjs_settled r d))
             = contact_part d)
  /\ (forall r, contact_part (dom_of (newsletter_formspree_settled r d))
                = contact_part d).
Proof.
  split; intros r.
  - rewrite newsletter_emailjs_settled_eval. destruct r; simpl.
    + rewrite <- (said_contact_part msg_newsletter_ok false d).
      destruct (said msg_newsletter_ok false d); reflexivity.
    + apply said_contact_part.
  - rewrite newsletter_formspree_settled_eval.
    destruct r as [status | ]; [destruct (ok status) | ]; simpl.
    + rewrite <- (said_contact_part msg_newsletter_ok false d).
      destruct (said msg_newsletter_ok false d); reflexivity.
    + apply said_contact_part.
    + apply said_contact_part.
Qed.

Lemma fail_with_newsletter_part m d :
  newsletter_part (dom_of (fail_with m d)) = newsletter_part d.
Proof.
  unfold fail_with.
  destruct (contact_error d) as [el | ]; [destruct (writable el) | ];
    destruct d; reflexivity.
Qed.

Lemma contact_settled_newsletter_part d :
  (forall r, newsletter_part (dom_of (contact_emailjs_settled r d))
             = newsletter_part d)
  /\ (forall r, newsletter_part (dom_of (contact_formspree_settled r d))
                = newsletter_part d)
  /\ newsletter_part (dom_of (contact_demo_fired d)) = newsletter_part d.
Proof.
  split; [ | split].
  - intros r. rewrite contact_emailjs_settled_eval.
    destruct r; [destruct d; reflexivity | apply fail_with_newsletter_part].
  - intros r. rewrite contact_formspree_settled_eval.
    destruct r as [status | ]; [destruct (ok status) | ];
      try apply fail_with_newsletter_part.
    destruct d; reflexivity.
  - rewrite contact_demo_fired_eval. destruct d; reflexivity.
Qed.

End Independence.

(** X13.  The two forms do not touch each other's elements.  The
    newsletter handler and its continuations leave the contact form's
    fields, alerts, submit control and spinner as they are; the
    contact handler and its continuations leave the newsletter's
    input, feedback line and focus as they are. *)
Theorem forms_independent (cfg : Config) (emailjs : bool) :
  keeps contact_part (onsubmit NewsletterForm cfg emailjs)
  /\ (forall r, keeps contact_part (emailjs_settled NewsletterForm r))
  /\ (forall r, keeps contact_part (formspree_settled NewsletterForm r))
  /\ keeps newsletter_part (onsubmit ContactForm cfg emailjs)
  /\ (forall r, keeps newsletter_part (emailjs_settled ContactForm r))
  /\ (forall r, keeps newsletter_part (formspree_settled ContactForm r))
  /\ keeps newsletter_part contact_demo_fired.
Proof.
  unfold keeps. simpl.
  split; [intros d; apply newsletter_onsubmit_contact_part | ].
  split; [intros r d; apply newsletter_settled_contact_part | ].
  split; [intros r d; apply newsletter_settled_contact_part | ].
  split.
  { intros d. rewrite contact_onsubmit_eval.
    destruct (valid_of d); destruct d; reflexivity. }
  split; [intros r d; apply contact_settled_newsletter_part | ].
  split; [intros r d; apply contact_settled_newsletter_part | ].
  intros d. apply contact_settled_newsletter_part.
Qed.

(** X14.  Submits of the two forms commute: the page is the same
    whichever of the two forms was submitted first, and each form
    issues the call it would have issued had the other not been
    submitted before it. *)
Theorem submits_commute (cfg : Config) (emailjs : bool) (p : Page) :
  dom (run cfg emailjs [Submit ContactForm; Submit NewsletterForm] p)
  = dom (run cfg emailjs [Submit NewsletterForm; Submit ContactForm] p)
  /\ issued cfg emailjs NewsletterForm
       (dom (step cfg emailjs (Submit ContactForm) p))
     = issued cfg emailjs NewsletterForm (dom p)
  /\ issued cfg emailjs ContactForm
       (dom (step cfg emailjs (Submit NewsletterForm) p))
     = issued cfg emailjs ContactForm (dom p).
Proof.
  unfold run, fold_left. cbn [step]. rewrite !dispatch_dom.
  generalize (dom p) as d. clear p. intros d.
  assert (Nc : newsletter_email (dom_of (contact_onsubmit cfg emailjs d))
               = newsletter_email d).
  { rewrite contact_onsubmit_eval.
    destruct (valid_of d); destruct d; reflexivity. }
  assert (Vn : values (dom_of (newsletter_onsubmit cfg emailjs d))
               = values d).
  { apply values_inputs.
    pose proof (newsletter_onsubmit_contact_part cfg emailjs d) as H.
    unfold contact_part in H. congruence. }
  destruct (values_valid Vn) as [V Pl].
  split; [ | split].
  - cbn [onsubmit].
    rewrite (@newsletter_onsubmit_eval cfg emailjs
               (dom_of (contact_onsubmit cfg emailjs d))), Nc.
    rewrite (@contact_onsubmit_eval cfg emailjs
               (dom_of (newsletter_onsubmit cfg emailjs d))), V, Pl.
    rewrite (@newsletter_onsubmit_eval cfg emailjs d).
    rewrite (@contact_onsubmit_eval cfg emailjs d).
    assert (S : forall m r d0,
               said m r (busied (validated (hidden d0)))
               = busied (validated (hidden (said m r d0)))
               /\ said m r (announced (validated (hidden d0)))
                  = announced (validated (hidden (said m r d0)))).
    { intros m r d0. unfold said.
      destruct d0 as [? [fb | ] ? ? ? ? ? ? ? ? ? ? ? ?]; split;
        reflexivity. }
    destruct (newsletter_email d) as [el | ];
      [ | destruct (valid_of d); reflexivity].
    destruct (isEmailValid (trim (value el))).
    + destruct (negb (truthy (EMAILJS_SERVICE_ID cfg))
                && negb (truthy (FORMSPREE_ENDPOINT cfg))).
      * destruct (valid_of d); simpl.
        -- rewrite (proj1 (S _ _ _)).
           destruct (said msg_newsletter_demo false d); reflexivity.
        -- rewrite (proj2 (S _ _ _)).
           destruct (said msg_newsletter_demo false d); reflexivity.
      * destruct (truthy (FORMSPREE_ENDPOINT cfg));
          [destruct (valid_of d); reflexivity | ].
        destruct (truthy (EMAILJS_SERVICE_ID cfg) && emailjs);
          destruct (valid_of d); reflexivity.
    + destruct (valid_of d); simpl.
      * rewrite (proj1 (S _ _ _)).
        destruct (said msg_newsletter_invalid true d); reflexivity.
      * rewrite (proj2 (S _ _ _)).
        destruct (said msg_newsletter_invalid true d); reflexivity.
  - unfold issued. cbn [onsubmit].
    rewrite (@newsletter_onsubmit_eval cfg emailjs
               (dom_of (contact_onsubmit cfg emailjs d))), Nc.
    rewrite (@newsletter_onsubmit_eval cfg emailjs d).
    destruct (newsletter_email d) as [el | ]; [ | reflexivity].
    destruct (isEmailValid (trim (value el))); [ | reflexivity].
    destruct (negb (truthy (EMAILJS_SERVICE_ID cfg))
              && negb (truthy (FORMSPREE_ENDPOINT cfg))); [reflexivity | ].
    destruct (truthy (FORMSPREE_ENDPOINT cfg)); [reflexivity | ].
    destruct (truthy (EMAILJS_SERVICE_ID cfg) && emailjs); reflexivity.
  - unfold issued. cbn [onsubmit].
    rewrite (@contact_onsubmit_eval cfg emailjs
               (dom_of (newsletter_onsubmit cfg emailjs d))), V, Pl.
    rewrite (@contact_onsubmit_eval cfg emailjs d).
    destruct (valid_of d); reflexivity.
Qed.

(** * Properties of main.js *)

(** ** The purchase links *)

Section PurchaseLinks.

Import Purchase.

Lemma apply_one_anchor el : is_anchor (apply_one el) = is_anchor el.
Proof. unfold apply_one. destruct (is_anchor el) eqn:E; exact E. Qed.

Lemma click_last l url loc :
  fold_left (fun (_ : jsstring) (u : jsstring) => u) (l ++ [url]) loc = url.
Proof. rewrite fold_left_app. reflexivity. Qed.

End PurchaseLinks.

(** X15.  After [applyPurchaseUrl] every purchase element leads to
    [PURCHASE_URL], whatever it led to before: an anchor by its
    [href], any other element by the last click listener it was
    given.  The elements stay as many and keep their tags; an anchor
    keeps a non-empty [role] and gets ["button"] in place of a missing
    or empty one, so it always has one; and a second run changes no
    anchor. *)
Theorem purchase_links_lead_to_url (els : list Purchase.Element) :
  List.length (Purchase.applyPurchaseUrl els) = List.length els
  /\ forall i el,
       nth_error els i = Some el ->
       exists el',
         nth_error (Purchase.applyPurchaseUrl els) i = Some el'
         /\ Purchase.tagName el' = Purchase.tagName el
         /\ if Purchase.is_anchor el then
              Purchase.href el' = Some Purchase.PURCHASE_URL
              /\ Purchase.role el'
                 = Some (or_else (Purchase.role el) (lit "button"))
              /\ truthy (or_else (Purchase.role el') []) = true
              /\ Purchase.apply_one el' = el'
            else
              Purchase.href el' = Purchase.href el
              /\ Purchase.role el' = Purchase.role el
              /\ forall location,
                   Purchase.click el' location = Purchase.PURCHASE_URL.
Proof.
  unfold Purchase.applyPurchaseUrl. split; [apply length_map | ].
  intros i el E. exists (Purchase.apply_one el).
  split; [apply map_nth_error; exact E | ].
  pose proof (apply_one_anchor el) as A.
  unfold Purchase.apply_one in *.
  destruct (Purchase.is_anchor el) eqn:An; simpl.
  - split; [reflexivity | ]. repeat split.
    + destruct (Purchase.role el) as [[ | c r] | ]; reflexivity.
    + unfold Purchase.is_anchor in *. simpl in *. rewrite An.
      destruct (Purchase.role el) as [[ | c r] | ]; reflexivity.
  - split; [reflexivity | ]. repeat split.
    intros location. unfold Purchase.click. simpl. apply click_last.
Qed.

(** ** The current page in the navigation *)

Section CurrentPage.

Import Nav.

Lemma str_eqb_eq a b : str_eqb a b = true <-> a = b.
Proof.
  unfold str_eqb. destruct (list_eq_dec N.eq_dec a b); split; auto.
  discriminate.
Qed.

Lemma str_eqb_refl a : str_eqb a a = true.
Proof. apply str_eqb_eq. reflexivity. Qed.

Lemma endsWith_spec s t : endsWith s t = true <-> exists p, s = p ++ t.
Proof.
  induction s as [ | c r IH]; simpl.
  - rewrite orb_false_r, str_eqb_eq. split.
    + intros <-. exists []. reflexivity.
    + intros [p E]. symmetry in E. apply app_eq_nil in E. symmetry. apply E.
  - rewrite orb_true_iff, str_eqb_eq, IH. split.
    + intros [<- | [p ->]]; [exists [] | exists (c :: p)]; reflexivity.
    + intros [[ | c' p] E]; simpl in E.
      * left. exact E.
      * right. exists p. congruence.
Qed.

Lemma split_clean sep s :
  ~ In sep s -> split sep s = [s].
Proof.
  induction s as [ | c r IH]; simpl; intros H; [reflexivity | ].
  destruct (N.eqb_spec c sep) as [-> | _]; [tauto | ].
  rewrite IH by tauto. reflexivity.
Qed.

Lemma split_app sep a b :
  exists x l, split sep (a ++ sep :: b) = x :: l ++ split sep b.
Proof.
  induction a as [ | c r (x & l & IH)]; simpl.
  - rewrite N.eqb_refl. exists [], []. reflexivity.
  - destruct (c =? sep)%N.
    + exists [], (x :: l). rewrite IH. reflexivity.
    + rewrite IH. exists (c :: x), l. reflexivity.
Qed.

Lemma pop_app l x : pop (l ++ [x]) = Some x.
Proof.
  induction l as [ | y l IH]; simpl; [reflexivity | ].
  rewrite IH. destruct (l ++ [x]) eqn:E; [ | reflexivity].
  apply app_eq_nil in E. destruct E. discriminate.
Qed.

Lemma current_path_split dir file :
  ~ In slash file ->
  current_path (dir ++ slash :: file) = or_else (Some file) (lit "index.html").
Proof.
  intros H. unfold current_path.
  destruct (split_app slash dir file) as (x & l & ->).
  rewrite (@split_clean _ _ H).
  change (x :: l ++ [file]) with ((x :: l) ++ [file]).
  rewrite pop_app. reflexivity.
Qed.

Lemma current_path_bare file :
  ~ In slash file ->
  current_path file = or_else (Some file) (lit "index.html").
Proof.
  intros H. unfold current_path. rewrite (@split_clean _ _ H). reflexivity.
Qed.

(** Every string is a directory part and a last segment, or has no
    slash at all. *)
Lemma last_segment s :
  (~ In slash s)
  \/ exists dir file, s = dir ++ slash :: file /\ ~ In slash file.
Proof.
  induction s as [ | c r IH]; [left; simpl; tauto | ].
  destruct IH as [H | (dir & file & -> & H)].
  - destruct (N.eq_dec c slash) as [-> | Hc].
    + right. exists [], r. auto.
    + left. simpl. intros [E | E]; [congruence | tauto].
  - right. exists (c :: dir), file. auto.
Qed.

End CurrentPage.

(** X16.  The file name the highlighting goes by is what follows the
    last slash of the pathname, and ["index.html"] when nothing
    follows it or the pathname is empty; it is never empty and never
    holds a slash. *)
Theorem current_path_is_last_segment (pathname : jsstring) :
  truthy (Nav.current_path pathname) = true
  /\ ~ In Nav.slash (Nav.current_path pathname)
  /\ (forall dir file,
        pathname = dir ++ Nav.slash :: file -> ~ In Nav.slash file ->
        Nav.current_path pathname
        = match file with [] => lit "index.html" | _ => file end)
  /\ (~ In Nav.slash pathname ->
      Nav.current_path pathname
      = match pathname with [] => lit "index.html" | _ => pathname end).
Proof.
  assert (I : ~ In Nav.slash (lit "index.html")).
  { simpl. unfold Nav.slash. intros H.
    repeat (destruct H as [H | H]; [discriminate | ]). exact H. }
  assert (O : forall f, or_else (Some f) (lit "index.html")
                        = match f with [] => lit "index.html" | _ => f end)
    by (intros [ | c r]; reflexivity).
  assert (G : forall f, ~ In Nav.slash f ->
                truthy (or_else (Some f) (lit "index.html")) = true
                /\ ~ In Nav.slash (or_else (Some f) (lit "index.html"))).
  { intros [ | c r] H; simpl; auto. }
  split; [ | split; [ | split]].
  - destruct (last_segment pathname) as [H | (dir & file & -> & H)].
    + rewrite (@current_path_bare _ H). apply G, H.
    + rewrite (@current_path_split dir _ H). apply G, H.
  - destruct (last_segment pathname) as [H | (dir & file & -> & H)].
    + rewrite (@current_path_bare _ H). apply G, H.
    + rewrite (@current_path_split dir _ H). apply G, H.
  - intros dir file -> H. rewrite (@current_path_split dir _ H). apply O.
  - intros H. rewrite (@current_path_bare _ H). apply O.
Qed.

Section Highlight.

Import Nav.

Lemma mark_link_href path a : href (mark_link path a) = href a.
Proof.
  unfold mark_link. destruct (href a) as [[ | c r] | ] eqn:E; auto.
  destruct (is_current path (c :: r)); simpl; auto.
Qed.

Lemma mark_link_twice path a :
  mark_link path (mark_link path a) = mark_link path a.
Proof.
  unfold mark_link at 1. rewrite mark_link_href.
  unfold mark_link. destruct (href a) as [[ | c r] | ]; reflexivity.
Qed.

Lemma mark_link_coherent path a :
  has_href a = true -> coherent (mark_link path a).
Proof.
  unfold has_href, mark_link, coherent.
  destruct (href a) as [[ | c r] | ]; try discriminate.
  intros _. destruct (is_current path (c :: r)); simpl; auto.
Qed.

End Highlight.

(** X17.  After [highlightCurrentNav] the class and the attribute of
    every link that has an [href] agree: it has [active] and
    [aria-current="page"], or neither, whatever it had before.  A link
    with no [href], or an empty one, is left exactly as it was, stale
    marks included.  The links stay as many and keep their [href]s,
    and a second run changes nothing. *)
Theorem highlight_marks_agree (pathname : jsstring)
    (navLinks : list Nav.Link) :
  let after := Nav.highlightCurrentNav pathname navLinks in
  List.length after = List.length navLinks
  /\ map Nav.href after = map Nav.href navLinks
  /\ (forall a, In a after -> Nav.has_href a = true -> Nav.coherent a)
  /\ (forall i a, nth_error navLinks i = Some a -> Nav.has_href a = false ->
                  nth_error after i = Some a)
  /\ Nav.highlightCurrentNav pathname after = after.
Proof.
  assert (M : forall links,
             Nav.highlightCurrentNav pathname links
             = map (Nav.mark_link (Nav.current_path pathname)) links)
    by (intros [ | a l]; reflexivity).
  cbv zeta. rewrite !M.
  set (path := Nav.current_path pathname).
  split; [apply length_map | ].
  split.
  { rewrite map_map. apply map_ext. intros a. apply mark_link_href. }
  split.
  { intros a Ha. apply in_map_iff in Ha. destruct Ha as (b & <- & _).
    unfold Nav.has_href. rewrite mark_link_href.
    apply mark_link_coherent. }
  split.
  { intros i a E H. rewrite (map_nth_error _ _ _ E). f_equal.
    unfold Nav.has_href in H. unfold Nav.mark_link.
    destruct (Nav.href a) as [[ | c r] | ]; try reflexivity.
    discriminate. }
  rewrite map_map. apply map_ext. intros a. apply mark_link_twice.
Qed.

Section OwnLink.

Import Nav.

Lemma endsWith_refl s : endsWith s s = true.
Proof. apply endsWith_spec. exists []. reflexivity. Qed.

Lemma endsWith_slash dir file :
  ~ In slash file ->
  endsWith (dir ++ slash :: file) [slash] = negb (truthy file).
Proof.
  intros H. destruct file as [ | c r]; simpl.
  - apply endsWith_spec. exists dir. reflexivity.
  - apply not_true_is_false. rewrite endsWith_spec. intros [p E].
    assert (L : In slash (c :: r)).
    { assert (R : rev (dir ++ slash :: c :: r) = rev (p ++ [slash]))
        by (rewrite E; reflexivity).
      rewrite rev_app_distr in R. simpl in R.
      rewrite rev_app_distr in R. simpl in R.
      destruct (rev r) as [ | z t] eqn:Er; simpl in R.
      - injection R as -> _. left. reflexivity.
      - injection R as -> _. right. apply in_rev. rewrite Er. left.
        reflexivity. }
    exact (H L).
Qed.

Lemma index_not_after_slash dir :
  endsWith (dir ++ [slash]) (lit "index.html") = false.
Proof.
  apply not_true_is_false. rewrite endsWith_spec. intros [p E].
  assert (R : rev (dir ++ [slash]) = rev (p ++ lit "index.html"))
    by (rewrite E; reflexivity).
  rewrite !rev_app_distr in R. simpl in R. discriminate.
Qed.

End OwnLink.

(** X18.  A link whose [href] is the page's own pathname is marked
    as current, unless the pathname is a directory other than the
    root: on ["/docs/"] the link ["/docs/"] is not marked, on ["/"]
    the link ["/"] is.  And the match is by suffix only: on a page
    [about.html] every link whose [href] ends in those letters is
    marked too, ["team-about.html"] as well. *)
Theorem own_link_marked (pathname : jsstring) :
  truthy pathname = true ->
  Nav.is_current (Nav.current_path pathname) pathname
  = negb (Nav.endsWith pathname [Nav.slash]) || str_eqb pathname [Nav.slash]
  /\ forall front,
       Nav.is_current (Nav.current_path pathname)
         (front ++ Nav.current_path pathname) = true.
Proof.
  intros T. split.
  - unfold Nav.is_current.
    destruct (last_segment pathname) as [H | (dir & file & -> & H)].
    + rewrite (@current_path_bare _ H).
      destruct pathname as [ | c r]; [discriminate | ].
      cbn [or_else].
      assert (E : Nav.endsWith (c :: r) [Nav.slash] = false).
      { apply not_true_is_false. rewrite endsWith_spec. intros [p E].
        apply H. rewrite E. apply in_or_app. right. left. reflexivity. }
      rewrite E, endsWith_refl. reflexivity.
    + rewrite (@current_path_split dir _ H), (@endsWith_slash dir _ H).
      destruct file as [ | c r]; cbn [or_else truthy negb orb].
      * rewrite index_not_after_slash, str_eqb_refl. cbn [orb andb].
        assert (N1 : str_eqb (dir ++ [Nav.slash]) (lit "/index.html")
                     = false).
        { apply not_true_is_false. rewrite str_eqb_eq. intros E.
          assert (R : rev (dir ++ [Nav.slash]) = rev (lit "/index.html"))
            by (rewrite E; reflexivity).
          rewrite rev_app_distr in R. discriminate. }
        assert (N2 : str_eqb (dir ++ [Nav.slash]) (lit "#home") = false).
        { apply not_true_is_false. rewrite str_eqb_eq. intros E.
          assert (R : rev (dir ++ [Nav.slash]) = rev (lit "#home"))
            by (rewrite E; reflexivity).
          rewrite rev_app_distr in R. discriminate. }
        rewrite N1, N2, !orb_false_r. reflexivity.
      * assert (E : Nav.endsWith (dir ++ Nav.slash :: c :: r) (c :: r) = true).
        { apply endsWith_spec. exists (dir ++ [Nav.slash]).
          rewrite <- app_assoc. reflexivity. }
        rewrite E. reflexivity.
  - intros front. unfold Nav.is_current.
    assert (E : Nav.endsWith (front ++ Nav.current_path pathname)
                  (Nav.current_path pathname) = true)
      by (apply endsWith_spec; exists front; reflexivity).
    rewrite E. reflexivity.
Qed.

Lemma own_link_marked_witness :
  Nav.is_current (Nav.current_path (lit "/docs/")) (lit "/docs/") = false
  /\ Nav.is_current (Nav.current_path (lit "/about.html"))
       (lit "team-about.html") = true.
Proof.
  destruct (@own_link_marked (lit "/docs/") eq_refl) as [H _].
  destruct (@own_link_marked (lit "/about.html") eq_refl) as [_ K].
  split; [rewrite H; reflexivity | exact (K (lit "team-"))].
Defined.

(** ** The back-to-top button *)

Section BackButton.

Import BackToTop.

Lemma le_not_gt a b : le a b = negb (gt a b).
Proof. unfold le, gt. destruct (QArith_base.Qcompare a b); reflexivity. Qed.

Lemma step_scrollY ev s :
  stays ev = true -> scrollY (step ev s) = scrollY s.
Proof.
  destruct ev as [y | | i | ms]; simpl; try discriminate; intros _.
  - unfold showBackButton. destruct (gt (scrollY s) threshold); reflexivity.
  - destruct (nth_error (timers s) i) as [due | ]; [ | reflexivity].
    destruct (due <=? clock s)%N; [ | reflexivity].
    unfold hide_if_still_up. simpl.
    destruct (le (scrollY s) threshold); reflexivity.
  - reflexivity.
Qed.

Lemma showBackButton_settles s : settled (showBackButton s).
Proof.
  unfold settled, showBackButton.
  destruct (gt (scrollY s) threshold) eqn:G; simpl; rewrite G.
  - split; reflexivity.
  - split; [reflexivity | ]. right. destruct (timers s); discriminate.
Qed.

Lemma step_settled ev s :
  stays ev = true -> settled s -> settled (step ev s).
Proof.
  destruct ev as [y | | i | ms]; simpl; try discriminate; intros _ H.
  - apply showBackButton_settles.
  - destruct (nth_error (timers s) i) as [due | ]; [ | exact H].
    destruct (due <=? clock s)%N; [ | exact H].
    unfold settled, hide_if_still_up in *. simpl.
    rewrite le_not_gt.
    destruct (gt (scrollY s) threshold) eqn:G; simpl; rewrite G.
    + exact H.
    + split; [apply H | left; reflexivity].
  - exact H.
Qed.

Lemma run_settled evs :
  forall s, forallb stays evs = true -> settled s ->
            settled (run evs s) /\ scrollY (run evs s) = scrollY s.
Proof.
  induction evs as [ | ev evs IH]; intros s Hs H; [split; auto | ].
  simpl in Hs. apply andb_true_iff in Hs. destruct Hs as [H1 H2].
  change (run (ev :: evs) s) with (run evs (step ev s)).
  destruct (IH (step ev s) H2 (@step_settled ev s H1 H)) as [A B].
  split; [exact A | ]. rewrite B. apply step_scrollY, H1.
Qed.

Lemma step_timely ev s : timely s -> timely (step ev s).
Proof.
  unfold timely. intros H.
  destruct ev as [y | | i | ms]; simpl; auto.
  - unfold showBackButton. destruct (gt (scrollY s) threshold); simpl; auto.
    apply Forall_app. split; [exact H | ]. constructor; [lia | constructor].
  - destruct (nth_error (timers s) i) as [due | ]; [ | exact H].
    destruct (due <=? clock s)%N; [ | exact H].
    unfold hide_if_still_up. simpl.
    destruct (le (scrollY s) threshold); simpl; apply Forall_remove_at, H.
  - eapply Forall_impl; [ | exact H]. simpl. intros due. lia.
Qed.

Lemma run_timely evs : forall s, timely s -> timely (run evs s).
Proof.
  induction evs as [ | ev evs IH]; intros s H; [exact H | ].
  apply IH, step_timely, H.
Qed.

Lemma fire_all l :
  forall s, timers s = l ->
    Forall (fun due => (due <= clock s)%N) l ->
    le (scrollY s) threshold = true ->
    let s' := run (repeat (TimerFires 0) (List.length l)) s in
    timers s' = [] /\ opacity (style s') = opacity (style s)
    /\ (l <> [] -> display (style s') = lit "none").
Proof.
  induction l as [ | due l IH]; intros s E F L s'; subst s'.
  - simpl. repeat split; [exact E | congruence].
  - inversion F as [ | ? ? Hd Hl]; subst. apply N.leb_le in Hd.
    assert (Q : step (TimerFires 0) s
                = {| scrollY := scrollY s;
                     style := {| display := lit "none";
                                 opacity := opacity (style s) |};
                     timers := l; clock := clock s |}).
    { simpl. rewrite E. simpl. rewrite Hd. unfold hide_if_still_up.
      cbn [drop_timer scrollY]. rewrite L. simpl. rewrite E.
      reflexivity. }
    change (run (repeat (TimerFires 0) (List.length (due :: l))) s)
      with (run (repeat (TimerFires 0) (List.length l))
              (step (TimerFires 0) s)).
    rewrite Q.
    match goal with
    | |- context [run _ ?q] =>
        destruct (IH q eq_refl Hl L) as (A & B & C)
    end.
    split; [exact A | ]. split; [exact B | ].
    intros _. destruct l as [ | d2 l2]; [reflexivity | ].
    apply C. discriminate.
Qed.

End BackButton.

(** X19.  Once the scroll listener has run for the position the page
    is at, the button is right for that position and stays so while
    the page does not move, whatever timeouts of earlier scrolls fire
    meanwhile: beyond 300 pixels it is displayed at full opacity, and
    no late timeout hides it; at 300 or less its opacity is 0, and it
    is hidden or a timeout that will hide it is pending. *)
Theorem back_button_settles (s : BackToTop.State)
    (evs : list BackToTop.Event) :
  forallb BackToTop.stays evs = true ->
  let s' := BackToTop.run (BackToTop.ScrollEvent :: evs) s in
  BackToTop.scrollY s' = BackToTop.scrollY s
  /\ if BackToTop.gt (BackToTop.scrollY s) BackToTop.threshold
     then BackToTop.visible s'
     else BackToTop.opacity (BackToTop.style s') = lit "0"
          /\ (BackToTop.display (BackToTop.style s') = lit "none"
              \/ BackToTop.timers s' <> []).
Proof.
  intros H s'. subst s'.
  change (BackToTop.run (BackToTop.ScrollEvent :: evs) s)
    with (BackToTop.run evs (BackToTop.showBackButton s)).
  destruct (run_settled evs (BackToTop.showBackButton s) H
              (showBackButton_settles s)) as [A B].
  assert (Y : BackToTop.scrollY (BackToTop.showBackButton s)
              = BackToTop.scrollY s).
  { unfold BackToTop.showBackButton.
    destruct (BackToTop.gt (BackToTop.scrollY s) BackToTop.threshold);
      reflexivity. }
  rewrite Y in B. split; [exact B | ].
  unfold BackToTop.settled in A. rewrite B in A. exact A.
Qed.

Lemma back_button_settles_witness :
  BackToTop.visible
    (BackToTop.run
       [BackToTop.ScrollEvent; BackToTop.Tick 220; BackToTop.TimerFires 0]
       (BackToTop.step (BackToTop.ScrollTo (QArith_base.inject_Z 301))
          (BackToTop.loaded (QArith_base.inject_Z 0)
             {| BackToTop.display := []; BackToTop.opacity := [] |}))).
Proof.
  apply (@back_button_settles
           (BackToTop.step (BackToTop.ScrollTo (QArith_base.inject_Z 301))
              (BackToTop.loaded (QArith_base.inject_Z 0)
                 {| BackToTop.display := []; BackToTop.opacity := [] |}))
           [BackToTop.Tick 220; BackToTop.TimerFires 0] eq_refl).
Defined.

(** X20.  And the button does get hidden: after any history of the
    page, if the listener has run at a position of 300 pixels or less
    and the page stays there, then once 220 ms have passed and the
    pending timeouts have fired the button has [display: none] and
    opacity 0, and no timeout is left. *)
Theorem back_button_hides (y : QArith_base.Q) (st : BackToTop.Style)
    (evs : list BackToTop.Event) (ms : N) :
  let s := BackToTop.run (evs ++ [BackToTop.ScrollEvent])
             (BackToTop.loaded y st) in
  BackToTop.le (BackToTop.scrollY s) BackToTop.threshold = true ->
  (220 <= ms)%N ->
  let s' := BackToTop.run
              (BackToTop.Tick ms
               :: repeat (BackToTop.TimerFires 0)
                    (List.length (BackToTop.timers s))) s in
  BackToTop.gone s' /\ BackToTop.timers s' = [].
Proof.
  intros s L M s'.
  assert (T : BackToTop.timely s).
  { apply run_timely. unfold BackToTop.timely, BackToTop.loaded.
    unfold BackToTop.showBackButton. cbn [BackToTop.scrollY].
    destruct (BackToTop.gt y BackToTop.threshold); simpl; repeat constructor.
    lia. }
  assert (S : s = BackToTop.showBackButton
                    (BackToTop.run evs (BackToTop.loaded y st))).
  { unfold s, BackToTop.run. rewrite fold_left_app. reflexivity. }
  assert (G : BackToTop.gt (BackToTop.scrollY
                              (BackToTop.run evs (BackToTop.loaded y st)))
                BackToTop.threshold = false).
  { rewrite le_not_gt in L. apply negb_true_iff in L. rewrite S in L.
    unfold BackToTop.showBackButton in L.
    destruct (BackToTop.gt
                (BackToTop.scrollY
                   (BackToTop.run evs (BackToTop.loaded y st)))
                BackToTop.threshold) eqn:E; [ | reflexivity].
    simpl in L. congruence. }
  assert (O : BackToTop.opacity (BackToTop.style s) = lit "0"
              /\ BackToTop.timers s <> []).
  { rewrite S. unfold BackToTop.showBackButton. rewrite G. simpl.
    split; [reflexivity | ].
    destruct (BackToTop.timers (BackToTop.run evs (BackToTop.loaded y st)));
      discriminate. }
  subst s'.
  change (BackToTop.run (BackToTop.Tick ms :: ?l) s)
    with (BackToTop.run l (BackToTop.step (BackToTop.Tick ms) s)).
  set (q := BackToTop.step (BackToTop.Tick ms) s).
  assert (Eq : BackToTop.timers q = BackToTop.timers s) by reflexivity.
  destruct (@fire_all (BackToTop.timers s) q Eq) as (A & B & C).
  - unfold BackToTop.timely in T. eapply Forall_impl; [ | exact T].
    simpl. intros due. lia.
  - exact L.
  - split; [ | exact A]. split; [apply C, O | ].
    rewrite B. apply O.
Qed.

Lemma back_button_hides_witness :
  BackToTop.gone
    (BackToTop.run
       [BackToTop.ScrollTo (QArith_base.inject_Z 500); BackToTop.ScrollEvent;
        BackToTop.ScrollTo (QArith_base.inject_Z 10); BackToTop.ScrollEvent;
        BackToTop.Tick 250; BackToTop.TimerFires 0; BackToTop.TimerFires 0]
       (BackToTop.loaded (QArith_base.inject_Z 0)
          {| BackToTop.display := []; BackToTop.opacity := [] |})).
Proof.
  apply (@back_button_hides (QArith_base.inject_Z 0)
           {| BackToTop.display := []; BackToTop.opacity := [] |}
           [BackToTop.ScrollTo (QArith_base.inject_Z 500);
            BackToTop.ScrollEvent;
            BackToTop.ScrollTo (QArith_base.inject_Z 10)] 250%N
           eq_refl).
  vm_compute. discriminate.
Defined.

(** ** Same-page anchors *)

Section Anchors.

Import Anchor.

Variable querySelector : jsstring -> Lookup.
Variable s0 : State.

Lemma In_remove_at_in A (x : A) i l : In x (remove_at i l) -> In x l.
Proof.
  unfold remove_at. intros H. apply in_app_or in H.
  destruct H as [H | H].
  - rewrite <- (firstn_skipn i l). apply in_or_app. left. exact H.
  - rewrite <- (firstn_skipn (S i) l). apply in_or_app. right. exact H.
Qed.

Lemma In_remove_at_other A (x y : A) i :
  forall l, In x l -> nth_error l i = Some y -> x <> y ->
            In x (remove_at i l).
Proof.
  unfold remove_at. induction i as [ | i IH]; intros [ | z l] H E N;
    simpl in *; try discriminate.
  - injection E as ->. destruct H as [H | H]; [congruence | exact H].
  - destruct H as [H | H]; [left; exact H | right; apply IH; auto].
Qed.

Lemma onclick_target href s :
  snd (onclick querySelector href s)
  = match target querySelector href with
    | Some id =>
        {| tabindex := set_attr id (Some (lit "-1")) (tabindex s);
           focus := Some id;
           timers := timers s ++ [((clock s + 1000)%N, id)];
           clock := clock s |}
    | None => s
    end.
Proof.
  unfold onclick, target. destruct href as [h | ]; [ | reflexivity].
  destruct (negb (truthy h) || str_eqb h (lit "#")); [reflexivity | ].
  destruct (querySelector h); reflexivity.
Qed.

Lemma step_tracked ev seen s :
  tracked s0 seen s ->
  tracked s0 (seen ++ targets querySelector [ev])
    (step querySelector ev s).
Proof.
  intros [T I]. destruct ev as [href | i | ms]; simpl.
  - rewrite onclick_target.
    destruct (target querySelector href) as [id | ]; simpl;
      [ | rewrite app_nil_r; split; assumption].
    split.
    + cbn [timers]. intros due j H. apply in_app_or in H.
      apply in_or_app.
      destruct H as [H | [H | []]]; [left; eauto | ].
      injection H as _ <-. right. left. reflexivity.
    + intros j. cbn [tabindex timers]. unfold set_attr.
      destruct (Nat.eqb_spec j id) as [-> | N].
      * left. split; [apply in_or_app; right; left; reflexivity | ].
        right. split; [reflexivity | ]. eexists. apply in_or_app. right.
        left. reflexivity.
      * destruct (I j) as [[S H] | [S H]].
        -- left. split; [apply in_or_app; left; exact S | ].
           destruct H as [H | [H [due D]]]; [left; exact H | ].
           right. split; [exact H | ]. exists due. apply in_or_app.
           left. exact D.
        -- right. split; [ | exact H].
           intros K. apply in_app_or in K.
           destruct K as [K | [K | []]]; [tauto | congruence].
  - rewrite app_nil_r.
    destruct (nth_error (timers s) i) as [[due id] | ] eqn:E;
      [ | split; assumption].
    destruct (due <=? clock s)%N; [ | split; assumption].
    simpl. split.
    + cbn [timers]. intros due' j H. apply In_remove_at_in in H. eauto.
    + intros j. cbn [tabindex timers]. unfold set_attr.
      destruct (Nat.eqb_spec j id) as [-> | N].
      * left. split; [ | left; reflexivity].
        apply (T due). eapply nth_error_In. exact E.
      * destruct (I j) as [[S H] | [S H]]; [ | right; auto].
        left. split; [exact S | ].
        destruct H as [H | [H [due' D]]]; [left; exact H | ].
        right. split; [exact H | ]. exists due'.
        apply (@In_remove_at_other _ _ _ _ _ D E). congruence.
  - rewrite app_nil_r. split; assumption.
Qed.

Lemma run_tracked evs :
  forall seen s,
    tracked s0 seen s ->
    tracked s0 (seen ++ targets querySelector evs)
      (run querySelector evs s).
Proof.
  induction evs as [ | ev evs IH]; intros seen s H.
  - simpl. rewrite app_nil_r. exact H.
  - change (run querySelector (ev :: evs) s)
      with (run querySelector evs (step querySelector ev s)).
    assert (T : targets querySelector (ev :: evs)
                = targets querySelector [ev] ++ targets querySelector evs).
    { unfold targets. simpl. rewrite app_nil_r. reflexivity. }
    rewrite T, app_assoc. apply IH, step_tracked, H.
Qed.

End Anchors.

(** X21.  Whatever [tabindex] an element was written with, it has
    none once a same-page link to it was clicked and the timeouts have
    fired: after any clicks, and with no timeout left pending, the
    elements the clicks scrolled to have no [tabindex] attribute and
    all others have the one they had; a click with no [href], an
    empty one, ["#"], or one that finds no element scrolls to
    nothing. *)
Theorem anchor_targets_lose_tabindex
    (querySelector : jsstring -> Anchor.Lookup) (s : Anchor.State)
    (evs : list Anchor.Event) :
  Anchor.timers s = [] ->
  Anchor.timers (Anchor.run querySelector evs s) = [] ->
  forall id,
    Anchor.tabindex (Anchor.run querySelector evs s) id
    = if existsb (Nat.eqb id) (Anchor.targets querySelector evs)
      then None
      else Anchor.tabindex s id.
Proof.
  intros E0 E id.
  assert (H0 : Anchor.tracked s [] s).
  { split.
    - rewrite E0. intros due j [].
    - intros j. right. split; [intros [] | reflexivity]. }
  destruct (run_tracked querySelector evs H0) as [_ I]. simpl in I.
  destruct (existsb (Nat.eqb id) (Anchor.targets querySelector evs)) eqn:X.
  - destruct (I id) as [[_ [H | [_ [due D]]]] | [N _]].
    + exact H.
    + rewrite E in D. destruct D.
    + exfalso. apply N. apply existsb_exists in X.
      destruct X as (j & Hj & Ej). apply Nat.eqb_eq in Ej. subst j.
      exact Hj.
  - destruct (I id) as [[S _] | [_ H]]; [ | exact H].
    exfalso. assert (Y : existsb (Nat.eqb id)
                           (Anchor.targets querySelector evs) = true).
    { apply existsb_exists. exists id. split; [exact S | ].
      apply Nat.eqb_refl. }
    congruence.
Qed.

Lemma anchor_targets_lose_tabindex_witness :
  Anchor.tabindex
    (Anchor.run
       (fun h => if str_eqb h (lit "#top") then Anchor.Found 0
                 else Anchor.NotFound)
       [Anchor.Click (Some (lit "#top")); Anchor.Tick 1000;
        Anchor.TimerFires 0; Anchor.Click (Some (lit "#"))]
       {| Anchor.tabindex := fun _ => Some (lit "0");
          Anchor.focus := None; Anchor.timers := []; Anchor.clock := 0 |})
    0%nat
  = None.
Proof.
  apply (@anchor_targets_lose_tabindex
           (fun h => if str_eqb h (lit "#top") then Anchor.Found 0
                     else Anchor.NotFound)
           {| Anchor.tabindex := fun _ => Some (lit "0");
              Anchor.focus := None; Anchor.timers := [];
              Anchor.clock := 0 |}
           [Anchor.Click (Some (lit "#top")); Anchor.Tick 1000;
            Anchor.TimerFires 0; Anchor.Click (Some (lit "#"))]
           eq_refl eq_refl 0%nat).
Defined.
